(** * dreamcog: the ownership-scoped persistence layer

    A shallow embedding of [server/db.ts] (the repository functions),
    [drizzle/schema.ts] (the tables) and the composite procedures of
    [server/routers.ts], with the properties of the specification stated
    and settled over it.

    The relational store is external to the repository.  It is modelled as
    eleven tables, each a list of rows in insertion order with an
    auto-increment counter; a statement is a function on the store.
    Columns the store fills on its own ([id]: autoincrement,
    [createdAt]/[updatedAt]: defaultNow / onUpdateNow) are store-assigned:
    no caller in the repository supplies them, so the insert and partial
    update records leave them out.

    The store of the main development answers every statement it is sent
    (a LIMIT that is not a whole number apart, which it refuses); module
    [Outage] has the functions of a process whose store is down.  What SQL
    leaves to the store (the order of rows of equal sort key, the order
    of a SELECT without ORDER BY, the fate of a value longer than its
    column) the model decides one way, and the properties are stated so
    that they do not rest on that choice where they are about it. *)

From Stdlib Require Import ZArith Lia.
From stdpp Require Import base decidable option list sorting strings gmap.

Local Open Scope string_scope.
Local Open Scope list_scope.
Local Open Scope Z_scope.

(** ** Values *)

(** A column that admits SQL NULL (JS [null]). *)
Abbreviation Nullable := option (only parsing).
(** A property of an input object that may be left out (JS [undefined]). *)
Abbreviation Optional := option (only parsing).

(** Timestamps are clock readings. *)
Abbreviation Timestamp := Z (only parsing).
(** The [json] columns hold a serialised document. *)
Abbreviation Json := string (only parsing).

(** [value ?? fallback] on an optional property. *)
Definition orElse {A} (o : Optional A) (d : A) : A :=
  match o with Some v => v | None => d end.

(** What a statement does with an optional property of a nullable column
    without default: left out means NULL. *)
Definition orNull {A} (o : Optional (Nullable A)) : Nullable A := orElse o None.

(** [set] of an UPDATE for one column: [undefined] keeps the stored value. *)
Definition assign {A} (o : Optional A) (old : A) : A := orElse o old.

(** A JavaScript number as a LIMIT tells numbers apart: a whole number; a
    number that is not whole (a fraction or an infinity), of which only
    the sign matters; or NaN. *)
Inductive Number :=
  | Whole (n : Z)
  | NotWhole (negative : bool)
  | NaN.

(** [x >= 0] *)
Definition geq0 (x : Number) : bool :=
  match x with
  | Whole n => 0 <=? n
  | NotWhole negative => negb negative
  | NaN => false
  end.

Module Role.
Inductive t := user | admin.
#[global] Instance eq_dec : EqDecision t.
Proof. solve_decision. Defined.
End Role.

Module InteractionType.
Inductive t := message | text | instruction.
#[global] Instance eq_dec : EqDecision t.
Proof. solve_decision. Defined.
End InteractionType.

Module MessageType.
Inductive t := message | text | instruction | user | system.
#[global] Instance eq_dec : EqDecision t.
Proof. solve_decision. Defined.
End MessageType.

(** ** Rows (drizzle/schema.ts) *)

Module User.
Record t := mk {
  id : Z;
  openId : string;
  name : Nullable string;
  email : Nullable string;
  loginMethod : Nullable string;
  role : Role.t;
  createdAt : Timestamp;
  updatedAt : Timestamp;
  lastSignedIn : Timestamp }.
#[global] Instance eq_dec : EqDecision t.
Proof. solve_decision. Defined.
End User.

Module InsertUser.
Record t := mk {
  openId : string;
  name : Optional (Nullable string);
  email : Optional (Nullable string);
  loginMethod : Optional (Nullable string);
  role : Optional Role.t;
  lastSignedIn : Optional Timestamp }.
End InsertUser.

Module ApiKey.
Record t := mk {
  id : Z;
  userId : Z;
  keyName : string;
  encryptedKey : string;
  lastUsed : Nullable Timestamp;
  createdAt : Timestamp }.
#[global] Instance eq_dec : EqDecision t.
Proof. solve_decision. Defined.
End ApiKey.

Module InsertApiKey.
Record t := mk {
  userId : Z;
  keyName : string;
  encryptedKey : string;
  lastUsed : Optional (Nullable Timestamp) }.
End InsertApiKey.

(** The columns [getApiKeysByUserId] selects. *)
Module ApiKeyInfo.
Record t := mk {
  id : Z;
  keyName : string;
  lastUsed : Nullable Timestamp;
  createdAt : Timestamp }.
#[global] Instance eq_dec : EqDecision t.
Proof. solve_decision. Defined.
End ApiKeyInfo.

Module Character.
Record t := mk {
  id : Z;
  userId : Z;
  name : string;
  label : string;
  promptDescription : Nullable string;
  displayDescription : Nullable string;
  imageUrl : Nullable string;
  isUserCharacter : Nullable bool;
  createdAt : Timestamp;
  updatedAt : Timestamp }.
#[global] Instance eq_dec : EqDecision t.
Proof. solve_decision. Defined.
End Character.

Module InsertCharacter.
Record t := mk {
  userId : Z;
  name : string;
  label : string;
  promptDescription : Optional (Nullable string);
  displayDescription : Optional (Nullable string);
  imageUrl : Optional (Nullable string);
  isUserCharacter : Optional (Nullable bool) }.
End InsertCharacter.

(** [Partial<InsertCharacter>], and likewise the other partial records:
    the properties of the insert record, each optional; [userId] is one of
    them and an update writes it like any other.  The store-assigned [id],
    [createdAt] and [updatedAt] are left out as they are in the insert
    records: an update whose data carries one of them is outside this
    model, and nothing is stated of it. *)
Module PartialCharacter.
Record t := mk {
  userId : Optional Z;
  name : Optional string;
  label : Optional string;
  promptDescription : Optional (Nullable string);
  displayDescription : Optional (Nullable string);
  imageUrl : Optional (Nullable string);
  isUserCharacter : Optional (Nullable bool) }.
End PartialCharacter.

Module Scenario.
Record t := mk {
  id : Z;
  userId : Z;
  title : string;
  promptDescription : Nullable string;
  displayDescription : Nullable string;
  imageUrl : Nullable string;
  isPublic : Nullable bool;
  createdAt : Timestamp;
  updatedAt : Timestamp }.
#[global] Instance eq_dec : EqDecision t.
Proof. solve_decision. Defined.
(** [title: varchar("title", { length: 300 })]: the number of characters
    the column takes.  What the store does with a longer title is its
    own; the rows of this model carry titles of any length, and a
    property of a title the repository itself makes says where it
    fits. *)
Definition titleLength : nat := 300.
End Scenario.

Module InsertScenario.
Record t := mk {
  userId : Z;
  title : string;
  promptDescription : Optional (Nullable string);
  displayDescription : Optional (Nullable string);
  imageUrl : Optional (Nullable string);
  isPublic : Optional (Nullable bool) }.
End InsertScenario.

Module PartialScenario.
Record t := mk {
  userId : Optional Z;
  title : Optional string;
  promptDescription : Optional (Nullable string);
  displayDescription : Optional (Nullable string);
  imageUrl : Optional (Nullable string);
  isPublic : Optional (Nullable bool) }.
End PartialScenario.

Module ScenarioCharacter.
Record t := mk {
  id : Z;
  scenarioId : Z;
  characterId : Nullable Z;
  name : string;
  label : string;
  promptDescription : Nullable string;
  isUserCharacter : Nullable bool;
  orderIndex : Nullable Z }.
#[global] Instance eq_dec : EqDecision t.
Proof. solve_decision. Defined.
End ScenarioCharacter.

Module InsertScenarioCharacter.
Record t := mk {
  scenarioId : Z;
  characterId : Optional (Nullable Z);
  name : string;
  label : string;
  promptDescription : Optional (Nullable string);
  isUserCharacter : Optional (Nullable bool);
  orderIndex : Optional (Nullable Z) }.
End InsertScenarioCharacter.

Module ScenarioInteraction.
Record t := mk {
  id : Z;
  scenarioId : Z;
  interactionType : InteractionType.t;
  characterLabel : Nullable string;
  content : string;
  isSticky : Nullable bool;
  orderIndex : Nullable Z }.
#[global] Instance eq_dec : EqDecision t.
Proof. solve_decision. Defined.
End ScenarioInteraction.

Module InsertScenarioInteraction.
Record t := mk {
  scenarioId : Z;
  interactionType : InteractionType.t;
  characterLabel : Optional (Nullable string);
  content : string;
  isSticky : Optional (Nullable bool);
  orderIndex : Optional (Nullable Z) }.
End InsertScenarioInteraction.

Module PartialScenarioInteraction.
Record t := mk {
  scenarioId : Optional Z;
  interactionType : Optional InteractionType.t;
  characterLabel : Optional (Nullable string);
  content : Optional string;
  isSticky : Optional (Nullable bool);
  orderIndex : Optional (Nullable Z) }.
End PartialScenarioInteraction.

Module ChatSession.
Record t := mk {
  id : Z;
  userId : Z;
  scenarioId : Nullable Z;
  title : string;
  systemPrompt : Nullable string;
  modelId : Nullable string;
  samplingParams : Nullable Json;
  createdAt : Timestamp;
  updatedAt : Timestamp }.
#[global] Instance eq_dec : EqDecision t.
Proof. solve_decision. Defined.
End ChatSession.

Module InsertChatSession.
Record t := mk {
  userId : Z;
  scenarioId : Optional (Nullable Z);
  title : string;
  systemPrompt : Optional (Nullable string);
  modelId : Optional (Nullable string);
  samplingParams : Optional (Nullable Json) }.
End InsertChatSession.

Module PartialChatSession.
Record t := mk {
  userId : Optional Z;
  scenarioId : Optional (Nullable Z);
  title : Optional string;
  systemPrompt : Optional (Nullable string);
  modelId : Optional (Nullable string);
  samplingParams : Optional (Nullable Json) }.
End PartialChatSession.

Module ChatMessage.
Record t := mk {
  id : Z;
  sessionId : Z;
  messageType : MessageType.t;
  characterLabel : Nullable string;
  characterName : Nullable string;
  content : string;
  isSticky : Nullable bool;
  createdAt : Timestamp }.
#[global] Instance eq_dec : EqDecision t.
Proof. solve_decision. Defined.
End ChatMessage.

Module InsertChatMessage.
Record t := mk {
  sessionId : Z;
  messageType : MessageType.t;
  characterLabel : Optional (Nullable string);
  characterName : Optional (Nullable string);
  content : string;
  isSticky : Optional (Nullable bool) }.
End InsertChatMessage.

Module Story.
Record t := mk {
  id : Z;
  userId : Z;
  title : string;
  plotDescription : Nullable string;
  styleDescription : Nullable string;
  content : Nullable string;
  modelId : Nullable string;
  samplingParams : Nullable Json;
  createdAt : Timestamp;
  updatedAt : Timestamp }.
#[global] Instance eq_dec : EqDecision t.
Proof. solve_decision. Defined.
End Story.

Module InsertStory.
Record t := mk {
  userId : Z;
  title : string;
  plotDescription : Optional (Nullable string);
  styleDescription : Optional (Nullable string);
  content : Optional (Nullable string);
  modelId : Optional (Nullable string);
  samplingParams : Optional (Nullable Json) }.
End InsertStory.

Module PartialStory.
Record t := mk {
  userId : Optional Z;
  title : Optional string;
  plotDescription : Optional (Nullable string);
  styleDescription : Optional (Nullable string);
  content : Optional (Nullable string);
  modelId : Optional (Nullable string);
  samplingParams : Optional (Nullable Json) }.
End PartialStory.

Module StoryCharacter.
Record t := mk {
  id : Z;
  storyId : Z;
  name : string;
  description : Nullable string;
  orderIndex : Nullable Z }.
#[global] Instance eq_dec : EqDecision t.
Proof. solve_decision. Defined.
End StoryCharacter.

Module InsertStoryCharacter.
Record t := mk {
  storyId : Z;
  name : string;
  description : Optional (Nullable string);
  orderIndex : Optional (Nullable Z) }.
End InsertStoryCharacter.

Module PartialStoryCharacter.
Record t := mk {
  storyId : Optional Z;
  name : Optional string;
  description : Optional (Nullable string);
  orderIndex : Optional (Nullable Z) }.
End PartialStoryCharacter.

Module GeneratedImage.
Record t := mk {
  id : Z;
  userId : Z;
  includePrompt : string;
  excludePrompt : Nullable string;
  cfgScale : Nullable Z;
  fidelity : Nullable Z;
  aspectRatio : Nullable string;
  style : Nullable string;
  seed : Nullable Z;
  imageUrl : Nullable string;
  createdAt : Timestamp }.
#[global] Instance eq_dec : EqDecision t.
Proof. solve_decision. Defined.
End GeneratedImage.

Module InsertGeneratedImage.
Record t := mk {
  userId : Z;
  includePrompt : string;
  excludePrompt : Optional (Nullable string);
  cfgScale : Optional (Nullable Z);
  fidelity : Optional (Nullable Z);
  aspectRatio : Optional (Nullable string);
  style : Optional (Nullable string);
  seed : Optional (Nullable Z);
  imageUrl : Optional (Nullable string) }.
End InsertGeneratedImage.

(** ** Tables and statements *)

(** A table: its rows in insertion order (the order of a scan on the
    auto-increment primary key) and the next auto-increment value. *)
Record Table (R : Type) := mkTable {
  rows : list R;
  autoIncrement : Z }.
Arguments mkTable {R} _ _.
Arguments rows {R} _.
Arguments autoIncrement {R} _.

Section Statements.
Context {R : Type}.

(** [select().from(t).where(P)] *)
Definition tbl_select (P : R → Prop) `{!∀ r, Decision (P r)}
    (t : Table R) : list R :=
  filter P (rows t).

(** [delete(t).where(P)] *)
Definition tbl_delete (P : R → Prop) `{!∀ r, Decision (P r)}
    (t : Table R) : Table R :=
  mkTable (filter (λ r, ¬ P r) (rows t)) (autoIncrement t).

(** [update(t).set(f).where(P)] *)
Definition tbl_update (P : R → Prop) `{!∀ r, Decision (P r)}
    (f : R → R) (t : Table R) : Table R :=
  mkTable ((λ r, if decide (P r) then f r else r) <$> rows t)
          (autoIncrement t).

(** [insert(t).values(v)]: the row gets the next auto-increment value,
    which is the statement's [insertId]. *)
Definition tbl_insert (mkRow : Z → R) (t : Table R) : Z * Table R :=
  (autoIncrement t,
   mkTable (rows t ++ [mkRow (autoIncrement t)]) (autoIncrement t + 1)).
End Statements.

(** [orderBy]: the rows sorted on a key.  SQL leaves the order of rows of
    equal key, and the order of a SELECT without ORDER BY, to the store;
    the repository sends no tie-breaker.  The store of this model scans a
    table in insertion order and sorts stably (an insertion sort); that is
    one store among those SQL allows, and the properties stated of a list
    say which of its rows they fix the order of. *)
Section OrderBy.
Context {R K : Type} (le : K → K → bool) (key : R → K).

Fixpoint place (x : R) (l : list R) : list R :=
  match l with
  | [] => [x]
  | y :: l' => if le (key x) (key y) then x :: l else y :: place x l'
  end.

Definition orderBy (l : list R) : list R := foldr place [] l.
End OrderBy.
Arguments orderBy {R K} le key l : simpl never.

(** Ascending and descending order on a NOT NULL integer or timestamp. *)
Definition asc (a b : Z) : bool := a <=? b.
Definition desc (a b : Z) : bool := b <=? a.
(** Ascending order on a nullable integer: NULL sorts first. *)
Definition ascNull (a b : Nullable Z) : bool :=
  match a, b with
  | None, _ => true
  | Some _, None => false
  | Some x, Some y => x <=? y
  end.

(** [limit(n)] *)
Definition limit {R} (n : nat) (l : list R) : list R := take n l.

(** The store: the eleven tables of drizzle/schema.ts. *)
Record Store := mkStore {
  users : Table User.t;
  apiKeys : Table ApiKey.t;
  characters : Table Character.t;
  scenarios : Table Scenario.t;
  scenarioCharacters : Table ScenarioCharacter.t;
  scenarioInteractions : Table ScenarioInteraction.t;
  chatSessions : Table ChatSession.t;
  chatMessages : Table ChatMessage.t;
  stories : Table Story.t;
  storyCharacters : Table StoryCharacter.t;
  generatedImages : Table GeneratedImage.t }.

Definition set_users (t : Table User.t) (s : Store) : Store :=
  mkStore t (apiKeys s) (characters s) (scenarios s) (scenarioCharacters s)
    (scenarioInteractions s) (chatSessions s) (chatMessages s) (stories s)
    (storyCharacters s) (generatedImages s).
Definition set_apiKeys (t : Table ApiKey.t) (s : Store) : Store :=
  mkStore (users s) t (characters s) (scenarios s) (scenarioCharacters s)
    (scenarioInteractions s) (chatSessions s) (chatMessages s) (stories s)
    (storyCharacters s) (generatedImages s).
Definition set_characters (t : Table Character.t) (s : Store) : Store :=
  mkStore (users s) (apiKeys s) t (scenarios s) (scenarioCharacters s)
    (scenarioInteractions s) (chatSessions s) (chatMessages s) (stories s)
    (storyCharacters s) (generatedImages s).
Definition set_scenarios (t : Table Scenario.t) (s : Store) : Store :=
  mkStore (users s) (apiKeys s) (characters s) t (scenarioCharacters s)
    (scenarioInteractions s) (chatSessions s) (chatMessages s) (stories s)
    (storyCharacters s) (generatedImages s).
Definition set_scenarioCharacters (t : Table ScenarioCharacter.t) (s : Store)
    : Store :=
  mkStore (users s) (apiKeys s) (characters s) (scenarios s) t
    (scenarioInteractions s) (chatSessions s) (chatMessages s) (stories s)
    (storyCharacters s) (generatedImages s).
Definition set_scenarioInteractions (t : Table ScenarioInteraction.t)
    (s : Store) : Store :=
  mkStore (users s) (apiKeys s) (characters s) (scenarios s)
    (scenarioCharacters s) t (chatSessions s) (chatMessages s) (stories s)
    (storyCharacters s) (generatedImages s).
Definition set_chatSessions (t : Table ChatSession.t) (s : Store) : Store :=
  mkStore (users s) (apiKeys s) (characters s) (scenarios s)
    (scenarioCharacters s) (scenarioInteractions s) t (chatMessages s)
    (stories s) (storyCharacters s) (generatedImages s).
Definition set_chatMessages (t : Table ChatMessage.t) (s : Store) : Store :=
  mkStore (users s) (apiKeys s) (characters s) (scenarios s)
    (scenarioCharacters s) (scenarioInteractions s) (chatSessions s) t
    (stories s) (storyCharacters s) (generatedImages s).
Definition set_stories (t : Table Story.t) (s : Store) : Store :=
  mkStore (users s) (apiKeys s) (characters s) (scenarios s)
    (scenarioCharacters s) (scenarioInteractions s) (chatSessions s)
    (chatMessages s) t (storyCharacters s) (generatedImages s).
Definition set_storyCharacters (t : Table StoryCharacter.t) (s : Store)
    : Store :=
  mkStore (users s) (apiKeys s) (characters s) (scenarios s)
    (scenarioCharacters s) (scenarioInteractions s) (chatSessions s)
    (chatMessages s) (stories s) t (generatedImages s).
Definition set_generatedImages (t : Table GeneratedImage.t) (s : Store)
    : Store :=
  mkStore (users s) (apiKeys s) (characters s) (scenarios s)
    (scenarioCharacters s) (scenarioInteractions s) (chatSessions s)
    (chatMessages s) (stories s) (storyCharacters s) t.

(** The statements a function sends, in the order it sends them. *)
Inductive TableName :=
  | T_users | T_apiKeys | T_characters | T_scenarios | T_scenarioCharacters
  | T_scenarioInteractions | T_chatSessions | T_chatMessages | T_stories
  | T_storyCharacters | T_generatedImages.

Inductive Stmt :=
  | SELECT (t : TableName)
  | INSERT (t : TableName)
  | UPSERT (t : TableName)
  | UPDATE (t : TableName)
  | DELETE (t : TableName).

(** ** The process and its collaborators *)

Record World := mkWorld {
  (** [process.env.DATABASE_URL] *)
  DATABASE_URL : option string;
  (** whether [drizzle(url)] returns a handle rather than throwing *)
  drizzleConnects : bool;
  (** [ENV.ownerOpenId] *)
  ownerOpenId : string;
  (** the store's LIKE under its collation: pattern, then subject *)
  sqlLike : string → string → bool;
  (** the wall clock, read by [new Date()] and by the store's NOW() *)
  clock : Timestamp;
  (** the module variable [_db]: a cached handle, or null *)
  _db : bool;
  store : Store;
  statements : list Stmt }.

Definition set_db (h : bool) (w : World) : World :=
  mkWorld (DATABASE_URL w) (drizzleConnects w) (ownerOpenId w) (sqlLike w)
    (clock w) h (store w) (statements w).
Definition set_clock (t : Timestamp) (w : World) : World :=
  mkWorld (DATABASE_URL w) (drizzleConnects w) (ownerOpenId w) (sqlLike w)
    t (_db w) (store w) (statements w).
(** One statement: the store after it, and its entry in the trace. *)
Definition executed (q : Stmt) (s : Store) (w : World) : World :=
  mkWorld (DATABASE_URL w) (drizzleConnects w) (ownerOpenId w) (sqlLike w)
    (clock w) (_db w) s (statements w ++ [q]).

(** ** Asynchronous functions: state and exceptions *)

Inductive Error :=
  | OpenIdRequired        (* "User openId is required for upsert" *)
  | DatabaseNotAvailable  (* "Database not available" *)
  | ScenarioNotFound      (* "Scenario not found" *)
  | NoValuesToSet         (* an UPDATE whose set has no defined value *)
  | StoreRejects.         (* the driver's promise rejects: the store refuses
                             the statement, or does not answer *)

Inductive Result (A : Type) :=
  | Ok (a : A)
  | Throw (e : Error).
Arguments Ok {A} _.
Arguments Throw {A} _.

Definition M (A : Type) : Type := World → Result A * World.

Definition ret {A} (a : A) : M A := λ w, (Ok a, w).
Definition throw {A} (e : Error) : M A := λ w, (Throw e, w).
Definition bind {A B} (m : M A) (k : A → M B) : M B :=
  λ w, match m w with
       | (Ok a, w') => k a w'
       | (Throw e, w') => (Throw e, w')
       end.

Notation "'await' x := m 'in' k" := (bind m (λ x, k))
  (at level 10, x name, m at level 100, k at level 200,
   format "'[v' 'await'  x  :=  m  'in' '/' k ']'").

(** [for (const x of xs) await body(x)] *)
Fixpoint forOf {A} (xs : list A) (body : A → M unit) : M unit :=
  match xs with
  | [] => ret ()
  | x :: xs' => await _ := body x in forOf xs' body
  end.

(** A statement that reads. *)
Definition query {A} (q : Stmt) (f : Store → A) : M A :=
  λ w, (Ok (f (store w)), executed q (store w) w).
(** A statement that writes; it may use the store's NOW(). *)
Definition exec {A} (q : Stmt) (f : Timestamp → Store → A * Store) : M A :=
  λ w, let '(a, s) := f (clock w) (store w) in (Ok a, executed q s w).

(** A statement the store refuses, or a statement sent to a store that
    does not answer: the promise rejects and the store is as it was. *)
Definition rejected {A} : M A := throw StoreRejects.

(** [new Date()] *)
Definition newDate : M Timestamp := λ w, (Ok (clock w), w).

Definition truthy (s : option string) : bool :=
  match s with
  | Some s => negb (bool_decide (s = ""))
  | None => false
  end.

Definition getDb : M bool := λ w,
  if negb (_db w) && truthy (DATABASE_URL w) then
    if drizzleConnects w then (Ok true, set_db true w)
    else (Ok false, set_db false w)
  else (Ok (_db w), w).

(** The table objects of drizzle/schema.ts: where a table lives in the
    store, and its name in the trace. *)
Record TableRef (R : Type) := mkRef {
  tableName : TableName;
  tableOf : Store → Table R;
  setTable : Table R → Store → Store }.
Arguments mkRef {R} _ _ _.
Arguments tableName {R} _.
Arguments tableOf {R} _ _.
Arguments setTable {R} _ _ _.

Module schema.
Definition users := mkRef T_users users set_users.
Definition apiKeys := mkRef T_apiKeys apiKeys set_apiKeys.
Definition characters := mkRef T_characters characters set_characters.
Definition scenarios := mkRef T_scenarios scenarios set_scenarios.
Definition scenarioCharacters :=
  mkRef T_scenarioCharacters scenarioCharacters set_scenarioCharacters.
Definition scenarioInteractions :=
  mkRef T_scenarioInteractions scenarioInteractions set_scenarioInteractions.
Definition chatSessions := mkRef T_chatSessions chatSessions set_chatSessions.
Definition chatMessages := mkRef T_chatMessages chatMessages set_chatMessages.
Definition stories := mkRef T_stories stories set_stories.
Definition storyCharacters :=
  mkRef T_storyCharacters storyCharacters set_storyCharacters.
Definition generatedImages :=
  mkRef T_generatedImages generatedImages set_generatedImages.
End schema.

Section Queries.
Context {R : Type} (tbl : TableRef R).

(** [db.select().from(tbl).where(P)], then [shape] for the selected
    columns, the ordering and the limit *)
Definition selectFrom {A} (P : R → Prop) `{!∀ r, Decision (P r)}
    (shape : list R → A) : M A :=
  query (SELECT (tableName tbl)) (λ s, shape (tbl_select P (tableOf tbl s))).

(** [db.insert(tbl).values(data)], giving [result[0].insertId] *)
Definition insertInto (mkRow : Timestamp → Z → R) : M Z :=
  exec (INSERT (tableName tbl))
    (λ now s, let '(id, t) := tbl_insert (mkRow now) (tableOf tbl s) in
              (id, setTable tbl t s)).

(** [db.update(tbl).set(data).where(P)] *)
Definition updateWhere (P : R → Prop) `{!∀ r, Decision (P r)}
    (set : Timestamp → R → R) : M unit :=
  exec (UPDATE (tableName tbl))
    (λ now s, ((), setTable tbl (tbl_update P (set now) (tableOf tbl s)) s)).

(** [db.delete(tbl).where(P)] *)
Definition deleteFrom (P : R → Prop) `{!∀ r, Decision (P r)} : M unit :=
  exec (DELETE (tableName tbl))
    (λ _ s, ((), setTable tbl (tbl_delete P (tableOf tbl s)) s)).
End Queries.

(** A column declared [onUpdateNow()]: the store stamps it when an UPDATE
    changes the row, and leaves it when every column keeps its value. *)
Definition onUpdateNow {R} `{EqDecision R} (stamp : Timestamp → R → R)
    (set : R → R) (now : Timestamp) (r : R) : R :=
  let r' := set r in if decide (r' = r) then r else stamp now r'.

(** [update().set(data)] with no defined value in [data] is refused before
    any row is touched. *)
Definition allUndefined (fields : list bool) : bool := forallb negb fields.
Definition defined {A} (o : Optional A) : bool :=
  match o with Some _ => true | None => false end.

(** ** Rows from insert values, and rows under a partial update *)

Module Rows.
Definition user (v : InsertUser.t) (now : Timestamp) (id : Z) : User.t :=
  User.mk id (InsertUser.openId v)
    (orNull (InsertUser.name v)) (orNull (InsertUser.email v))
    (orNull (InsertUser.loginMethod v))
    (orElse (InsertUser.role v) Role.user)
    now now (orElse (InsertUser.lastSignedIn v) now).

Definition apiKey (d : InsertApiKey.t) (now : Timestamp) (id : Z)
    : ApiKey.t :=
  ApiKey.mk id (InsertApiKey.userId d) (InsertApiKey.keyName d)
    (InsertApiKey.encryptedKey d) (orNull (InsertApiKey.lastUsed d)) now.

Definition character (d : InsertCharacter.t) (now : Timestamp) (id : Z)
    : Character.t :=
  Character.mk id (InsertCharacter.userId d) (InsertCharacter.name d)
    (InsertCharacter.label d)
    (orNull (InsertCharacter.promptDescription d))
    (orNull (InsertCharacter.displayDescription d))
    (orNull (InsertCharacter.imageUrl d))
    (orElse (InsertCharacter.isUserCharacter d) (Some false))
    now now.

Definition scenario (d : InsertScenario.t) (now : Timestamp) (id : Z)
    : Scenario.t :=
  Scenario.mk id (InsertScenario.userId d) (InsertScenario.title d)
    (orNull (InsertScenario.promptDescription d))
    (orNull (InsertScenario.displayDescription d))
    (orNull (InsertScenario.imageUrl d))
    (orElse (InsertScenario.isPublic d) (Some false))
    now now.

Definition scenarioCharacter (d : InsertScenarioCharacter.t)
    (now : Timestamp) (id : Z) : ScenarioCharacter.t :=
  ScenarioCharacter.mk id (InsertScenarioCharacter.scenarioId d)
    (orNull (InsertScenarioCharacter.characterId d))
    (InsertScenarioCharacter.name d) (InsertScenarioCharacter.label d)
    (orNull (InsertScenarioCharacter.promptDescription d))
    (orElse (InsertScenarioCharacter.isUserCharacter d) (Some false))
    (orElse (InsertScenarioCharacter.orderIndex d) (Some 0)).

Definition scenarioInteraction (d : InsertScenarioInteraction.t)
    (now : Timestamp) (id : Z) : ScenarioInteraction.t :=
  ScenarioInteraction.mk id (InsertScenarioInteraction.scenarioId d)
    (InsertScenarioInteraction.interactionType d)
    (orNull (InsertScenarioInteraction.characterLabel d))
    (InsertScenarioInteraction.content d)
    (orElse (InsertScenarioInteraction.isSticky d) (Some false))
    (orElse (InsertScenarioInteraction.orderIndex d) (Some 0)).

Definition chatSession (d : InsertChatSession.t) (now : Timestamp) (id : Z)
    : ChatSession.t :=
  ChatSession.mk id (InsertChatSession.userId d)
    (orNull (InsertChatSession.scenarioId d)) (InsertChatSession.title d)
    (orNull (InsertChatSession.systemPrompt d))
    (orElse (InsertChatSession.modelId d) (Some "lucid-v1-medium"))
    (orNull (InsertChatSession.samplingParams d))
    now now.

Definition chatMessage (d : InsertChatMessage.t) (now : Timestamp) (id : Z)
    : ChatMessage.t :=
  ChatMessage.mk id (InsertChatMessage.sessionId d)
    (InsertChatMessage.messageType d)
    (orNull (InsertChatMessage.characterLabel d))
    (orNull (InsertChatMessage.characterName d))
    (InsertChatMessage.content d)
    (orElse (InsertChatMessage.isSticky d) (Some false))
    now.

Definition story (d : InsertStory.t) (now : Timestamp) (id : Z) : Story.t :=
  Story.mk id (InsertStory.userId d) (InsertStory.title d)
    (orNull (InsertStory.plotDescription d))
    (orNull (InsertStory.styleDescription d))
    (orNull (InsertStory.content d))
    (orElse (InsertStory.modelId d) (Some "lucid-v1-medium"))
    (orNull (InsertStory.samplingParams d))
    now now.

Definition storyCharacter (d : InsertStoryCharacter.t) (now : Timestamp)
    (id : Z) : StoryCharacter.t :=
  StoryCharacter.mk id (InsertStoryCharacter.storyId d)
    (InsertStoryCharacter.name d)
    (orNull (InsertStoryCharacter.description d))
    (orElse (InsertStoryCharacter.orderIndex d) (Some 0)).

Definition generatedImage (d : InsertGeneratedImage.t) (now : Timestamp)
    (id : Z) : GeneratedImage.t :=
  GeneratedImage.mk id (InsertGeneratedImage.userId d)
    (InsertGeneratedImage.includePrompt d)
    (orNull (InsertGeneratedImage.excludePrompt d))
    (orElse (InsertGeneratedImage.cfgScale d) (Some 7))
    (orElse (InsertGeneratedImage.fidelity d) (Some 30))
    (orElse (InsertGeneratedImage.aspectRatio d) (Some "square"))
    (orNull (InsertGeneratedImage.style d))
    (orNull (InsertGeneratedImage.seed d))
    (orNull (InsertGeneratedImage.imageUrl d))
    now.
End Rows.

Module Set_.
Definition character (d : PartialCharacter.t) (r : Character.t)
    : Character.t :=
  Character.mk (Character.id r)
    (assign (PartialCharacter.userId d) (Character.userId r))
    (assign (PartialCharacter.name d) (Character.name r))
    (assign (PartialCharacter.label d) (Character.label r))
    (assign (PartialCharacter.promptDescription d)
            (Character.promptDescription r))
    (assign (PartialCharacter.displayDescription d)
            (Character.displayDescription r))
    (assign (PartialCharacter.imageUrl d) (Character.imageUrl r))
    (assign (PartialCharacter.isUserCharacter d)
            (Character.isUserCharacter r))
    (Character.createdAt r) (Character.updatedAt r).
Definition characterStamp (now : Timestamp) (r : Character.t)
    : Character.t :=
  Character.mk (Character.id r) (Character.userId r) (Character.name r)
    (Character.label r) (Character.promptDescription r)
    (Character.displayDescription r) (Character.imageUrl r)
    (Character.isUserCharacter r) (Character.createdAt r) now.
Definition characterEmpty (d : PartialCharacter.t) : bool :=
  allUndefined
    [defined (PartialCharacter.userId d); defined (PartialCharacter.name d);
     defined (PartialCharacter.label d);
     defined (PartialCharacter.promptDescription d);
     defined (PartialCharacter.displayDescription d);
     defined (PartialCharacter.imageUrl d);
     defined (PartialCharacter.isUserCharacter d)].

Definition scenario (d : PartialScenario.t) (r : Scenario.t) : Scenario.t :=
  Scenario.mk (Scenario.id r)
    (assign (PartialScenario.userId d) (Scenario.userId r))
    (assign (PartialScenario.title d) (Scenario.title r))
    (assign (PartialScenario.promptDescription d)
            (Scenario.promptDescription r))
    (assign (PartialScenario.displayDescription d)
            (Scenario.displayDescription r))
    (assign (PartialScenario.imageUrl d) (Scenario.imageUrl r))
    (assign (PartialScenario.isPublic d) (Scenario.isPublic r))
    (Scenario.createdAt r) (Scenario.updatedAt r).
Definition scenarioStamp (now : Timestamp) (r : Scenario.t) : Scenario.t :=
  Scenario.mk (Scenario.id r) (Scenario.userId r) (Scenario.title r)
    (Scenario.promptDescription r) (Scenario.displayDescription r)
    (Scenario.imageUrl r) (Scenario.isPublic r) (Scenario.createdAt r) now.
Definition scenarioEmpty (d : PartialScenario.t) : bool :=
  allUndefined
    [defined (PartialScenario.userId d); defined (PartialScenario.title d);
     defined (PartialScenario.promptDescription d);
     defined (PartialScenario.displayDescription d);
     defined (PartialScenario.imageUrl d);
     defined (PartialScenario.isPublic d)].

Definition scenarioInteraction (d : PartialScenarioInteraction.t)
    (r : ScenarioInteraction.t) : ScenarioInteraction.t :=
  ScenarioInteraction.mk (ScenarioInteraction.id r)
    (assign (PartialScenarioInteraction.scenarioId d)
            (ScenarioInteraction.scenarioId r))
    (assign (PartialScenarioInteraction.interactionType d)
            (ScenarioInteraction.interactionType r))
    (assign (PartialScenarioInteraction.characterLabel d)
            (ScenarioInteraction.characterLabel r))
    (assign (PartialScenarioInteraction.content d)
            (ScenarioInteraction.content r))
    (assign (PartialScenarioInteraction.isSticky d)
            (ScenarioInteraction.isSticky r))
    (assign (PartialScenarioInteraction.orderIndex d)
            (ScenarioInteraction.orderIndex r)).
Definition scenarioInteractionEmpty (d : PartialScenarioInteraction.t)
    : bool :=
  allUndefined
    [defined (PartialScenarioInteraction.scenarioId d);
     defined (PartialScenarioInteraction.interactionType d);
     defined (PartialScenarioInteraction.characterLabel d);
     defined (PartialScenarioInteraction.content d);
     defined (PartialScenarioInteraction.isSticky d);
     defined (PartialScenarioInteraction.orderIndex d)].

Definition chatSession (d : PartialChatSession.t) (r : ChatSession.t)
    : ChatSession.t :=
  ChatSession.mk (ChatSession.id r)
    (assign (PartialChatSession.userId d) (ChatSession.userId r))
    (assign (PartialChatSession.scenarioId d) (ChatSession.scenarioId r))
    (assign (PartialChatSession.title d) (ChatSession.title r))
    (assign (PartialChatSession.systemPrompt d) (ChatSession.systemPrompt r))
    (assign (PartialChatSession.modelId d) (ChatSession.modelId r))
    (assign (PartialChatSession.samplingParams d)
            (ChatSession.samplingParams r))
    (ChatSession.createdAt r) (ChatSession.updatedAt r).
Definition chatSessionStamp (now : Timestamp) (r : ChatSession.t)
    : ChatSession.t :=
  ChatSession.mk (ChatSession.id r) (ChatSession.userId r)
    (ChatSession.scenarioId r) (ChatSession.title r)
    (ChatSession.systemPrompt r) (ChatSession.modelId r)
    (ChatSession.samplingParams r) (ChatSession.createdAt r) now.
Definition chatSessionEmpty (d : PartialChatSession.t) : bool :=
  allUndefined
    [defined (PartialChatSession.userId d);
     defined (PartialChatSession.scenarioId d);
     defined (PartialChatSession.title d);
     defined (PartialChatSession.systemPrompt d);
     defined (PartialChatSession.modelId d);
     defined (PartialChatSession.samplingParams d)].

Definition story (d : PartialStory.t) (r : Story.t) : Story.t :=
  Story.mk (Story.id r)
    (assign (PartialStory.userId d) (Story.userId r))
    (assign (PartialStory.title d) (Story.title r))
    (assign (PartialStory.plotDescription d) (Story.plotDescription r))
    (assign (PartialStory.styleDescription d) (Story.styleDescription r))
    (assign (PartialStory.content d) (Story.content r))
    (assign (PartialStory.modelId d) (Story.modelId r))
    (assign (PartialStory.samplingParams d) (Story.samplingParams r))
    (Story.createdAt r) (Story.updatedAt r).
Definition storyStamp (now : Timestamp) (r : Story.t) : Story.t :=
  Story.mk (Story.id r) (Story.userId r) (Story.title r)
    (Story.plotDescription r) (Story.styleDescription r) (Story.content r)
    (Story.modelId r) (Story.samplingParams r) (Story.createdAt r) now.
Definition storyEmpty (d : PartialStory.t) : bool :=
  allUndefined
    [defined (PartialStory.userId d); defined (PartialStory.title d);
     defined (PartialStory.plotDescription d);
     defined (PartialStory.styleDescription d);
     defined (PartialStory.content d); defined (PartialStory.modelId d);
     defined (PartialStory.samplingParams d)].

Definition storyCharacter (d : PartialStoryCharacter.t)
    (r : StoryCharacter.t) : StoryCharacter.t :=
  StoryCharacter.mk (StoryCharacter.id r)
    (assign (PartialStoryCharacter.storyId d) (StoryCharacter.storyId r))
    (assign (PartialStoryCharacter.name d) (StoryCharacter.name r))
    (assign (PartialStoryCharacter.description d)
            (StoryCharacter.description r))
    (assign (PartialStoryCharacter.orderIndex d)
            (StoryCharacter.orderIndex r)).
Definition storyCharacterEmpty (d : PartialStoryCharacter.t) : bool :=
  allUndefined
    [defined (PartialStoryCharacter.storyId d);
     defined (PartialStoryCharacter.name d);
     defined (PartialStoryCharacter.description d);
     defined (PartialStoryCharacter.orderIndex d)].

(** [set({ lastUsed: new Date() })] *)
Definition apiKeyLastUsed (t : Timestamp) (r : ApiKey.t) : ApiKey.t :=
  ApiKey.mk (ApiKey.id r) (ApiKey.userId r) (ApiKey.keyName r)
    (ApiKey.encryptedKey r) (Some t) (ApiKey.createdAt r).
End Set_.

(** ** server/db.ts: users *)

(** A value of an update set ([Record<string, unknown>]). *)
Inductive SqlValue :=
  | NULL
  | Text (s : string)
  | Time (t : Timestamp)
  | RoleValue (r : Role.t).

#[global] Instance SqlValue_eq_dec : EqDecision SqlValue.
Proof. solve_decision. Defined.

Definition sqlText (v : Nullable string) : SqlValue :=
  match v with Some s => Text s | None => NULL end.

(** [value ?? fallback] on a nullable value: only null is replaced. *)
Definition nullish {A} (value fallback : Nullable A) : Nullable A :=
  match value with Some _ => value | None => fallback end.

Inductive TextField := F_name | F_email | F_loginMethod.

Definition textFields : list TextField := [F_name; F_email; F_loginMethod].

Definition fieldKey (f : TextField) : string :=
  match f with
  | F_name => "name"
  | F_email => "email"
  | F_loginMethod => "loginMethod"
  end.

(** [user[field]] *)
Definition readField (user : InsertUser.t) (f : TextField)
    : Optional (Nullable string) :=
  match f with
  | F_name => InsertUser.name user
  | F_email => InsertUser.email user
  | F_loginMethod => InsertUser.loginMethod user
  end.

(** [values[field] = v] *)
Definition writeField (f : TextField) (v : Nullable string)
    (values : InsertUser.t) : InsertUser.t :=
  match f with
  | F_name =>
      InsertUser.mk (InsertUser.openId values) (Some v)
        (InsertUser.email values) (InsertUser.loginMethod values)
        (InsertUser.role values) (InsertUser.lastSignedIn values)
  | F_email =>
      InsertUser.mk (InsertUser.openId values) (InsertUser.name values)
        (Some v) (InsertUser.loginMethod values)
        (InsertUser.role values) (InsertUser.lastSignedIn values)
  | F_loginMethod =>
      InsertUser.mk (InsertUser.openId values) (InsertUser.name values)
        (InsertUser.email values) (Some v)
        (InsertUser.role values) (InsertUser.lastSignedIn values)
  end.

Definition writeLastSignedIn (t : Timestamp) (values : InsertUser.t)
    : InsertUser.t :=
  InsertUser.mk (InsertUser.openId values) (InsertUser.name values)
    (InsertUser.email values) (InsertUser.loginMethod values)
    (InsertUser.role values) (Some t).

Definition writeRole (r : Role.t) (values : InsertUser.t) : InsertUser.t :=
  InsertUser.mk (InsertUser.openId values) (InsertUser.name values)
    (InsertUser.email values) (InsertUser.loginMethod values)
    (Some r) (InsertUser.lastSignedIn values).

(** The two objects [upsertUser] fills side by side. *)
Record Upsert := mkUpsert {
  values : InsertUser.t;
  updateSet : gmap string SqlValue }.

Definition assignNullable (user : InsertUser.t) (acc : Upsert)
    (field : TextField) : Upsert :=
  match readField user field with
  | None => acc
  | Some value =>
      let normalized := nullish value None in
      mkUpsert (writeField field normalized (values acc))
               (<[fieldKey field := sqlText normalized]> (updateSet acc))
  end.

(** The body of the [try] block of [upsertUser] up to the statement, with
    the owner identity and the reading of the clock it uses. *)
Definition buildUpsert (owner : string) (now : Timestamp)
    (user : InsertUser.t) : Upsert :=
  let acc :=
    mkUpsert (InsertUser.mk (InsertUser.openId user) None None None None None)
             ∅ in
  let acc := foldl (assignNullable user) acc textFields in
  let acc :=
    match InsertUser.lastSignedIn user with
    | Some t =>
        mkUpsert (writeLastSignedIn t (values acc))
                 (<["lastSignedIn" := Time t]> (updateSet acc))
    | None => acc
    end in
  let acc :=
    match InsertUser.role user with
    | Some r =>
        mkUpsert (writeRole r (values acc))
                 (<["role" := RoleValue r]> (updateSet acc))
    | None =>
        if bool_decide (InsertUser.openId user = owner) then
          mkUpsert (writeRole Role.admin (values acc))
                   (<["role" := RoleValue Role.admin]> (updateSet acc))
        else acc
    end in
  let acc :=
    if defined (InsertUser.lastSignedIn (values acc)) then acc
    else mkUpsert (writeLastSignedIn now (values acc)) (updateSet acc) in
  if bool_decide (size (updateSet acc) = 0%nat) then
    mkUpsert (values acc) (<["lastSignedIn" := Time now]> (updateSet acc))
  else acc.

(** [onDuplicateKeyUpdate({ set })] on the row that holds the key. *)
Definition applyUpdateSet (set : gmap string SqlValue) (r : User.t)
    : User.t :=
  let text key old :=
    match set !! key with
    | Some (Text s) => Some s
    | Some NULL => None
    | _ => old
    end in
  User.mk (User.id r) (User.openId r)
    (text "name" (User.name r)) (text "email" (User.email r))
    (text "loginMethod" (User.loginMethod r))
    (match set !! "role" with Some (RoleValue x) => x | _ => User.role r end)
    (User.createdAt r) (User.updatedAt r)
    (match set !! "lastSignedIn" with
     | Some (Time t) => t
     | _ => User.lastSignedIn r
     end).

Definition userStamp (now : Timestamp) (r : User.t) : User.t :=
  User.mk (User.id r) (User.openId r) (User.name r) (User.email r)
    (User.loginMethod r) (User.role r) (User.createdAt r) now
    (User.lastSignedIn r).

(** [insert(users).values(v).onDuplicateKeyUpdate({ set })]: [openId] is
    the unique key. *)
Definition insertOnDuplicateKeyUpdate (u : Upsert) (now : Timestamp)
    (t : Table User.t) : Table User.t :=
  let duplicate r := User.openId r = InsertUser.openId (values u) in
  match tbl_select duplicate t with
  | [] => (tbl_insert (Rows.user (values u) now) t).2
  | _ :: _ =>
      tbl_update duplicate
        (onUpdateNow userStamp (applyUpdateSet (updateSet u)) now) t
  end.

Definition upsertUser (user : InsertUser.t) : M unit :=
  if bool_decide (InsertUser.openId user = "") then throw OpenIdRequired
  else
    await db := getDb in
    if negb db then ret ()
    else
      await u := (λ w, (Ok (buildUpsert (ownerOpenId w) (clock w) user), w)) in
      exec (UPSERT T_users)
        (λ now s,
           ((), set_users (insertOnDuplicateKeyUpdate u now (users s)) s)).

Definition getUserByOpenId (openId : string) : M (option User.t) :=
  await db := getDb in
  if negb db then ret None
  else selectFrom schema.users (λ r, User.openId r = openId)
         (λ result, head (limit 1 result)).

(** ** server/db.ts: API keys *)

Definition createApiKey (data : InsertApiKey.t) : M Z :=
  await db := getDb in
  if negb db then throw DatabaseNotAvailable
  else insertInto schema.apiKeys (Rows.apiKey data).

Definition apiKeyInfo (r : ApiKey.t) : ApiKeyInfo.t :=
  ApiKeyInfo.mk (ApiKey.id r) (ApiKey.keyName r) (ApiKey.lastUsed r)
    (ApiKey.createdAt r).

Definition getApiKeysByUserId (userId : Z) : M (list ApiKeyInfo.t) :=
  await db := getDb in
  if negb db then ret []
  else selectFrom schema.apiKeys (λ r, ApiKey.userId r = userId)
         (fmap apiKeyInfo).

Definition getApiKeyById (id userId : Z) : M (option ApiKey.t) :=
  await db := getDb in
  if negb db then ret None
  else selectFrom schema.apiKeys
         (λ r, ApiKey.id r = id ∧ ApiKey.userId r = userId)
         (λ result, head (limit 1 result)).

Definition deleteApiKey (id userId : Z) : M unit :=
  await db := getDb in
  if negb db then ret ()
  else deleteFrom schema.apiKeys
         (λ r, ApiKey.id r = id ∧ ApiKey.userId r = userId).

Definition updateApiKeyLastUsed (id : Z) : M unit :=
  await db := getDb in
  if negb db then ret ()
  else
    await now := newDate in
    updateWhere schema.apiKeys (λ r, ApiKey.id r = id)
      (λ _, Set_.apiKeyLastUsed now).

(** ** server/db.ts: characters *)

Definition createCharacter (data : InsertCharacter.t) : M Z :=
  await db := getDb in
  if negb db then throw DatabaseNotAvailable
  else insertInto schema.characters (Rows.character data).

Definition getCharactersByUserId (userId : Z) : M (list Character.t) :=
  await db := getDb in
  if negb db then ret []
  else selectFrom schema.characters (λ r, Character.userId r = userId)
         (orderBy desc Character.updatedAt).

Definition getCharacterById (id userId : Z) : M (option Character.t) :=
  await db := getDb in
  if negb db then ret None
  else selectFrom schema.characters
         (λ r, Character.id r = id ∧ Character.userId r = userId)
         (λ result, head (limit 1 result)).

Definition updateCharacter (id userId : Z) (data : PartialCharacter.t)
    : M unit :=
  await db := getDb in
  if negb db then ret ()
  else if Set_.characterEmpty data then throw NoValuesToSet
  else updateWhere schema.characters
         (λ r, Character.id r = id ∧ Character.userId r = userId)
         (onUpdateNow Set_.characterStamp (Set_.character data)).

Definition deleteCharacter (id userId : Z) : M unit :=
  await db := getDb in
  if negb db then ret ()
  else deleteFrom schema.characters
         (λ r, Character.id r = id ∧ Character.userId r = userId).

(** ** server/db.ts: scenarios *)

Definition createScenario (data : InsertScenario.t) : M Z :=
  await db := getDb in
  if negb db then throw DatabaseNotAvailable
  else insertInto schema.scenarios (Rows.scenario data).

Definition getScenariosByUserId (userId : Z) : M (list Scenario.t) :=
  await db := getDb in
  if negb db then ret []
  else selectFrom schema.scenarios (λ r, Scenario.userId r = userId)
         (orderBy desc Scenario.updatedAt).

Definition getPublicScenarios (searchQuery : Optional string)
    : M (list Scenario.t) :=
  await db := getDb in
  if negb db then ret []
  else if truthy searchQuery then
    await like := (λ w, (Ok (sqlLike w), w)) in
    selectFrom schema.scenarios
      (λ r, Scenario.isPublic r = Some true
            ∧ like ("%" +:+ orElse searchQuery "" +:+ "%") (Scenario.title r)
              = true)
      (orderBy desc Scenario.createdAt)
  else
    selectFrom schema.scenarios (λ r, Scenario.isPublic r = Some true)
      (orderBy desc Scenario.createdAt).

Definition getScenarioById (id : Z) : M (option Scenario.t) :=
  await db := getDb in
  if negb db then ret None
  else selectFrom schema.scenarios (λ r, Scenario.id r = id)
         (λ result, head (limit 1 result)).

Definition updateScenario (id userId : Z) (data : PartialScenario.t)
    : M unit :=
  await db := getDb in
  if negb db then ret ()
  else if Set_.scenarioEmpty data then throw NoValuesToSet
  else updateWhere schema.scenarios
         (λ r, Scenario.id r = id ∧ Scenario.userId r = userId)
         (onUpdateNow Set_.scenarioStamp (Set_.scenario data)).

Definition deleteScenario (id userId : Z) : M unit :=
  await db := getDb in
  if negb db then ret ()
  else
    await _ := deleteFrom schema.scenarioInteractions
                 (λ r, ScenarioInteraction.scenarioId r = id) in
    await _ := deleteFrom schema.scenarioCharacters
                 (λ r, ScenarioCharacter.scenarioId r = id) in
    deleteFrom schema.scenarios
      (λ r, Scenario.id r = id ∧ Scenario.userId r = userId).

(** ** server/db.ts: scenario characters *)

Definition addScenarioCharacter (data : InsertScenarioCharacter.t) : M Z :=
  await db := getDb in
  if negb db then throw DatabaseNotAvailable
  else insertInto schema.scenarioCharacters (Rows.scenarioCharacter data).

Definition getScenarioCharacters (scenarioId : Z)
    : M (list ScenarioCharacter.t) :=
  await db := getDb in
  if negb db then ret []
  else selectFrom schema.scenarioCharacters
         (λ r, ScenarioCharacter.scenarioId r = scenarioId)
         (orderBy ascNull ScenarioCharacter.orderIndex).

Definition deleteScenarioCharacter (id : Z) : M unit :=
  await db := getDb in
  if negb db then ret ()
  else deleteFrom schema.scenarioCharacters (λ r, ScenarioCharacter.id r = id).

(** ** server/db.ts: scenario interactions *)

Definition addScenarioInteraction (data : InsertScenarioInteraction.t)
    : M Z :=
  await db := getDb in
  if negb db then throw DatabaseNotAvailable
  else insertInto schema.scenarioInteractions (Rows.scenarioInteraction data).

Definition getScenarioInteractions (scenarioId : Z)
    : M (list ScenarioInteraction.t) :=
  await db := getDb in
  if negb db then ret []
  else selectFrom schema.scenarioInteractions
         (λ r, ScenarioInteraction.scenarioId r = scenarioId)
         (orderBy ascNull ScenarioInteraction.orderIndex).

Definition updateScenarioInteraction (id : Z)
    (data : PartialScenarioInteraction.t) : M unit :=
  await db := getDb in
  if negb db then ret ()
  else if Set_.scenarioInteractionEmpty data then throw NoValuesToSet
  else updateWhere schema.scenarioInteractions
         (λ r, ScenarioInteraction.id r = id)
         (λ _, Set_.scenarioInteraction data).

Definition deleteScenarioInteraction (id : Z) : M unit :=
  await db := getDb in
  if negb db then ret ()
  else deleteFrom schema.scenarioInteractions
         (λ r, ScenarioInteraction.id r = id).

(** ** server/db.ts: chat sessions and messages *)

Definition createChatSession (data : InsertChatSession.t) : M Z :=
  await db := getDb in
  if negb db then throw DatabaseNotAvailable
  else insertInto schema.chatSessions (Rows.chatSession data).

Definition getChatSessionsByUserId (userId : Z) : M (list ChatSession.t) :=
  await db := getDb in
  if negb db then ret []
  else selectFrom schema.chatSessions (λ r, ChatSession.userId r = userId)
         (orderBy desc ChatSession.updatedAt).

Definition getChatSessionById (id userId : Z) : M (option ChatSession.t) :=
  await db := getDb in
  if negb db then ret None
  else selectFrom schema.chatSessions
         (λ r, ChatSession.id r = id ∧ ChatSession.userId r = userId)
         (λ result, head (limit 1 result)).

Definition updateChatSession (id userId : Z) (data : PartialChatSession.t)
    : M unit :=
  await db := getDb in
  if negb db then ret ()
  else if Set_.chatSessionEmpty data then throw NoValuesToSet
  else updateWhere schema.chatSessions
         (λ r, ChatSession.id r = id ∧ ChatSession.userId r = userId)
         (onUpdateNow Set_.chatSessionStamp (Set_.chatSession data)).

Definition deleteChatSession (id userId : Z) : M unit :=
  await db := getDb in
  if negb db then ret ()
  else
    await _ := deleteFrom schema.chatMessages
                 (λ r, ChatMessage.sessionId r = id) in
    deleteFrom schema.chatSessions
      (λ r, ChatSession.id r = id ∧ ChatSession.userId r = userId).

Definition addChatMessage (data : InsertChatMessage.t) : M Z :=
  await db := getDb in
  if negb db then throw DatabaseNotAvailable
  else insertInto schema.chatMessages (Rows.chatMessage data).

Definition getChatMessages (sessionId : Z) : M (list ChatMessage.t) :=
  await db := getDb in
  if negb db then ret []
  else selectFrom schema.chatMessages
         (λ r, ChatMessage.sessionId r = sessionId)
         (orderBy asc ChatMessage.createdAt).

Definition deleteChatMessage (id : Z) : M unit :=
  await db := getDb in
  if negb db then ret ()
  else deleteFrom schema.chatMessages (λ r, ChatMessage.id r = id).

(** ** server/db.ts: stories and story characters *)

Definition createStory (data : InsertStory.t) : M Z :=
  await db := getDb in
  if negb db then throw DatabaseNotAvailable
  else insertInto schema.stories (Rows.story data).

Definition getStoriesByUserId (userId : Z) : M (list Story.t) :=
  await db := getDb in
  if negb db then ret []
  else selectFrom schema.stories (λ r, Story.userId r = userId)
         (orderBy desc Story.updatedAt).

Definition getStoryById (id userId : Z) : M (option Story.t) :=
  await db := getDb in
  if negb db then ret None
  else selectFrom schema.stories
         (λ r, Story.id r = id ∧ Story.userId r = userId)
         (λ result, head (limit 1 result)).

Definition updateStory (id userId : Z) (data : PartialStory.t) : M unit :=
  await db := getDb in
  if negb db then ret ()
  else if Set_.storyEmpty data then throw NoValuesToSet
  else updateWhere schema.stories
         (λ r, Story.id r = id ∧ Story.userId r = userId)
         (onUpdateNow Set_.storyStamp (Set_.story data)).

Definition deleteStory (id userId : Z) : M unit :=
  await db := getDb in
  if negb db then ret ()
  else
    await _ := deleteFrom schema.storyCharacters
                 (λ r, StoryCharacter.storyId r = id) in
    deleteFrom schema.stories
      (λ r, Story.id r = id ∧ Story.userId r = userId).

Definition addStoryCharacter (data : InsertStoryCharacter.t) : M Z :=
  await db := getDb in
  if negb db then throw DatabaseNotAvailable
  else insertInto schema.storyCharacters (Rows.storyCharacter data).

Definition getStoryCharacters (storyId : Z) : M (list StoryCharacter.t) :=
  await db := getDb in
  if negb db then ret []
  else selectFrom schema.storyCharacters
         (λ r, StoryCharacter.storyId r = storyId)
         (orderBy ascNull StoryCharacter.orderIndex).

Definition updateStoryCharacter (id : Z) (data : PartialStoryCharacter.t)
    : M unit :=
  await db := getDb in
  if negb db then ret ()
  else if Set_.storyCharacterEmpty data then throw NoValuesToSet
  else updateWhere schema.storyCharacters (λ r, StoryCharacter.id r = id)
         (λ _, Set_.storyCharacter data).

Definition deleteStoryCharacter (id : Z) : M unit :=
  await db := getDb in
  if negb db then ret ()
  else deleteFrom schema.storyCharacters (λ r, StoryCharacter.id r = id).

(** ** server/db.ts: generated images *)

Definition createGeneratedImage (data : InsertGeneratedImage.t) : M Z :=
  await db := getDb in
  if negb db then throw DatabaseNotAvailable
  else insertInto schema.generatedImages (Rows.generatedImage data).

(** [limit = 50] is the default of the parameter.  The query builder
    writes the LIMIT clause only for a number that is [>= 0]
    ([typeof limit === "number" && limit >= 0]); the store takes a whole
    number as LIMIT and refuses any other. *)
Definition getGeneratedImagesByUserId (userId : Z) (limit_ : Optional Number)
    : M (list GeneratedImage.t) :=
  await db := getDb in
  if negb db then ret []
  else
    let n := orElse limit_ (Whole 50) in
    if geq0 n then
      match n with
      | Whole n =>
          selectFrom schema.generatedImages
            (λ r, GeneratedImage.userId r = userId)
            (λ result,
               limit (Z.to_nat n)
                     (orderBy desc GeneratedImage.createdAt result))
      | _ => rejected
      end
    else
      selectFrom schema.generatedImages
        (λ r, GeneratedImage.userId r = userId)
        (orderBy desc GeneratedImage.createdAt).

Definition deleteGeneratedImage (id userId : Z) : M unit :=
  await db := getDb in
  if negb db then ret ()
  else deleteFrom schema.generatedImages
         (λ r, GeneratedImage.id r = id ∧ GeneratedImage.userId r = userId).

(** ** A handle whose store does not answer

    [drizzle(url)] opens no connection: [getDb] hands out a handle
    whenever a connection string is set, and whether the store answers
    shows only when a statement is sent through the handle.  The functions
    above are those of a process whose store answers.  [Outage] has the
    functions of the first two entities again, word for word, over the
    statements of a process whose store may be down: [up] says whether it
    answers, and a statement sent while it is down rejects.  No function
    of [server/db.ts] but [upsertUser] has a [try], and that one throws
    what it caught, so the rejection reaches the caller. *)
Module Outage.
Section Driver.
Variable up : bool.

Definition query {A} (q : Stmt) (f : Store → A) : M A :=
  if up then query q f else rejected.
Definition exec {A} (q : Stmt) (f : Timestamp → Store → A * Store) : M A :=
  if up then exec q f else rejected.

Definition selectFrom {R A} (tbl : TableRef R) (P : R → Prop)
    `{!∀ r, Decision (P r)} (shape : list R → A) : M A :=
  query (SELECT (tableName tbl)) (λ s, shape (tbl_select P (tableOf tbl s))).
Definition insertInto {R} (tbl : TableRef R) (mkRow : Timestamp → Z → R)
    : M Z :=
  exec (INSERT (tableName tbl))
    (λ now s, let '(id, t) := tbl_insert (mkRow now) (tableOf tbl s) in
              (id, setTable tbl t s)).
Definition updateWhere {R} (tbl : TableRef R) (P : R → Prop)
    `{!∀ r, Decision (P r)} (set : Timestamp → R → R) : M unit :=
  exec (UPDATE (tableName tbl))
    (λ now s, ((), setTable tbl (tbl_update P (set now) (tableOf tbl s)) s)).
Definition deleteFrom {R} (tbl : TableRef R) (P : R → Prop)
    `{!∀ r, Decision (P r)} : M unit :=
  exec (DELETE (tableName tbl))
    (λ _ s, ((), setTable tbl (tbl_delete P (tableOf tbl s)) s)).

Definition createApiKey (data : InsertApiKey.t) : M Z :=
  await db := getDb in
  if negb db then throw DatabaseNotAvailable
  else insertInto schema.apiKeys (Rows.apiKey data).

Definition getApiKeysByUserId (userId : Z) : M (list ApiKeyInfo.t) :=
  await db := getDb in
  if negb db then ret []
  else selectFrom schema.apiKeys (λ r, ApiKey.userId r = userId)
         (fmap apiKeyInfo).

Definition createCharacter (data : InsertCharacter.t) : M Z :=
  await db := getDb in
  if negb db then throw DatabaseNotAvailable
  else insertInto schema.characters (Rows.character data).

Definition getCharactersByUserId (userId : Z) : M (list Character.t) :=
  await db := getDb in
  if negb db then ret []
  else selectFrom schema.characters (λ r, Character.userId r = userId)
         (orderBy desc Character.updatedAt).

Definition getCharacterById (id userId : Z) : M (option Character.t) :=
  await db := getDb in
  if negb db then ret None
  else selectFrom schema.characters
         (λ r, Character.id r = id ∧ Character.userId r = userId)
         (λ result, head (limit 1 result)).

Definition updateCharacter (id userId : Z) (data : PartialCharacter.t)
    : M unit :=
  await db := getDb in
  if negb db then ret ()
  else if Set_.characterEmpty data then throw NoValuesToSet
  else updateWhere schema.characters
         (λ r, Character.id r = id ∧ Character.userId r = userId)
         (onUpdateNow Set_.characterStamp (Set_.character data)).

Definition deleteCharacter (id userId : Z) : M unit :=
  await db := getDb in
  if negb db then ret ()
  else deleteFrom schema.characters
         (λ r, Character.id r = id ∧ Character.userId r = userId).
End Driver.
End Outage.

(** ** server/routers.ts: the procedures the properties are about

    A procedure takes the caller's user id ([ctx.user.id]) and its
    validated input. *)

Module appRouter.
Module scenarios.
Definition copyCharacter (newId : Z) (char : ScenarioCharacter.t)
    : InsertScenarioCharacter.t :=
  InsertScenarioCharacter.mk newId None
    (ScenarioCharacter.name char) (ScenarioCharacter.label char)
    (Some (ScenarioCharacter.promptDescription char))
    (Some (ScenarioCharacter.isUserCharacter char))
    (Some (ScenarioCharacter.orderIndex char)).

Definition copyInteraction (newId : Z) (interaction : ScenarioInteraction.t)
    : InsertScenarioInteraction.t :=
  InsertScenarioInteraction.mk newId
    (ScenarioInteraction.interactionType interaction)
    (Some (ScenarioInteraction.characterLabel interaction))
    (ScenarioInteraction.content interaction)
    (Some (ScenarioInteraction.isSticky interaction))
    (Some (ScenarioInteraction.orderIndex interaction)).

Definition copy (ctx_user_id : Z) (input_id : Z) : M Z :=
  await scenario := getScenarioById input_id in
  match scenario with
  | None => throw ScenarioNotFound
  | Some scenario =>
      await newId :=
        createScenario
          (InsertScenario.mk ctx_user_id
             (Scenario.title scenario +:+ " (Copy)")
             (Some (Scenario.promptDescription scenario))
             (Some (Scenario.displayDescription scenario))
             (Some (Scenario.imageUrl scenario))
             (Some (Some false))) in
      await characters := getScenarioCharacters input_id in
      await _ :=
        forOf characters
          (λ char,
             await _ := addScenarioCharacter (copyCharacter newId char) in
             ret ()) in
      await interactions := getScenarioInteractions input_id in
      await _ :=
        forOf interactions
          (λ interaction,
             await _ := addScenarioInteraction
                          (copyInteraction newId interaction) in
             ret ()) in
      ret newId
  end.

Definition delete (ctx_user_id : Z) (input_id : Z) : M unit :=
  deleteScenario input_id ctx_user_id.

Definition removeCharacter (ctx_user_id : Z) (input_id : Z) : M unit :=
  deleteScenarioCharacter input_id.

(** [{ ...scenario, characters, interactions }], or null *)
Definition get (ctx_user_id : Z) (input_id : Z)
    : M (option (Scenario.t * list ScenarioCharacter.t
                 * list ScenarioInteraction.t)) :=
  await scenario := getScenarioById input_id in
  match scenario with
  | None => ret None
  | Some scenario =>
      await characters := getScenarioCharacters input_id in
      await interactions := getScenarioInteractions input_id in
      ret (Some (scenario, characters, interactions))
  end.
End scenarios.

Module chat.
Definition deleteMessage (ctx_user_id : Z) (input_id : Z) : M unit :=
  deleteChatMessage input_id.

(** [{ ...session, messages }], or null *)
Definition getSession (ctx_user_id : Z) (input_id : Z)
    : M (option (ChatSession.t * list ChatMessage.t)) :=
  await session := getChatSessionById input_id ctx_user_id in
  match session with
  | None => ret None
  | Some session =>
      await messages := getChatMessages input_id in
      ret (Some (session, messages))
  end.
End chat.

Module stories.
(** [{ ...story, characters }], or null *)
Definition get (ctx_user_id : Z) (input_id : Z)
    : M (option (Story.t * list StoryCharacter.t)) :=
  await story := getStoryById input_id ctx_user_id in
  match story with
  | None => ret None
  | Some story =>
      await characters := getStoryCharacters input_id in
      ret (Some (story, characters))
  end.
End stories.

Module images.
(** [input?.limit ?? 50], the input being
    [z.object({ limit: z.number().optional() }).optional()]: any number
    but NaN *)
Definition list (ctx_user_id : Z) (input : Optional (Optional Number))
    : M (list GeneratedImage.t) :=
  getGeneratedImagesByUserId ctx_user_id
    (Some (orElse (orElse input None) (Whole 50))).
End images.
End appRouter.

(** ** Concrete worlds *)

Definition emptyTable {R} : Table R := mkTable [] 1.

Definition emptyStore : Store :=
  mkStore emptyTable emptyTable emptyTable emptyTable emptyTable emptyTable
    emptyTable emptyTable emptyTable emptyTable emptyTable.

(** LIKE under a binary collation: [%] stands for any run of characters,
    [_] for any one character, a backslash takes the next character of
    the pattern as it is, and every other character stands for itself. *)
Definition percent : Ascii.ascii := Ascii.ascii_of_nat 37.
Definition underscore : Ascii.ascii := Ascii.ascii_of_nat 95.
Definition backslash : Ascii.ascii := Ascii.ascii_of_nat 92.

Fixpoint likeBinary (pattern : string) : string → bool :=
  match pattern with
  | EmptyString => λ s, bool_decide (s = "")
  | String c p =>
      if Ascii.eqb c percent then
        fix run (s : string) : bool :=
          likeBinary p s
          || match s with
             | EmptyString => false
             | String _ s' => run s'
             end
      else if Ascii.eqb c underscore then
        λ s, match s with
             | EmptyString => false
             | String _ s' => likeBinary p s'
             end
      else
        match p with
        | String e p' =>
            if Ascii.eqb c backslash then
              λ s, match s with
                   | EmptyString => false
                   | String d s' => Ascii.eqb e d && likeBinary p' s'
                   end
            else
              λ s, match s with
                   | EmptyString => false
                   | String d s' => Ascii.eqb c d && likeBinary p s'
                   end
        | EmptyString =>
            λ s, match s with
                 | EmptyString => false
                 | String d s' => Ascii.eqb c d && likeBinary p s'
                 end
        end
  end.

(** A process with a configured store, before its first call, at time
    [t]; the store compares text under a binary collation. *)
Definition startWorld (owner : string) (t : Timestamp) : World :=
  mkWorld (Some "mysql://store") true owner likeBinary t false emptyStore [].

(** A process without a connection string. *)
Definition offlineWorld : World :=
  mkWorld None true "owner" likeBinary 0 false emptyStore [].

(** The world after a call, and what the call gave. *)
Definition after {A} (m : M A) (w : World) : World := (m w).2.
Definition outcome {A} (m : M A) (w : World) : Result A := (m w).1.

(** The store is reachable when [getDb] gives a handle, and unavailable
    when it gives null. *)
Definition connected (w : World) : Prop := outcome getDb w = Ok true.
Definition unavailable (w : World) : Prop := outcome getDb w = Ok false.

Definition available (w : World) : bool :=
  _db w || (truthy (DATABASE_URL w) && drizzleConnects w).

(** The rows of a table in a world. *)
Definition rowsOf {R} (tbl : TableRef R) (w : World) : list R :=
  rows (tableOf tbl (store w)).

(** User 1 has a public scenario with two characters (one linked to a
    library character) and an interaction, a chat session with two
    messages, a story with a character, a character, an API key and an
    image.  Everything was created at time 10. *)
Definition demoSetup : World :=
  let w := startWorld "owner" 10 in
  let w := after (createScenario
             (InsertScenario.mk 1 "Tavern" (Some (Some "an inn")) None None
                (Some (Some true)))) w in
  let w := after (addScenarioCharacter
             (InsertScenarioCharacter.mk 1 (Some (Some 7)) "Ann" "a" None None
                (Some (Some 0)))) w in
  let w := after (addScenarioCharacter
             (InsertScenarioCharacter.mk 1 None "Bob" "b" None None
                (Some (Some 2)))) w in
  let w := after (addScenarioInteraction
             (InsertScenarioInteraction.mk 1 InteractionType.text None "hi"
                None (Some (Some 0)))) w in
  let w := after (createChatSession
             (InsertChatSession.mk 1 None "Chat" None None None)) w in
  let w := after (addChatMessage
             (InsertChatMessage.mk 1 MessageType.user None None "hello"
                None)) w in
  let w := after (addChatMessage
             (InsertChatMessage.mk 1 MessageType.message None None "welcome"
                None)) w in
  let w := after (createStory
             (InsertStory.mk 1 "Saga" None None None None None)) w in
  let w := after (addStoryCharacter
             (InsertStoryCharacter.mk 1 "Hero" None None)) w in
  let w := after (createCharacter
             (InsertCharacter.mk 1 "Ann" "a" None None None None)) w in
  let w := after (createApiKey (InsertApiKey.mk 1 "main" "c1ph3r" None)) w in
  after (createGeneratedImage
           (InsertGeneratedImage.mk 1 "a cat" None None None None None None
              None)) w.

(** The world [demoSetup] builds, written out. *)
Definition demoStore : Store := Eval vm_compute in store demoSetup.
Definition demoStatements : list Stmt :=
  Eval vm_compute in statements demoSetup.
Definition demoWorld : World :=
  mkWorld (Some "mysql://store") true "owner" likeBinary 10 true
    demoStore demoStatements.

(** A table object reads and writes one place of the store. *)
Record Lawful {R} (tbl : TableRef R) : Prop := mkLawful {
  get_set : ∀ t s, tableOf tbl (setTable tbl t s) = t;
  set_set : ∀ t t' s, setTable tbl t (setTable tbl t' s) = setTable tbl t s;
  set_get : ∀ s, setTable tbl (tableOf tbl s) s = s }.
Arguments get_set {R tbl} _ _ _.
Arguments set_set {R tbl} _ _ _ _.
Arguments set_get {R tbl} _ _.

(** An API key row with its ciphertext blanked. *)
Definition redact (r : ApiKey.t) : ApiKey.t :=
  ApiKey.mk (ApiKey.id r) (ApiKey.userId r) (ApiKey.keyName r) ""
    (ApiKey.lastUsed r) (ApiKey.createdAt r).

(** [demoWorld] with another ciphertext in its API key row. *)
Definition demoWorldRekeyed : World :=
  let w := demoWorld in
  mkWorld (DATABASE_URL w) (drizzleConnects w) (ownerOpenId w) (sqlLike w)
    (clock w) (_db w)
    (set_apiKeys
       (mkTable [ApiKey.mk 1 1 "main" "0th3r" None 10] 2) (store w))
    (statements w).

(** What a partial update promises for one column: left out, the stored
    value stays; supplied, it is written, whatever it is. *)
Definition column {A} (supplied : Optional A) (before after : A) : Prop :=
  match supplied with
  | None => after = before
  | Some v => after = v
  end.

(** The row [r'] a partial update makes of a matched row [r]. *)
Module Updated.
Definition character (d : PartialCharacter.t) (now : Timestamp)
    (r r' : Character.t) : Prop :=
  Character.id r' = Character.id r
  ∧ column (PartialCharacter.userId d) (Character.userId r)
      (Character.userId r')
  ∧ column (PartialCharacter.name d) (Character.name r) (Character.name r')
  ∧ column (PartialCharacter.label d) (Character.label r)
      (Character.label r')
  ∧ column (PartialCharacter.promptDescription d)
      (Character.promptDescription r) (Character.promptDescription r')
  ∧ column (PartialCharacter.displayDescription d)
      (Character.displayDescription r) (Character.displayDescription r')
  ∧ column (PartialCharacter.imageUrl d) (Character.imageUrl r)
      (Character.imageUrl r')
  ∧ column (PartialCharacter.isUserCharacter d)
      (Character.isUserCharacter r) (Character.isUserCharacter r')
  ∧ Character.createdAt r' = Character.createdAt r
  ∧ (r' = r
     ∨ Set_.characterStamp (Character.updatedAt r) r' ≠ r
       ∧ Character.updatedAt r' = now).

Definition scenario (d : PartialScenario.t) (now : Timestamp)
    (r r' : Scenario.t) : Prop :=
  Scenario.id r' = Scenario.id r
  ∧ column (PartialScenario.userId d) (Scenario.userId r)
      (Scenario.userId r')
  ∧ column (PartialScenario.title d) (Scenario.title r) (Scenario.title r')
  ∧ column (PartialScenario.promptDescription d)
      (Scenario.promptDescription r) (Scenario.promptDescription r')
  ∧ column (PartialScenario.displayDescription d)
      (Scenario.displayDescription r) (Scenario.displayDescription r')
  ∧ column (PartialScenario.imageUrl d) (Scenario.imageUrl r)
      (Scenario.imageUrl r')
  ∧ column (PartialScenario.isPublic d) (Scenario.isPublic r)
      (Scenario.isPublic r')
  ∧ Scenario.createdAt r' = Scenario.createdAt r
  ∧ (r' = r
     ∨ Set_.scenarioStamp (Scenario.updatedAt r) r' ≠ r
       ∧ Scenario.updatedAt r' = now).

Definition scenarioInteraction (d : PartialScenarioInteraction.t)
    (r r' : ScenarioInteraction.t) : Prop :=
  ScenarioInteraction.id r' = ScenarioInteraction.id r
  ∧ column (PartialScenarioInteraction.scenarioId d)
      (ScenarioInteraction.scenarioId r) (ScenarioInteraction.scenarioId r')
  ∧ column (PartialScenarioInteraction.interactionType d)
      (ScenarioInteraction.interactionType r)
      (ScenarioInteraction.interactionType r')
  ∧ column (PartialScenarioInteraction.characterLabel d)
      (ScenarioInteraction.characterLabel r)
      (ScenarioInteraction.characterLabel r')
  ∧ column (PartialScenarioInteraction.content d)
      (ScenarioInteraction.content r) (ScenarioInteraction.content r')
  ∧ column (PartialScenarioInteraction.isSticky d)
      (ScenarioInteraction.isSticky r) (ScenarioInteraction.isSticky r')
  ∧ column (PartialScenarioInteraction.orderIndex d)
      (ScenarioInteraction.orderIndex r) (ScenarioInteraction.orderIndex r').

Definition chatSession (d : PartialChatSession.t) (now : Timestamp)
    (r r' : ChatSession.t) : Prop :=
  ChatSession.id r' = ChatSession.id r
  ∧ column (PartialChatSession.userId d) (ChatSession.userId r)
      (ChatSession.userId r')
  ∧ column (PartialChatSession.scenarioId d) (ChatSession.scenarioId r)
      (ChatSession.scenarioId r')
  ∧ column (PartialChatSession.title d) (ChatSession.title r)
      (ChatSession.title r')
  ∧ column (PartialChatSession.systemPrompt d) (ChatSession.systemPrompt r)
      (ChatSession.systemPrompt r')
  ∧ column (PartialChatSession.modelId d) (ChatSession.modelId r)
      (ChatSession.modelId r')
  ∧ column (PartialChatSession.samplingParams d)
      (ChatSession.samplingParams r) (ChatSession.samplingParams r')
  ∧ ChatSession.createdAt r' = ChatSession.createdAt r
  ∧ (r' = r
     ∨ Set_.chatSessionStamp (ChatSession.updatedAt r) r' ≠ r
       ∧ ChatSession.updatedAt r' = now).

Definition story (d : PartialStory.t) (now : Timestamp) (r r' : Story.t)
    : Prop :=
  Story.id r' = Story.id r
  ∧ column (PartialStory.userId d) (Story.userId r) (Story.userId r')
  ∧ column (PartialStory.title d) (Story.title r) (Story.title r')
  ∧ column (PartialStory.plotDescription d) (Story.plotDescription r)
      (Story.plotDescription r')
  ∧ column (PartialStory.styleDescription d) (Story.styleDescription r)
      (Story.styleDescription r')
  ∧ column (PartialStory.content d) (Story.content r) (Story.content r')
  ∧ column (PartialStory.modelId d) (Story.modelId r) (Story.modelId r')
  ∧ column (PartialStory.samplingParams d) (Story.samplingParams r)
      (Story.samplingParams r')
  ∧ Story.createdAt r' = Story.createdAt r
  ∧ (r' = r
     ∨ Set_.storyStamp (Story.updatedAt r) r' ≠ r
       ∧ Story.updatedAt r' = now).

Definition storyCharacter (d : PartialStoryCharacter.t)
    (r r' : StoryCharacter.t) : Prop :=
  StoryCharacter.id r' = StoryCharacter.id r
  ∧ column (PartialStoryCharacter.storyId d) (StoryCharacter.storyId r)
      (StoryCharacter.storyId r')
  ∧ column (PartialStoryCharacter.name d) (StoryCharacter.name r)
      (StoryCharacter.name r')
  ∧ column (PartialStoryCharacter.description d)
      (StoryCharacter.description r) (StoryCharacter.description r')
  ∧ column (PartialStoryCharacter.orderIndex d)
      (StoryCharacter.orderIndex r) (StoryCharacter.orderIndex r').
End Updated.

(** What an UPDATE on [tbl] leaves behind: a row the condition matched is
    related to the row in its place by [upd], any other row is kept as it
    is, and every other table is as before. *)
Definition partialUpdate {R} (tbl : TableRef R) (matched : R → Prop)
    `{!∀ r, Decision (matched r)} (upd : R → R → Prop) (w w' : World)
    : Prop :=
  Forall2 (λ r r', if decide (matched r) then upd r r' else r' = r)
    (rowsOf tbl w) (rowsOf tbl w')
  ∧ store w' = setTable tbl (tableOf tbl (store w')) (store w).

(** The scenario row of [demoWorld]. *)
Definition demoScenario : Scenario.t :=
  Scenario.mk 1 1 "Tavern" (Some "an inn") None None (Some true) 10 10.

(** Ten time units later. *)
Definition demoLater : World := set_clock 20 demoWorld.

(** An update of the scenario title to the empty string, and a rename of
    a character. *)
Definition retitle : PartialScenario.t :=
  PartialScenario.mk None (Some "") None None None None.
Definition rename : PartialCharacter.t :=
  PartialCharacter.mk None (Some "Anna") None None None None None.

(** [l] lists the rows [src] in the order [le] on [key]: the same rows,
    sorted.  Nothing is said of the order among rows of equal key. *)
Definition listedBy {R K} (le : K → K → bool) (key : R → K)
    (src l : list R) : Prop :=
  StronglySorted (λ a b, le (key a) (key b) = true) l ∧ l ≡ₚ src.


(** The rows a list function gave, if it gave any. *)
Definition outcome_rows {A} (m : M (list A)) (w : World) : option (list A) :=
  match outcome m w with Ok l => Some l | Throw _ => None end.

(** An identity that carries nothing but its [openId]. *)
Definition identity (openId : string) : InsertUser.t :=
  InsertUser.mk openId None None None None None.

(** No property other than [openId] is supplied. *)
Definition onlyOpenId (user : InsertUser.t) : bool :=
  negb (defined (InsertUser.name user))
  && negb (defined (InsertUser.email user))
  && negb (defined (InsertUser.loginMethod user))
  && negb (defined (InsertUser.role user))
  && negb (defined (InsertUser.lastSignedIn user)).

(** User "x", known as "Al" since time 5, logs in at time 9 with an empty
    name. *)
Definition alWorld : World :=
  set_clock 9
    (after
       (upsertUser (InsertUser.mk "x" (Some (Some "Al")) None None None None))
       (startWorld "owner" 5)).
Definition emptyName : InsertUser.t :=
  InsertUser.mk "x" (Some (Some "")) None None None None.

(** Every id in a table is below the table's next auto-increment value,
    as the store guarantees for the ids it has assigned. *)
Definition keysBelow {R} (rid : R → Z) (t : Table R) : bool :=
  forallb (λ r, rid r <? autoIncrement t) (rows t).

Definition wellKeyed (s : Store) : bool :=
  keysBelow User.id (users s)
  && keysBelow ApiKey.id (apiKeys s)
  && keysBelow Character.id (characters s)
  && keysBelow Scenario.id (scenarios s)
  && keysBelow ScenarioCharacter.id (scenarioCharacters s)
  && keysBelow ScenarioInteraction.id (scenarioInteractions s)
  && keysBelow ChatSession.id (chatSessions s)
  && keysBelow ChatMessage.id (chatMessages s)
  && keysBelow Story.id (stories s)
  && keysBelow StoryCharacter.id (storyCharacters s)
  && keysBelow GeneratedImage.id (generatedImages s).

(** A second character of user 1. *)
Definition newCharacter : InsertCharacter.t :=
  InsertCharacter.mk 1 "Cy" "c" None None None None.

(** A function keeps the ids of the store below its counters. *)
Definition keepsKeys {A} (m : M A) : Prop :=
  ∀ w, wellKeyed (store w) = true → wellKeyed (store (after m w)) = true.

(** A table object whose table is one of those [wellKeyed] speaks of,
    with [rid] the id of its rows. *)
Record Keyed {R} (tbl : TableRef R) (rid : R → Z) : Prop := mkKeyed {
  keyed_get :
    ∀ s, wellKeyed s = true → keysBelow rid (tableOf tbl s) = true;
  keyed_set : ∀ s t, wellKeyed s = true → keysBelow rid t = true →
                     wellKeyed (setTable tbl t s) = true }.
Arguments keyed_get {R tbl rid} _ _ _.
Arguments keyed_set {R tbl rid} _ _ _ _ _.

(** The scenario of the specification's example: one character labelled
    "a" and one text interaction "hi", both at [orderIndex] 0. *)
Definition exampleWorld : World :=
  let w := startWorld "owner" 10 in
  let w := after (createScenario
             (InsertScenario.mk 1 "Tavern" None None None None)) w in
  let w := after (addScenarioCharacter
             (InsertScenarioCharacter.mk 1 None "Ann" "a" None None
                (Some (Some 0)))) w in
  after (addScenarioInteraction
           (InsertScenarioInteraction.mk 1 InteractionType.text None "hi"
              None (Some (Some 0)))) w.

(** The environment of the process changed from outside: another
    connection string, and whether [drizzle] would now connect. *)
Definition set_env (url : option string) (connects : bool) (w : World)
    : World :=
  mkWorld url connects (ownerOpenId w) (sqlLike w) (clock w) (_db w)
    (store w) (statements w).

(** What a call finds around it: the environment, the owner identity,
    the collation and the clock. *)
Definition surroundings (w : World)
    : option string * bool * string * (string → string → bool) * Timestamp :=
  (DATABASE_URL w, drizzleConnects w, ownerOpenId w, sqlLike w, clock w).

(** A function leaves the surroundings alone, and keeps a cached
    handle. *)
Definition keepsSurroundings {A} (m : M A) : Prop :=
  ∀ w, surroundings (after m w) = surroundings w
       ∧ (_db w = true → _db (after m w) = true).

(** A hand-over of a character to user 2. *)
Definition handOver : PartialCharacter.t :=
  PartialCharacter.mk (Some 2) None None None None None None.

(** The character row of [demoWorld]. *)
Definition demoCharacter : Character.t :=
  Character.mk 1 1 "Ann" "a" None None None (Some false) 10 10.

(** A login that carries a name and a login method for identity "x". *)
Definition alLogin : InsertUser.t :=
  InsertUser.mk "x" (Some (Some "Alan")) None (Some None) None None.


(** A third character for scenario 1 of [demoWorld], of index 1. *)
Definition newScenarioCharacter : InsertScenarioCharacter.t :=
  InsertScenarioCharacter.mk 1 None "Cy" "c" None None (Some (Some 1)).

(** Three images of user 1, made at times 1, 2 and 3, and one of user 2
    made at time 4. *)
Definition image (userId : Z) (prompt : string) : InsertGeneratedImage.t :=
  InsertGeneratedImage.mk userId prompt None None None None None None None.
Definition galleryWorld : World :=
  let w := startWorld "owner" 1 in
  let w := after (createGeneratedImage (image 1 "one")) w in
  let w := after (createGeneratedImage (image 1 "two")) (set_clock 2 w) in
  let w := after (createGeneratedImage (image 1 "three")) (set_clock 3 w) in
  after (createGeneratedImage (image 2 "four")) (set_clock 4 w).

(** The children of the scenario of [demoWorld], as they are listed. *)
Definition demoCharacters : list ScenarioCharacter.t :=
  [ScenarioCharacter.mk 1 1 (Some 7) "Ann" "a" None (Some false) (Some 0);
   ScenarioCharacter.mk 2 1 None "Bob" "b" None (Some false) (Some 2)].
Definition demoInteractions : list ScenarioInteraction.t :=
  [ScenarioInteraction.mk 1 1 InteractionType.text None "hi" (Some false)
     (Some 0)].

(** * Properties *)

(** ** The connection provider *)

Lemma set_db_same w : set_db (_db w) w = w.
Proof. by destruct w. Qed.

Lemma getDb_spec w : getDb w = (Ok (available w), set_db (available w) w).
Proof.
  unfold getDb, available.
  destruct (_db w) eqn:Hdb; simpl.
  - by rewrite <- Hdb, set_db_same.
  - destruct (truthy (DATABASE_URL w)); simpl.
    + by destruct (drizzleConnects w).
    + by rewrite <- Hdb, set_db_same.
Qed.

Lemma connected_available w : connected w ↔ available w = true.
Proof.
  unfold connected, outcome. rewrite getDb_spec. simpl.
  split; [by intros [= ->] | by intros ->].
Qed.

Lemma unavailable_available w : unavailable w ↔ available w = false.
Proof.
  unfold unavailable, outcome. rewrite getDb_spec. simpl.
  split; [by intros [= ->] | by intros ->].
Qed.

Lemma unavailable_no_handle w : unavailable w → _db w = false.
Proof.
  rewrite unavailable_available. unfold available.
  by destruct (_db w).
Qed.

(** Every repository function starts with [const db = await getDb()] and
    branches on [!db]. *)
Lemma with_db {A} (off on : M A) w :
  bind getDb (λ db, if negb db then off else on) w
  = if available w then on (set_db true w) else off (set_db false w).
Proof. unfold bind. rewrite getDb_spec. by destruct (available w). Qed.

Lemma with_db_off {A} (off on : M A) w :
  unavailable w →
  bind getDb (λ db, if negb db then off else on) w = off w.
Proof.
  intros Hoff. rewrite with_db.
  rewrite (proj1 (unavailable_available w) Hoff).
  by rewrite <- (unavailable_no_handle w Hoff), set_db_same.
Qed.

Lemma with_db_on {A} (off on : M A) w :
  connected w →
  bind getDb (λ db, if negb db then off else on) w = on (set_db true w).
Proof.
  intros Hon. rewrite with_db.
  by rewrite (proj1 (connected_available w) Hon).
Qed.

Lemma connected_set_db w : connected (set_db true w).
Proof. by apply connected_available. Qed.

Lemma connected_executed q s w : _db w = true → connected (executed q s w).
Proof.
  intros H. apply connected_available. unfold available. simpl.
  by rewrite H.
Qed.

(** ** Unavailable store (C6) *)

Ltac store_off f := intros; unfold f; by rewrite with_db_off.

(** C6: when [getDb] gives no handle, every list function returns the
    empty list, every get function returns nothing, every create function
    throws "Database not available", and every update and delete function
    returns without a statement; the process is left as it was. *)
Theorem unavailable_store_outcomes (w : World) :
  unavailable w →
  (∀ userId, getApiKeysByUserId userId w = (Ok [], w))
  ∧ (∀ userId, getCharactersByUserId userId w = (Ok [], w))
  ∧ (∀ userId, getScenariosByUserId userId w = (Ok [], w))
  ∧ (∀ searchQuery, getPublicScenarios searchQuery w = (Ok [], w))
  ∧ (∀ scenarioId, getScenarioCharacters scenarioId w = (Ok [], w))
  ∧ (∀ scenarioId, getScenarioInteractions scenarioId w = (Ok [], w))
  ∧ (∀ userId, getChatSessionsByUserId userId w = (Ok [], w))
  ∧ (∀ sessionId, getChatMessages sessionId w = (Ok [], w))
  ∧ (∀ userId, getStoriesByUserId userId w = (Ok [], w))
  ∧ (∀ storyId, getStoryCharacters storyId w = (Ok [], w))
  ∧ (∀ userId n, getGeneratedImagesByUserId userId n w = (Ok [], w))
  ∧ (∀ openId, getUserByOpenId openId w = (Ok None, w))
  ∧ (∀ id userId, getApiKeyById id userId w = (Ok None, w))
  ∧ (∀ id userId, getCharacterById id userId w = (Ok None, w))
  ∧ (∀ id, getScenarioById id w = (Ok None, w))
  ∧ (∀ id userId, getChatSessionById id userId w = (Ok None, w))
  ∧ (∀ id userId, getStoryById id userId w = (Ok None, w))
  ∧ (∀ data, createApiKey data w = (Throw DatabaseNotAvailable, w))
  ∧ (∀ data, createCharacter data w = (Throw DatabaseNotAvailable, w))
  ∧ (∀ data, createScenario data w = (Throw DatabaseNotAvailable, w))
  ∧ (∀ data, addScenarioCharacter data w = (Throw DatabaseNotAvailable, w))
  ∧ (∀ data,
       addScenarioInteraction data w = (Throw DatabaseNotAvailable, w))
  ∧ (∀ data, createChatSession data w = (Throw DatabaseNotAvailable, w))
  ∧ (∀ data, addChatMessage data w = (Throw DatabaseNotAvailable, w))
  ∧ (∀ data, createStory data w = (Throw DatabaseNotAvailable, w))
  ∧ (∀ data, addStoryCharacter data w = (Throw DatabaseNotAvailable, w))
  ∧ (∀ data, createGeneratedImage data w = (Throw DatabaseNotAvailable, w))
  ∧ (∀ id, updateApiKeyLastUsed id w = (Ok (), w))
  ∧ (∀ id userId data, updateCharacter id userId data w = (Ok (), w))
  ∧ (∀ id userId data, updateScenario id userId data w = (Ok (), w))
  ∧ (∀ id data, updateScenarioInteraction id data w = (Ok (), w))
  ∧ (∀ id userId data, updateChatSession id userId data w = (Ok (), w))
  ∧ (∀ id userId data, updateStory id userId data w = (Ok (), w))
  ∧ (∀ id data, updateStoryCharacter id data w = (Ok (), w))
  ∧ (∀ id userId, deleteApiKey id userId w = (Ok (), w))
  ∧ (∀ id userId, deleteCharacter id userId w = (Ok (), w))
  ∧ (∀ id userId, deleteScenario id userId w = (Ok (), w))
  ∧ (∀ id, deleteScenarioCharacter id w = (Ok (), w))
  ∧ (∀ id, deleteScenarioInteraction id w = (Ok (), w))
  ∧ (∀ id userId, deleteChatSession id userId w = (Ok (), w))
  ∧ (∀ id, deleteChatMessage id w = (Ok (), w))
  ∧ (∀ id userId, deleteStory id userId w = (Ok (), w))
  ∧ (∀ id, deleteStoryCharacter id w = (Ok (), w))
  ∧ (∀ id userId, deleteGeneratedImage id userId w = (Ok (), w)).
Proof.
  intros Hoff.
  repeat split;
    [ store_off getApiKeysByUserId | store_off getCharactersByUserId
    | store_off getScenariosByUserId | store_off getPublicScenarios
    | store_off getScenarioCharacters | store_off getScenarioInteractions
    | store_off getChatSessionsByUserId | store_off getChatMessages
    | store_off getStoriesByUserId | store_off getStoryCharacters
    | store_off getGeneratedImagesByUserId | store_off getUserByOpenId
    | store_off getApiKeyById | store_off getCharacterById
    | store_off getScenarioById | store_off getChatSessionById
    | store_off getStoryById | store_off createApiKey
    | store_off createCharacter | store_off createScenario
    | store_off addScenarioCharacter | store_off addScenarioInteraction
    | store_off createChatSession | store_off addChatMessage
    | store_off createStory | store_off addStoryCharacter
    | store_off createGeneratedImage | store_off updateApiKeyLastUsed
    | store_off updateCharacter | store_off updateScenario
    | store_off updateScenarioInteraction | store_off updateChatSession
    | store_off updateStory | store_off updateStoryCharacter
    | store_off deleteApiKey | store_off deleteCharacter
    | store_off deleteScenario | store_off deleteScenarioCharacter
    | store_off deleteScenarioInteraction | store_off deleteChatSession
    | store_off deleteChatMessage | store_off deleteStory
    | store_off deleteStoryCharacter | store_off deleteGeneratedImage ].
Qed.


(** ** Facts about statements *)

Section TableFacts.
Context {R : Type}.
Implicit Types (P : R → Prop) (t : Table R) (l : list R).

Lemma filter_none P `{!∀ r, Decision (P r)} l :
  filter P l = [] ↔ Forall (λ r, ¬ P r) l.
Proof.
  induction l as [|x l IH]; [done|].
  rewrite filter_cons, Forall_cons. destruct (decide (P x)) as [HP|HP].
  - split; [done | by intros [? _]].
  - rewrite IH. split; [by split | by intros [_ ?]].
Qed.

Lemma filter_all P `{!∀ r, Decision (P r)} l :
  Forall P l → filter P l = l.
Proof.
  induction 1 as [|x l Hx _ IH]; [done|].
  by rewrite filter_cons_True, IH.
Qed.

Lemma tbl_select_delete P `{!∀ r, Decision (P r)} t :
  tbl_select P (tbl_delete P t) = [].
Proof.
  unfold tbl_select, tbl_delete; simpl.
  apply filter_none, Forall_forall. intros r Hr.
  by apply list_elem_of_filter in Hr as [? _].
Qed.

Lemma tbl_delete_none P `{!∀ r, Decision (P r)} t :
  tbl_select P t = [] → tbl_delete P t = t.
Proof.
  unfold tbl_select, tbl_delete. intros Hnone%filter_none.
  destruct t as [l n]; simpl in *. f_equal. by apply filter_all.
Qed.

Lemma tbl_update_none P `{!∀ r, Decision (P r)} (f : R → R) t :
  tbl_select P t = [] → tbl_update P f t = t.
Proof.
  unfold tbl_select, tbl_update. intros Hnone%filter_none.
  destruct t as [l n]; simpl in *. f_equal.
  induction Hnone as [|x l Hx _ IH]; [done|].
  rewrite fmap_cons, IH. by rewrite decide_False.
Qed.
End TableFacts.

(** ** Cascading deletes (C3, C9) *)

Ltac store_on f :=
  unfold f, after, outcome; rewrite with_db_on by done;
  unfold bind, deleteFrom, updateWhere, insertInto, selectFrom, exec, query;
  simpl.

(** C3: a delete of a scenario, chat session or story sends the deletes of
    its child tables first and the delete of the parent last.  When it has
    returned, each child table is the table before without the rows of
    that parent id, the parent table is the table before without the
    caller's row of that id, and every other table is as it was; so no
    child row of that parent id is left. *)
Theorem cascade_delete_complete (w : World) (id userId : Z) :
  connected w →
  (let w' := after (deleteScenario id userId) w in
   outcome (deleteScenario id userId) w = Ok ()
   ∧ statements w' = (statements w ++
       [DELETE T_scenarioInteractions; DELETE T_scenarioCharacters;
        DELETE T_scenarios])%list
   ∧ store w'
     = set_scenarios
         (mkTable
            (filter (λ r, ¬ (Scenario.id r = id ∧ Scenario.userId r = userId))
               (rowsOf schema.scenarios w))
            (autoIncrement (scenarios (store w))))
         (set_scenarioCharacters
            (mkTable
               (filter (λ r, ScenarioCharacter.scenarioId r ≠ id)
                  (rowsOf schema.scenarioCharacters w))
               (autoIncrement (scenarioCharacters (store w))))
            (set_scenarioInteractions
               (mkTable
                  (filter (λ r, ScenarioInteraction.scenarioId r ≠ id)
                     (rowsOf schema.scenarioInteractions w))
                  (autoIncrement (scenarioInteractions (store w))))
               (store w)))
   ∧ filter (λ r, ScenarioInteraction.scenarioId r = id)
       (rowsOf schema.scenarioInteractions w') = []
   ∧ filter (λ r, ScenarioCharacter.scenarioId r = id)
       (rowsOf schema.scenarioCharacters w') = []
   ∧ filter (λ r, Scenario.id r = id ∧ Scenario.userId r = userId)
       (rowsOf schema.scenarios w') = [])
  ∧ (let w' := after (deleteChatSession id userId) w in
     outcome (deleteChatSession id userId) w = Ok ()
     ∧ statements w' = (statements w ++
         [DELETE T_chatMessages; DELETE T_chatSessions])%list
     ∧ store w'
       = set_chatSessions
           (mkTable
              (filter (λ r, ¬ (ChatSession.id r = id
                               ∧ ChatSession.userId r = userId))
                 (rowsOf schema.chatSessions w))
              (autoIncrement (chatSessions (store w))))
           (set_chatMessages
              (mkTable
                 (filter (λ r, ChatMessage.sessionId r ≠ id)
                    (rowsOf schema.chatMessages w))
                 (autoIncrement (chatMessages (store w))))
              (store w))
     ∧ filter (λ r, ChatMessage.sessionId r = id)
         (rowsOf schema.chatMessages w') = []
     ∧ filter (λ r, ChatSession.id r = id ∧ ChatSession.userId r = userId)
         (rowsOf schema.chatSessions w') = [])
  ∧ (let w' := after (deleteStory id userId) w in
     outcome (deleteStory id userId) w = Ok ()
     ∧ statements w' = (statements w ++
         [DELETE T_storyCharacters; DELETE T_stories])%list
     ∧ store w'
       = set_stories
           (mkTable
              (filter (λ r, ¬ (Story.id r = id ∧ Story.userId r = userId))
                 (rowsOf schema.stories w))
              (autoIncrement (stories (store w))))
           (set_storyCharacters
              (mkTable
                 (filter (λ r, StoryCharacter.storyId r ≠ id)
                    (rowsOf schema.storyCharacters w))
                 (autoIncrement (storyCharacters (store w))))
              (store w))
     ∧ filter (λ r, StoryCharacter.storyId r = id)
         (rowsOf schema.storyCharacters w') = []
     ∧ filter (λ r, Story.id r = id ∧ Story.userId r = userId)
         (rowsOf schema.stories w') = []).
Proof.
  intros Hon. unfold rowsOf. repeat split.
  all: try (store_on deleteScenario); try (store_on deleteChatSession);
    try (store_on deleteStory).
  all: try done.
  all: try (by rewrite <- !(assoc_L (++))).
  all: try (apply (tbl_select_delete _ _)).
Qed.

Lemma cascade_delete_complete_witness :
  connected demoWorld
  ∧ statements (after (deleteScenario 1 1) demoWorld)
    = (statements demoWorld ++
        [DELETE T_scenarioInteractions; DELETE T_scenarioCharacters;
         DELETE T_scenarios])%list
  ∧ length (rowsOf schema.scenarioCharacters demoWorld) = 2%nat
  ∧ rowsOf schema.scenarioCharacters (after (deleteScenario 1 1) demoWorld)
    = []
  ∧ rowsOf schema.chatMessages (after (deleteScenario 1 1) demoWorld)
    = rowsOf schema.chatMessages demoWorld.
Proof.
  split; [reflexivity|].
  destruct (cascade_delete_complete demoWorld 1 1 eq_refl)
    as [(_ & Hlog & Hstore & _) _].
  split; [exact Hlog|]. split; [reflexivity|].
  unfold rowsOf. rewrite Hstore. split; reflexivity.
Defined.

Lemma unavailable_store_outcomes_witness :
  unavailable offlineWorld
  ∧ ∀ userId,
      getApiKeysByUserId userId offlineWorld = (Ok [], offlineWorld).
Proof.
  split; [reflexivity|].
  exact (proj1 (unavailable_store_outcomes offlineWorld eq_refl)).
Defined.

(** The functions of [Outage] over a store that answers are the
    functions of the repository. *)
Lemma outage_up :
  (∀ data, Outage.createApiKey true data = createApiKey data)
  ∧ (∀ userId, Outage.getApiKeysByUserId true userId
               = getApiKeysByUserId userId)
  ∧ (∀ data, Outage.createCharacter true data = createCharacter data)
  ∧ (∀ userId, Outage.getCharactersByUserId true userId
               = getCharactersByUserId userId)
  ∧ (∀ id userId, Outage.getCharacterById true id userId
                  = getCharacterById id userId)
  ∧ (∀ id userId data, Outage.updateCharacter true id userId data
                       = updateCharacter id userId data)
  ∧ (∀ id userId, Outage.deleteCharacter true id userId
                  = deleteCharacter id userId).
Proof. by repeat split. Qed.

(** A process with a connection string whose store is down: [getDb]
    gives a handle, and the list, the get, the update and the delete
    reject instead of giving the empty list, nothing, or returning; the
    create rejects with the driver's error. *)
Lemma store_down_rejects :
  let w := startWorld "owner" 0 in
  outcome getDb w = Ok true
  ∧ outcome (Outage.getCharactersByUserId false 1) w = Throw StoreRejects
  ∧ outcome (Outage.getApiKeysByUserId false 1) w = Throw StoreRejects
  ∧ outcome (Outage.getCharacterById false 1 1) w = Throw StoreRejects
  ∧ outcome (Outage.updateCharacter false 1 1 rename) w = Throw StoreRejects
  ∧ outcome (Outage.deleteCharacter false 1 1) w = Throw StoreRejects
  ∧ outcome (Outage.createApiKey false (InsertApiKey.mk 1 "main" "c1ph3r" None))
      w = Throw StoreRejects.
Proof. by vm_compute. Qed.

(** C9: the child deletes of [deleteScenario], [deleteChatSession] and
    [deleteStory] select on the parent id alone.  Called with a user id
    that owns no parent row of that id, each leaves the parent table as it
    was and still removes every child row that references the id, and only
    those. *)
Theorem cascade_ignores_owner (w : World) (id userId : Z) :
  connected w →
  (filter (λ r, Scenario.id r = id ∧ Scenario.userId r = userId)
     (rowsOf schema.scenarios w) = [] →
   let w' := after (deleteScenario id userId) w in
   scenarios (store w') = scenarios (store w)
   ∧ rowsOf schema.scenarioCharacters w'
     = filter (λ r, ScenarioCharacter.scenarioId r ≠ id)
         (rowsOf schema.scenarioCharacters w)
   ∧ rowsOf schema.scenarioInteractions w'
     = filter (λ r, ScenarioInteraction.scenarioId r ≠ id)
         (rowsOf schema.scenarioInteractions w))
  ∧ (filter (λ r, ChatSession.id r = id ∧ ChatSession.userId r = userId)
       (rowsOf schema.chatSessions w) = [] →
     let w' := after (deleteChatSession id userId) w in
     chatSessions (store w') = chatSessions (store w)
     ∧ rowsOf schema.chatMessages w'
       = filter (λ r, ChatMessage.sessionId r ≠ id)
           (rowsOf schema.chatMessages w))
  ∧ (filter (λ r, Story.id r = id ∧ Story.userId r = userId)
       (rowsOf schema.stories w) = [] →
     let w' := after (deleteStory id userId) w in
     stories (store w') = stories (store w)
     ∧ rowsOf schema.storyCharacters w'
       = filter (λ r, StoryCharacter.storyId r ≠ id)
           (rowsOf schema.storyCharacters w)).
Proof.
  intros Hon. unfold rowsOf. repeat split.
  all: try (store_on deleteScenario); try (store_on deleteChatSession);
    try (store_on deleteStory).
  all: try reflexivity.
  all: by apply tbl_delete_none.
Qed.

Lemma cascade_ignores_owner_witness :
  connected demoWorld
  ∧ filter (λ r, Scenario.id r = 1 ∧ Scenario.userId r = 2)
      (rowsOf schema.scenarios demoWorld) = []
  ∧ scenarios (store (after (deleteScenario 1 2) demoWorld))
    = scenarios (store demoWorld)
  ∧ length (rowsOf schema.scenarioCharacters demoWorld) = 2%nat
  ∧ rowsOf schema.scenarioCharacters (after (deleteScenario 1 2) demoWorld)
    = [].
Proof.
  split; [reflexivity|]. split; [reflexivity|].
  destruct (cascade_ignores_owner demoWorld 1 2 eq_refl)
    as [Hscenario _].
  destruct (Hscenario eq_refl) as (Hparent & Hchars & _).
  split; [exact Hparent|]. split; [reflexivity|].
  rewrite Hchars. reflexivity.
Defined.

(** ** The API-key list (C10) *)

Lemma apiKeyInfo_redact (l1 l2 : list ApiKey.t) (userId : Z) :
  redact <$> l1 = redact <$> l2 →
  apiKeyInfo <$> filter (λ r, ApiKey.userId r = userId) l1
  = apiKeyInfo <$> filter (λ r, ApiKey.userId r = userId) l2.
Proof.
  revert l2. induction l1 as [|a l1 IH]; intros [|b l2] Heq; try done.
  rewrite !fmap_cons in Heq.
  injection Heq as Hid Huser Hname Hused Hcreated Hrest.
  assert (apiKeyInfo a = apiKeyInfo b) as Hinfo
    by (unfold apiKeyInfo; congruence).
  rewrite !filter_cons. rewrite <- Huser.
  destruct (decide (ApiKey.userId a = userId)); rewrite ?fmap_cons, ?Hinfo;
    by rewrite (IH l2 Hrest).
Qed.

(** C10: [getApiKeysByUserId] gives rows of [id], [keyName], [lastUsed]
    and [createdAt] only, and two worlds whose API-key rows differ at most
    in [encryptedKey] give the same list for every user id. *)
Theorem apiKey_list_hides_ciphertext (w1 w2 : World) (userId : Z) :
  outcome getDb w1 = outcome getDb w2 →
  redact <$> rowsOf schema.apiKeys w1 = redact <$> rowsOf schema.apiKeys w2 →
  outcome (getApiKeysByUserId userId) w1
  = outcome (getApiKeysByUserId userId) w2.
Proof.
  intros Hdb Hrows. unfold outcome in *. rewrite !getDb_spec in Hdb.
  injection Hdb as Hdb.
  unfold getApiKeysByUserId. rewrite !with_db, Hdb.
  destruct (available w2); [|done].
  unfold selectFrom, query, tbl_select; simpl. f_equal.
  by apply apiKeyInfo_redact.
Qed.

Lemma apiKey_list_hides_ciphertext_witness :
  rowsOf schema.apiKeys demoWorld ≠ rowsOf schema.apiKeys demoWorldRekeyed
  ∧ outcome (getApiKeysByUserId 1) demoWorld
    = outcome (getApiKeysByUserId 1) demoWorldRekeyed
  ∧ outcome (getApiKeysByUserId 1) demoWorld
    = Ok [ApiKeyInfo.mk 1 "main" None 10].
Proof.
  split; [by vm_compute|].
  split; [|reflexivity].
  apply (apiKey_list_hides_ciphertext demoWorld demoWorldRekeyed 1);
    vm_compute; reflexivity.
Defined.

(** ** Facts about the order of a list *)

Section OrderByFacts.
Context {R K : Type} `{EqDecision K} (le : K → K → bool) (key : R → K).
Hypothesis le_total : ∀ a b, le a b = true ∨ le b a = true.
Hypothesis le_trans :
  ∀ a b c, le a b = true → le b c = true → le a c = true.

Local Abbreviation before := (λ a b : R, le (key a) (key b) = true).

Lemma place_perm x l : place le key x l ≡ₚ x :: l.
Proof.
  induction l as [|y l IH]; simpl; [done|].
  destruct (le (key x) (key y)); [done|].
  by rewrite IH, Permutation_swap.
Qed.

Lemma orderBy_perm l : orderBy le key l ≡ₚ l.
Proof.
  unfold orderBy. induction l as [|x l IH]; simpl; [done|].
  by rewrite place_perm, IH.
Qed.

Lemma place_sorted x l :
  StronglySorted before l → StronglySorted before (place le key x l).
Proof.
  induction 1 as [|y l Hl IH Hy]; simpl.
  - by repeat constructor.
  - destruct (le (key x) (key y)) eqn:Hxy.
    + constructor; [by constructor|].
      constructor; [done|].
      eapply Forall_impl; [exact Hy|]. simpl. eauto.
    + constructor; [done|].
      rewrite place_perm. constructor; [|done].
      destruct (le_total (key x) (key y)); congruence.
Qed.

Lemma orderBy_sorted l : StronglySorted before (orderBy le key l).
Proof.
  unfold orderBy. induction l; simpl; [constructor | by apply place_sorted].
Qed.

Lemma orderBy_listed l : listedBy le key l (orderBy le key l).
Proof. split; [apply orderBy_sorted | apply orderBy_perm]. Qed.
End OrderByFacts.

Lemma desc_total a b : desc a b = true ∨ desc b a = true.
Proof. unfold desc. lia. Qed.
Lemma desc_trans a b c :
  desc a b = true → desc b c = true → desc a c = true.
Proof. unfold desc. lia. Qed.
Lemma ascNull_total a b : ascNull a b = true ∨ ascNull b a = true.
Proof. destruct a, b; simpl; auto. lia. Qed.
Lemma ascNull_trans a b c :
  ascNull a b = true → ascNull b c = true → ascNull a c = true.
Proof. destruct a, b, c; simpl; try done. lia. Qed.

(** ** Scenario copy (C2) *)

Lemma demoWorld_built : demoWorld = demoSetup.
Proof. vm_compute. reflexivity. Qed.

Lemma with_db_cached {A} (off on : M A) w :
  _db w = true →
  bind getDb (λ db, if negb db then off else on) w = on w.
Proof.
  intros Hdb. rewrite with_db. unfold available. rewrite Hdb. simpl.
  by rewrite <- Hdb, set_db_same.
Qed.

Lemma mkTable_eta {R} (t : Table R) : mkTable (rows t) (autoIncrement t) = t.
Proof. by destruct t. Qed.

Lemma lawful_scenarios : Lawful schema.scenarios.
Proof. by split; intros; try destruct s. Qed.
Lemma lawful_scenarioCharacters : Lawful schema.scenarioCharacters.
Proof. by split; intros; try destruct s. Qed.
Lemma lawful_scenarioInteractions : Lawful schema.scenarioInteractions.
Proof. by split; intros; try destruct s. Qed.

(** A loop of inserts appends one row per element, in the order of the
    list, with consecutive ids. *)
Lemma forOf_insertInto {R A} (tbl : TableRef R)
    (mkRow : A → Timestamp → Z → R) (add : A → M Z) :
  Lawful tbl →
  (∀ a w, _db w = true → add a w = insertInto tbl (mkRow a) w) →
  ∀ xs w, _db w = true →
    let t := tableOf tbl (store w) in
    let r := forOf xs (λ x, await _ := add x in ret ()) w in
    r.1 = Ok () ∧ _db r.2 = true ∧ clock r.2 = clock w
    ∧ store r.2
      = setTable tbl
          (mkTable
             (rows t ++
              imap (λ i x, mkRow x (clock w) (autoIncrement t + Z.of_nat i))
                   xs)
             (autoIncrement t + Z.of_nat (length xs)))
          (store w).
Proof.
  intros Hl Hadd xs. induction xs as [|x xs IH]; intros w Hdb.
  - simpl. repeat split; try done.
    by rewrite app_nil_r, Z.add_0_r, mkTable_eta, (set_get Hl).
  - set (t := tableOf tbl (store w)).
    set (w1 := executed (INSERT (tableName tbl))
                 (setTable tbl
                    (mkTable (rows t ++ [mkRow x (clock w) (autoIncrement t)])
                             (autoIncrement t + 1))
                    (store w)) w).
    assert (forOf (x :: xs) (λ x, await _ := add x in ret ()) w
            = forOf xs (λ x, await _ := add x in ret ()) w1) as Hstep.
    { simpl. unfold bind at 1 2. by rewrite (Hadd x w Hdb). }
    cbv zeta. rewrite Hstep.
    destruct (IH w1 Hdb) as (Hok & Hdb' & Hclock & Hstore).
    repeat split; try done.
    rewrite Hstore. subst w1; simpl.
    rewrite (get_set Hl), (set_set Hl); simpl.
    f_equal. f_equal; [|lia].
    rewrite <- (assoc_L (++)). f_equal. simpl. f_equal; [by rewrite Z.add_0_r|].
    apply imap_ext. intros i y _. simpl. f_equal. lia.
Qed.

(** The run of [scenarios.copy] on an existing scenario: what it returns
    and the store it leaves. *)
Lemma copy_run (w : World) (caller id : Z) (src : Scenario.t) :
  connected w →
  outcome (getScenarioById id) w = Ok (Some src) →
  let newId := autoIncrement (scenarios (store w)) in
  let chars :=
    orderBy ascNull ScenarioCharacter.orderIndex
      (filter (λ r, ScenarioCharacter.scenarioId r = id)
         (rowsOf schema.scenarioCharacters w)) in
  let interactions :=
    orderBy ascNull ScenarioInteraction.orderIndex
      (filter (λ r, ScenarioInteraction.scenarioId r = id)
         (rowsOf schema.scenarioInteractions w)) in
  let sc := scenarioCharacters (store w) in
  let si := scenarioInteractions (store w) in
  ∃ w', appRouter.scenarios.copy caller id w = (Ok newId, w')
    ∧ store w'
      = set_scenarioInteractions
          (mkTable
             (rows si ++
              imap (λ i x,
                      Rows.scenarioInteraction
                        (appRouter.scenarios.copyInteraction newId x)
                        (clock w) (autoIncrement si + Z.of_nat i))
                   interactions)
             (autoIncrement si + Z.of_nat (length interactions)))
          (set_scenarioCharacters
             (mkTable
                (rows sc ++
                 imap (λ i c,
                         Rows.scenarioCharacter
                           (appRouter.scenarios.copyCharacter newId c)
                           (clock w) (autoIncrement sc + Z.of_nat i))
                      chars)
                (autoIncrement sc + Z.of_nat (length chars)))
             (set_scenarios
                (mkTable
                   (rows (scenarios (store w)) ++
                    [Rows.scenario
                       (InsertScenario.mk caller
                          (Scenario.title src +:+ " (Copy)")
                          (Some (Scenario.promptDescription src))
                          (Some (Scenario.displayDescription src))
                          (Some (Scenario.imageUrl src))
                          (Some (Some false)))
                       (clock w) newId])
                   (newId + 1))
                (store w))).
Proof.
  intros Hon Hsrc. unfold appRouter.scenarios.copy.
  unfold outcome in Hsrc. unfold bind at 1.
  destruct (getScenarioById id w) as [found w1] eqn:Hget.
  simpl in Hsrc. subst found.
  assert (_db w1 = true ∧ store w1 = store w ∧ clock w1 = clock w)
    as (Hdb1 & Hstore1 & Hclock1).
  { unfold getScenarioById in Hget. rewrite with_db_on in Hget by done.
    unfold selectFrom, query in Hget. by injection Hget as _ <-. }
  unfold bind at 1. unfold createScenario.
  rewrite with_db_cached by done.
  unfold insertInto, exec, tbl_insert; simpl.
  match goal with |- context [bind (getScenarioCharacters id) _ ?w2] =>
    set (w2' := w2) end.
  unfold bind at 1. unfold getScenarioCharacters.
  rewrite with_db_cached by done.
  unfold selectFrom, query, tbl_select; simpl.
  match goal with |- context [bind (forOf ?cs _) _ ?w3] =>
    set (chars := cs); set (w3' := w3) end.
  unfold bind at 1.
  destruct (forOf_insertInto schema.scenarioCharacters
              (λ c, Rows.scenarioCharacter
                      (appRouter.scenarios.copyCharacter
                         (autoIncrement (scenarios (store w1))) c))
              (λ c, addScenarioCharacter
                      (appRouter.scenarios.copyCharacter
                         (autoIncrement (scenarios (store w1))) c))
              lawful_scenarioCharacters
              (λ a w0 H0, with_db_cached _ _ w0 H0) chars w3' Hdb1)
    as (Hok4 & Hdb4 & Hclock4 & Hstore4).
  destruct (forOf chars _ w3') as [r4 w4]. simpl in Hok4, Hdb4, Hstore4.
  subst r4. unfold bind at 1. unfold getScenarioInteractions.
  rewrite with_db_cached by done.
  unfold selectFrom, query, tbl_select; simpl.
  match goal with |- context [bind (forOf ?xs _) _ ?w5] =>
    set (inters := xs); set (w5' := w5) end.
  unfold bind at 1.
  destruct (forOf_insertInto schema.scenarioInteractions
              (λ x, Rows.scenarioInteraction
                      (appRouter.scenarios.copyInteraction
                         (autoIncrement (scenarios (store w1))) x))
              (λ x, addScenarioInteraction
                      (appRouter.scenarios.copyInteraction
                         (autoIncrement (scenarios (store w1))) x))
              lawful_scenarioInteractions
              (λ a w0 H0, with_db_cached _ _ w0 H0) inters w5' Hdb4)
    as (Hok6 & Hdb6 & Hclock6 & Hstore6).
  destruct (forOf inters _ w5') as [r6 w6]. simpl in Hok6, Hclock6, Hstore6.
  subst r6. unfold ret, rowsOf; simpl.
  exists w6. split; [by rewrite Hstore1|].
  rewrite Hstore6. subst w5' inters; simpl.
  simpl in Hclock4. rewrite Hclock4.
  rewrite Hstore4. subst w3' chars w2'; simpl.
  by rewrite Hstore1, Hclock1.
Qed.

(** C2, as the code has it: [scenarios.copy] of an existing scenario
    whose title with " (Copy)" appended fits the title column gives the id
    of a new scenario row owned by the caller, with that title, the
    source's descriptions and image and [isPublic] false; after it, one
    new row per character and per interaction of the source, made in
    ascending [orderIndex] (in a listing of the source's children by
    [orderIndex]; which one, among children of equal [orderIndex], is not
    said) and under the new scenario id, with the same [name], [label],
    [promptDescription], [isUserCharacter] and [orderIndex] (characters:
    [characterId] is not carried over, the new rows have none) and the
    same [interactionType], [characterLabel], [content], [isSticky] and
    [orderIndex] (interactions).  When no scenario has the id, it throws
    "Scenario not found" and writes nothing. *)
Theorem scenario_copy (w : World) (caller id : Z) :
  (∀ src, connected w →
     outcome (getScenarioById id) w = Ok (Some src) →
     (String.length (Scenario.title src +:+ " (Copy)")
      ≤ Scenario.titleLength)%nat →
     let w' := after (appRouter.scenarios.copy caller id) w in
     let newId := autoIncrement (scenarios (store w)) in
     outcome (appRouter.scenarios.copy caller id) w = Ok newId
     ∧ rowsOf schema.scenarios w'
       = (rowsOf schema.scenarios w ++
           [Scenario.mk newId caller (Scenario.title src +:+ " (Copy)")
              (Scenario.promptDescription src)
              (Scenario.displayDescription src) (Scenario.imageUrl src)
              (Some false) (clock w) (clock w)])%list
     ∧ (∃ chars,
          listedBy ascNull ScenarioCharacter.orderIndex
            (filter (λ r, ScenarioCharacter.scenarioId r = id)
               (rowsOf schema.scenarioCharacters w)) chars
          ∧ rowsOf schema.scenarioCharacters w'
            = (rowsOf schema.scenarioCharacters w ++
                imap (λ i c,
                        ScenarioCharacter.mk
                          (autoIncrement (scenarioCharacters (store w))
                           + Z.of_nat i)
                          newId None (ScenarioCharacter.name c)
                          (ScenarioCharacter.label c)
                          (ScenarioCharacter.promptDescription c)
                          (ScenarioCharacter.isUserCharacter c)
                          (ScenarioCharacter.orderIndex c))
                     chars)%list)
     ∧ (∃ interactions,
          listedBy ascNull ScenarioInteraction.orderIndex
            (filter (λ r, ScenarioInteraction.scenarioId r = id)
               (rowsOf schema.scenarioInteractions w)) interactions
          ∧ rowsOf schema.scenarioInteractions w'
            = (rowsOf schema.scenarioInteractions w ++
                imap (λ i x,
                        ScenarioInteraction.mk
                          (autoIncrement (scenarioInteractions (store w))
                           + Z.of_nat i)
                          newId (ScenarioInteraction.interactionType x)
                          (ScenarioInteraction.characterLabel x)
                          (ScenarioInteraction.content x)
                          (ScenarioInteraction.isSticky x)
                          (ScenarioInteraction.orderIndex x))
                     interactions)%list))
  ∧ (outcome (getScenarioById id) w = Ok None →
     outcome (appRouter.scenarios.copy caller id) w = Throw ScenarioNotFound
     ∧ store (after (appRouter.scenarios.copy caller id) w) = store w).
Proof.
  split.
  - intros src Hon Hsrc _.
    destruct (copy_run w caller id src Hon Hsrc) as (w' & Hrun & Hstore).
    unfold after, outcome, rowsOf. rewrite Hrun; simpl. rewrite Hstore.
    split; [done|]. split; [done|]. split.
    + eexists. split; [|reflexivity].
      apply orderBy_listed; [apply ascNull_total | apply ascNull_trans].
    + eexists. split; [|reflexivity].
      apply orderBy_listed; [apply ascNull_total | apply ascNull_trans].
  - intros Hnone. unfold appRouter.scenarios.copy, after, outcome.
    unfold outcome in Hnone. unfold bind.
    destruct (getScenarioById id w) as [found w1] eqn:Hget.
    simpl in Hnone. subst found. simpl. split; [done|].
    unfold getScenarioById in Hget. rewrite with_db in Hget.
    destruct (available w).
    + unfold selectFrom, query in Hget. by injection Hget as _ <-.
    + unfold ret in Hget. by injection Hget as <-.
Qed.

Lemma scenario_copy_witness :
  connected demoWorld
  ∧ outcome (getScenarioById 1) demoWorld = Ok (Some demoScenario)
  ∧ (String.length (Scenario.title demoScenario +:+ " (Copy)")
     ≤ Scenario.titleLength)%nat
  ∧ outcome (appRouter.scenarios.copy 2 1) demoWorld = Ok 2
  ∧ outcome (getScenarioById 9) demoWorld = Ok None
  ∧ outcome (appRouter.scenarios.copy 2 9) demoWorld = Throw ScenarioNotFound.
Proof.
  split; [by vm_compute|]. split; [by vm_compute|].
  split; [vm_compute; lia|].
  split.
  - destruct (scenario_copy demoWorld 2 1) as [Hcopy _].
    destruct (Hcopy demoScenario) as [Hout _];
      [by vm_compute | by vm_compute | vm_compute; lia |].
    exact Hout.
  - split; [by vm_compute|].
    destruct (scenario_copy demoWorld 2 9) as [_ Hmissing].
    destruct Hmissing as [Hout _]; [by vm_compute|].
    exact Hout.
Defined.

(** The example of the specification: the copy has the title with
    " (Copy)", is private, and has exactly one character and one
    interaction, equal to the source's but for their ids and parent. *)
Example copy_of_example :
  let w' := after (appRouter.scenarios.copy 2 1) exampleWorld in
  outcome (appRouter.scenarios.copy 2 1) exampleWorld = Ok 2
  ∧ outcome (getScenarioById 2) w'
    = Ok (Some (Scenario.mk 2 2 "Tavern (Copy)" None None None (Some false)
                  10 10))
  ∧ outcome (getScenarioCharacters 1) w'
    = Ok [ScenarioCharacter.mk 1 1 None "Ann" "a" None (Some false) (Some 0)]
  ∧ outcome (getScenarioCharacters 2) w'
    = Ok [ScenarioCharacter.mk 2 2 None "Ann" "a" None (Some false) (Some 0)]
  ∧ outcome (getScenarioInteractions 1) w'
    = Ok [ScenarioInteraction.mk 1 1 InteractionType.text None "hi"
            (Some false) (Some 0)]
  ∧ outcome (getScenarioInteractions 2) w'
    = Ok [ScenarioInteraction.mk 2 2 InteractionType.text None "hi"
            (Some false) (Some 0)].
Proof. by vm_compute. Qed.

(** The copy of a character linked to a library character is not linked:
    of the fields of a scenario character, [characterId] is not kept. *)
Lemma copy_drops_characterId :
  let w' := after (appRouter.scenarios.copy 2 1) demoWorld in
  ScenarioCharacter.characterId <$>
    filter (λ r, ScenarioCharacter.scenarioId r = 1)
      (rowsOf schema.scenarioCharacters w') = [Some 7; None]
  ∧ ScenarioCharacter.characterId <$>
      filter (λ r, ScenarioCharacter.scenarioId r = 2)
        (rowsOf schema.scenarioCharacters w') = [None; None]
  ∧ ScenarioCharacter.name <$>
      filter (λ r, ScenarioCharacter.scenarioId r = 2)
        (rowsOf schema.scenarioCharacters w') = ["Ann"; "Bob"].
Proof. by vm_compute. Qed.

(** ** Partial updates (C7) *)

Lemma Forall2_fmap_self {A B} (Q : A → B → Prop) (g : A → B)
    (l : list A) :
  (∀ x, Q x (g x)) → Forall2 Q l (g <$> l).
Proof. intros HQ. induction l; constructor; auto. Qed.

Lemma updateWhere_partialUpdate {R} (tbl : TableRef R) (P : R → Prop)
    `{!∀ r, Decision (P r)} (set : Timestamp → R → R)
    (upd : R → R → Prop) (w w0 : World) :
  Lawful tbl →
  store w0 = store w →
  (∀ r, upd r (set (clock w0) r)) →
  partialUpdate tbl P upd w (after (updateWhere tbl P set) w0).
Proof.
  intros Hl Hstore Hupd. unfold partialUpdate, after, updateWhere, exec, rowsOf.
  simpl. rewrite (get_set Hl), Hstore. split; [|done].
  unfold tbl_update; simpl. apply Forall2_fmap_self.
  intros r. destruct (decide (P r)); [apply Hupd | done].
Qed.

Ltac columns d :=
  destruct d; unfold column; simpl;
  repeat match goal with
         | |- context [assign ?o _] => destruct o; simpl
         end;
  repeat split.

Lemma updated_character d now r :
  Updated.character d now r
    (onUpdateNow Set_.characterStamp (Set_.character d) now r).
Proof.
  unfold onUpdateNow. destruct (decide (Set_.character d r = r)) as [e|n].
  - assert (Updated.character d now r (Set_.character d r)) as H.
    { unfold Updated.character. repeat split; try (by left).
      all: clear e; by columns d. }
    by rewrite e in H.
  - unfold Updated.character. repeat split; try (by right).
    all: clear n; by columns d.
Qed.

Lemma updated_scenario d now r :
  Updated.scenario d now r
    (onUpdateNow Set_.scenarioStamp (Set_.scenario d) now r).
Proof.
  unfold onUpdateNow. destruct (decide (Set_.scenario d r = r)) as [e|n].
  - assert (Updated.scenario d now r (Set_.scenario d r)) as H.
    { unfold Updated.scenario. repeat split; try (by left).
      all: clear e; by columns d. }
    by rewrite e in H.
  - unfold Updated.scenario. repeat split; try (by right).
    all: clear n; by columns d.
Qed.

Lemma updated_chatSession d now r :
  Updated.chatSession d now r
    (onUpdateNow Set_.chatSessionStamp (Set_.chatSession d) now r).
Proof.
  unfold onUpdateNow. destruct (decide (Set_.chatSession d r = r)) as [e|n].
  - assert (Updated.chatSession d now r (Set_.chatSession d r)) as H.
    { unfold Updated.chatSession. repeat split; try (by left).
      all: clear e; by columns d. }
    by rewrite e in H.
  - unfold Updated.chatSession. repeat split; try (by right).
    all: clear n; by columns d.
Qed.

Lemma updated_story d now r :
  Updated.story d now r (onUpdateNow Set_.storyStamp (Set_.story d) now r).
Proof.
  unfold onUpdateNow. destruct (decide (Set_.story d r = r)) as [e|n].
  - assert (Updated.story d now r (Set_.story d r)) as H.
    { unfold Updated.story. repeat split; try (by left).
      all: clear e; by columns d. }
    by rewrite e in H.
  - unfold Updated.story. repeat split; try (by right).
    all: clear n; by columns d.
Qed.

Lemma updated_scenarioInteraction d r :
  Updated.scenarioInteraction d r (Set_.scenarioInteraction d r).
Proof. unfold Updated.scenarioInteraction. repeat split; by columns d. Qed.

Lemma updated_storyCharacter d r :
  Updated.storyCharacter d r (Set_.storyCharacter d r).
Proof. unfold Updated.storyCharacter. repeat split; by columns d. Qed.

Lemma lawful_characters : Lawful schema.characters.
Proof. by split; intros; try destruct s. Qed.
Lemma lawful_chatSessions : Lawful schema.chatSessions.
Proof. by split; intros; try destruct s. Qed.
Lemma lawful_stories : Lawful schema.stories.
Proof. by split; intros; try destruct s. Qed.
Lemma lawful_storyCharacters : Lawful schema.storyCharacters.
Proof. by split; intros; try destruct s. Qed.

Ltac update_run f empty :=
  intros data; unfold f, after; rewrite with_db_on by done;
  destruct (empty data); [done|].

(** C7, as the code has it: a partial update writes the supplied columns
    and keeps the others.  In a matched row a column left out of the data
    keeps its stored value and a supplied column takes the supplied
    value, the empty value included; [id] and [createdAt] stay; the row is
    either exactly as before or its [updatedAt], where the table has one,
    is the time of the statement.  Unmatched rows and all other tables are
    untouched.  With no column supplied nothing is written. *)
Theorem partial_update_frame (w : World) (id userId : Z) :
  connected w →
  (∀ data,
     let w' := after (updateCharacter id userId data) w in
     if Set_.characterEmpty data then store w' = store w
     else partialUpdate schema.characters
            (λ r, Character.id r = id ∧ Character.userId r = userId)
            (Updated.character data (clock w)) w w')
  ∧ (∀ data,
       let w' := after (updateScenario id userId data) w in
       if Set_.scenarioEmpty data then store w' = store w
       else partialUpdate schema.scenarios
              (λ r, Scenario.id r = id ∧ Scenario.userId r = userId)
              (Updated.scenario data (clock w)) w w')
  ∧ (∀ data,
       let w' := after (updateScenarioInteraction id data) w in
       if Set_.scenarioInteractionEmpty data then store w' = store w
       else partialUpdate schema.scenarioInteractions
              (λ r, ScenarioInteraction.id r = id)
              (Updated.scenarioInteraction data) w w')
  ∧ (∀ data,
       let w' := after (updateChatSession id userId data) w in
       if Set_.chatSessionEmpty data then store w' = store w
       else partialUpdate schema.chatSessions
              (λ r, ChatSession.id r = id ∧ ChatSession.userId r = userId)
              (Updated.chatSession data (clock w)) w w')
  ∧ (∀ data,
       let w' := after (updateStory id userId data) w in
       if Set_.storyEmpty data then store w' = store w
       else partialUpdate schema.stories
              (λ r, Story.id r = id ∧ Story.userId r = userId)
              (Updated.story data (clock w)) w w')
  ∧ (∀ data,
       let w' := after (updateStoryCharacter id data) w in
       if Set_.storyCharacterEmpty data then store w' = store w
       else partialUpdate schema.storyCharacters
              (λ r, StoryCharacter.id r = id)
              (Updated.storyCharacter data) w w').
Proof.
  intros Hon. repeat split.
  - update_run updateCharacter Set_.characterEmpty.
    apply (updateWhere_partialUpdate _ _ _ _ _ _ lawful_characters); [done|].
    intros r. apply updated_character.
  - update_run updateScenario Set_.scenarioEmpty.
    apply (updateWhere_partialUpdate _ _ _ _ _ _ lawful_scenarios); [done|].
    intros r. apply updated_scenario.
  - update_run updateScenarioInteraction Set_.scenarioInteractionEmpty.
    apply (updateWhere_partialUpdate _ _ _ _ _ _ lawful_scenarioInteractions);
      [done|].
    intros r. apply updated_scenarioInteraction.
  - update_run updateChatSession Set_.chatSessionEmpty.
    apply (updateWhere_partialUpdate _ _ _ _ _ _ lawful_chatSessions); [done|].
    intros r. apply updated_chatSession.
  - update_run updateStory Set_.storyEmpty.
    apply (updateWhere_partialUpdate _ _ _ _ _ _ lawful_stories); [done|].
    intros r. apply updated_story.
  - update_run updateStoryCharacter Set_.storyCharacterEmpty.
    apply (updateWhere_partialUpdate _ _ _ _ _ _ lawful_storyCharacters);
      [done|].
    intros r. apply updated_storyCharacter.
Qed.

Lemma partial_update_frame_witness :
  connected demoLater
  ∧ partialUpdate schema.scenarios
      (λ r, Scenario.id r = 1 ∧ Scenario.userId r = 1)
      (Updated.scenario retitle 20) demoLater
      (after (updateScenario 1 1 retitle) demoLater)
  ∧ Scenario.title <$>
      rowsOf schema.scenarios (after (updateScenario 1 1 retitle) demoLater)
    = [""].
Proof.
  split; [by vm_compute|]. split; [|by vm_compute].
  destruct (partial_update_frame demoLater 1 1) as (_ & Hs & _);
    [by vm_compute|].
  exact (Hs retitle).
Defined.

(** A rename supplies [name] only, and [updatedAt] changes with it. *)
Lemma update_stamps_updatedAt :
  Character.updatedAt <$> rowsOf schema.characters demoLater = [10]
  ∧ Character.updatedAt <$>
      rowsOf schema.characters (after (updateCharacter 1 1 rename) demoLater)
    = [20].
Proof. by vm_compute. Qed.

(** ** Ordering of lists (C8) *)





(** ** Upsert on login (C4, C5) *)

Lemma upsert_set_other (owner : string) (now : Timestamp)
    (user : InsertUser.t) (k : string) :
  k ≠ "name" → k ≠ "email" → k ≠ "loginMethod" → k ≠ "role" →
  k ≠ "lastSignedIn" →
  updateSet (buildUpsert owner now user) !! k = None.
Proof.
  intros.
  destruct user as [o [n|] [e|] [l|] [r|] [t|]];
    unfold buildUpsert; cbn -[size];
    repeat match goal with
           | |- context [if ?b then _ else _] => destruct b
           end;
    cbn -[size]; rewrite ?lookup_insert_ne by done; apply lookup_empty.
Qed.

Lemma nullish_null {A} (v : Nullable A) : nullish v None = v.
Proof. by destruct v. Qed.

Lemma upsert_set_fields (owner : string) (now : Timestamp)
    (user : InsertUser.t) :
  let set := updateSet (buildUpsert owner now user) in
  set !! "name" = sqlText <$> InsertUser.name user
  ∧ set !! "email" = sqlText <$> InsertUser.email user
  ∧ set !! "loginMethod" = sqlText <$> InsertUser.loginMethod user
  ∧ set !! "role"
    = match InsertUser.role user with
      | Some r => Some (RoleValue r)
      | None =>
          if bool_decide (InsertUser.openId user = owner)
          then Some (RoleValue Role.admin) else None
      end
  ∧ set !! "lastSignedIn"
    = match InsertUser.lastSignedIn user with
      | Some t => Some (Time t)
      | None =>
          if onlyOpenId user
             && negb (bool_decide (InsertUser.openId user = owner))
          then Some (Time now) else None
      end.
Proof.
  destruct user as [o [n|] [e|] [l|] [r|] [t|]];
    unfold buildUpsert, onlyOpenId;
    cbn [foldl textFields assignNullable readField InsertUser.openId
         InsertUser.name InsertUser.email InsertUser.loginMethod
         InsertUser.role InsertUser.lastSignedIn];
    rewrite ?nullish_null;
    destruct (bool_decide (o = owner)); vm_compute; repeat split.
Qed.

(** C4, as the code has it: the update set of [upsertUser] has [name],
    [email] and [loginMethod] exactly when the caller supplied them, with
    the supplied value as it is: null stays null, and a string stays that
    string, the empty string included.  It has [role] when supplied, and
    [role = admin] when it is not supplied and the [openId] is the owner
    identity.  It has [lastSignedIn] when supplied, and [lastSignedIn =
    now] when nothing at all was supplied and the [openId] is not the
    owner identity.  It has no other key. *)
Theorem upsert_update_set (owner : string) (now : Timestamp)
    (user : InsertUser.t) :
  let set := updateSet (buildUpsert owner now user) in
  set !! "name" = sqlText <$> InsertUser.name user
  ∧ set !! "email" = sqlText <$> InsertUser.email user
  ∧ set !! "loginMethod" = sqlText <$> InsertUser.loginMethod user
  ∧ set !! "role"
    = match InsertUser.role user with
      | Some r => Some (RoleValue r)
      | None =>
          if bool_decide (InsertUser.openId user = owner)
          then Some (RoleValue Role.admin) else None
      end
  ∧ set !! "lastSignedIn"
    = match InsertUser.lastSignedIn user with
      | Some t => Some (Time t)
      | None =>
          if onlyOpenId user
             && negb (bool_decide (InsertUser.openId user = owner))
          then Some (Time now) else None
      end
  ∧ ∀ k, k ≠ "name" → k ≠ "email" → k ≠ "loginMethod" → k ≠ "role" →
         k ≠ "lastSignedIn" → set !! k = None.
Proof.
  destruct (upsert_set_fields owner now user) as (? & ? & ? & ? & ?).
  split_and!; try done. apply upsert_set_other.
Qed.

(** An empty name is written as the empty string, not as null. *)
Lemma upsert_keeps_empty_string :
  updateSet (buildUpsert "owner" 9 emptyName) !! "name" = Some (Text "")
  ∧ User.name <$> rowsOf schema.users alWorld = [Some "Al"]
  ∧ User.name <$> rowsOf schema.users (after (upsertUser emptyName) alWorld)
    = [Some ""].
Proof. by vm_compute. Qed.

Lemma buildUpsert_identity (owner : string) (now : Timestamp) (x : string) :
  buildUpsert owner now (identity x)
  = if bool_decide (x = owner)
    then mkUpsert
           (InsertUser.mk x None None None (Some Role.admin) (Some now))
           {["role" := RoleValue Role.admin]}
    else mkUpsert (InsertUser.mk x None None None None (Some now))
           {["lastSignedIn" := Time now]}.
Proof.
  unfold buildUpsert, identity.
  cbn [foldl textFields assignNullable readField InsertUser.openId
       InsertUser.name InsertUser.email InsertUser.loginMethod
       InsertUser.role InsertUser.lastSignedIn].
  destruct (bool_decide (x = owner)); vm_compute; reflexivity.
Qed.

Lemma applyUpdateSet_role (r : User.t) (x : Role.t) :
  applyUpdateSet {["role" := RoleValue x]} r
  = User.mk (User.id r) (User.openId r) (User.name r) (User.email r)
      (User.loginMethod r) x (User.createdAt r) (User.updatedAt r)
      (User.lastSignedIn r).
Proof. destruct r. vm_compute. reflexivity. Qed.

Lemma applyUpdateSet_lastSignedIn (r : User.t) (t : Timestamp) :
  applyUpdateSet {["lastSignedIn" := Time t]} r
  = User.mk (User.id r) (User.openId r) (User.name r) (User.email r)
      (User.loginMethod r) (User.role r) (User.createdAt r) (User.updatedAt r)
      t.
Proof. destruct r. vm_compute. reflexivity. Qed.

(** A login of an identity with a non-empty [openId] on a reachable store
    is one upsert statement. *)
Lemma upsertUser_run (w : World) (user : InsertUser.t) :
  connected w → InsertUser.openId user ≠ "" →
  rowsOf schema.users (after (upsertUser user) w)
  = rows (insertOnDuplicateKeyUpdate
            (buildUpsert (ownerOpenId w) (clock w) user) (clock w)
            (users (store w)))
  ∧ _db (after (upsertUser user) w) = true
  ∧ ownerOpenId (after (upsertUser user) w) = ownerOpenId w
  ∧ clock (after (upsertUser user) w) = clock w.
Proof.
  intros Hon Hid. unfold upsertUser, after, rowsOf.
  rewrite bool_decide_eq_false_2 by done.
  rewrite with_db_on by done. done.
Qed.

Lemma tbl_update_last {R} (P : R → Prop) `{!∀ r, Decision (P r)}
    (f : R → R) (l : list R) (r : R) (n : Z) :
  filter P l = [] → P r →
  rows (tbl_update P f (mkTable (l ++ [r]) n)) = l ++ [f r].
Proof.
  intros Hnone HP. unfold tbl_update; simpl. rewrite fmap_app; simpl.
  rewrite decide_True by done. f_equal.
  apply filter_none in Hnone.
  induction Hnone as [|y l Hy _ IH]; [done|].
  by rewrite fmap_cons, IH, decide_False.
Qed.

(** C5, as the code has it: the first login of an identity that carries
    only an [openId], unknown so far, inserts exactly one row, with role
    admin when the [openId] is the owner identity and user otherwise, and
    with [lastSignedIn] the time of the login.  A second, later login adds
    no row.  When the [openId] is not the owner identity it sets
    [lastSignedIn] to the later time; when it is the owner identity the
    update set is [role = admin] and the row stays as it is. *)
Theorem upsert_twice (w : World) (x : string) (t2 : Timestamp) :
  connected w →
  x ≠ "" →
  filter (λ r, User.openId r = x) (rowsOf schema.users w) = [] →
  clock w < t2 →
  let w1 := after (upsertUser (identity x)) w in
  let w2 := after (upsertUser (identity x)) (set_clock t2 w1) in
  let id := autoIncrement (users (store w)) in
  ∃ r1 r2,
    rowsOf schema.users w1 = (rowsOf schema.users w ++ [r1])%list
    ∧ rowsOf schema.users w2 = (rowsOf schema.users w ++ [r2])%list
    ∧ r1 = User.mk id x None None None
             (if bool_decide (x = ownerOpenId w) then Role.admin
              else Role.user)
             (clock w) (clock w) (clock w)
    ∧ (x ≠ ownerOpenId w →
       r2 = User.mk id x None None None Role.user (clock w) t2 t2
       ∧ User.lastSignedIn r1 < User.lastSignedIn r2)
    ∧ (x = ownerOpenId w → r2 = r1).
Proof.
  intros Hon Hx Hnew Hlater. cbv zeta.
  destruct (upsertUser_run w (identity x) Hon Hx)
    as (Hrows1 & Hdb1 & Howner1 & Hclock1).
  set (w1 := after (upsertUser (identity x)) w) in *.
  assert (connected (set_clock t2 w1)) as Hon2.
  { apply connected_available. unfold available. simpl. by rewrite Hdb1. }
  destruct (upsertUser_run (set_clock t2 w1) (identity x) Hon2 Hx)
    as (Hrows2 & _).
  simpl in Hrows2. rewrite Howner1 in Hrows2.
  set (r1 := User.mk (autoIncrement (users (store w))) x None None None
               (if bool_decide (x = ownerOpenId w) then Role.admin
                else Role.user) (clock w) (clock w) (clock w)).
  assert (rowsOf schema.users w1 = rowsOf schema.users w ++ [r1])%list
    as Hw1.
  { rewrite Hrows1. unfold insertOnDuplicateKeyUpdate, tbl_select.
    rewrite buildUpsert_identity. unfold rowsOf in Hnew. simpl in Hnew.
    destruct (bool_decide (x = ownerOpenId w)); simpl; by rewrite Hnew. }
  assert (users (store w1)
          = mkTable (rowsOf schema.users w ++ [r1])
              (autoIncrement (users (store w1)))) as Htable.
  { rewrite <- Hw1. unfold rowsOf. simpl. by rewrite mkTable_eta. }
  rewrite Htable in Hrows2.
  unfold insertOnDuplicateKeyUpdate, tbl_select in Hrows2. simpl in Hrows2.
  rewrite buildUpsert_identity in Hrows2.
  assert (filter (λ r, User.openId r = x) (rowsOf schema.users w ++ [r1])
          = [r1]) as Hdup.
  { by rewrite filter_app, Hnew, filter_cons_True. }
  destruct (bool_decide_reflect (x = ownerOpenId w)) as [Howner|Hother];
    simpl in Hrows2; rewrite Hdup in Hrows2;
    rewrite tbl_update_last in Hrows2 by done.
  - exists r1, r1. split_and!; try done.
    rewrite Hrows2. do 2 f_equal. unfold onUpdateNow.
    rewrite applyUpdateSet_role. subst r1. simpl.
    by rewrite decide_True.
  - exists r1, (User.mk (autoIncrement (users (store w))) x None None None
                  Role.user (clock w) t2 t2).
    split_and!; try done.
    rewrite Hrows2. do 2 f_equal. unfold onUpdateNow.
    rewrite applyUpdateSet_lastSignedIn. subst r1. simpl.
    rewrite decide_False; [done|]. intros [= Heq]. lia.
Qed.

Lemma upsert_twice_witness :
  connected (startWorld "owner" 5)
  ∧ "x" ≠ ""
  ∧ 5 < 9
  ∧ ∃ r1 r2,
      rowsOf schema.users
        (after (upsertUser (identity "x")) (startWorld "owner" 5)) = [r1]
      ∧ rowsOf schema.users
          (after (upsertUser (identity "x"))
             (set_clock 9
                (after (upsertUser (identity "x")) (startWorld "owner" 5))))
        = [r2]
      ∧ r1 = User.mk 1 "x" None None None Role.user 5 5 5
      ∧ r2 = User.mk 1 "x" None None None Role.user 5 9 9.
Proof.
  split; [by vm_compute|]. split; [done|]. split; [lia|].
  destruct (upsert_twice (startWorld "owner" 5) "x" 9)
    as (r1 & r2 & H1 & H2 & Hr1 & Hr2 & _);
    [by vm_compute | done | by vm_compute | simpl; lia |].
  exists r1, r2. split; [exact H1|]. split; [exact H2|].
  split; [exact Hr1|]. by destruct Hr2.
Defined.

(** The owner logs in at time 5 and again at time 9: the second login
    leaves [lastSignedIn] at 5. *)
Lemma owner_login_keeps_lastSignedIn :
  let login := upsertUser (identity "owner") in
  let w1 := after login (startWorld "owner" 5) in
  let w2 := after login (set_clock 9 w1) in
  rowsOf schema.users w1
  = [User.mk 1 "owner" None None None Role.admin 5 5 5]
  ∧ rowsOf schema.users w2
    = [User.mk 1 "owner" None None None Role.admin 5 5 5]
  ∧ statements w2 = [UPSERT T_users; UPSERT T_users].
Proof. by vm_compute. Qed.

(** ** Ownership (C1) *)

Lemma lawful_apiKeys : Lawful schema.apiKeys.
Proof. by split; intros; try destruct s. Qed.
Lemma lawful_generatedImages : Lawful schema.generatedImages.
Proof. by split; intros; try destruct s. Qed.

Lemma keysBelow_fresh {R} (rid : R → Z) (t : Table R) (Q : R → Prop)
    `{!∀ r, Decision (Q r)} :
  keysBelow rid t = true →
  filter (λ r, rid r = autoIncrement t ∧ Q r) (rows t) = [].
Proof.
  unfold keysBelow. intros Hkeys. apply filter_none, Forall_forall.
  intros r Hr [Hid _].
  assert ((rid r <? autoIncrement t) = true) as Hlt.
  { rewrite forallb_forall in Hkeys. apply Hkeys. by apply list_elem_of_In. }
  lia.
Qed.

Section Created.
Context {R : Type} (tbl : TableRef R) (rid ruser : R → Z).
Context (mkRow : Timestamp → Z → R).
Hypothesis Hl : Lawful tbl.
Hypothesis Hrid : ∀ now i, rid (mkRow now i) = i.

(** What a create function leaves on a reachable store. *)
Lemma created_row (w w1 : World) (id : Z) :
  connected w →
  bind getDb (λ db, if negb db then throw DatabaseNotAvailable
                    else insertInto tbl mkRow) w = (Ok id, w1) →
  let t := tableOf tbl (store w) in
  id = autoIncrement t
  ∧ _db w1 = true
  ∧ store w1
    = setTable tbl (mkTable (rows t ++ [mkRow (clock w) id]) (id + 1))
        (store w).
Proof.
  intros Hon Hrun. rewrite with_db_on in Hrun by done.
  unfold insertInto, exec, tbl_insert in Hrun; simpl in Hrun.
  by injection Hrun as <- <-.
Qed.

(** The new row is not found under another user id. *)
Lemma created_row_foreign (w w1 : World) (id o2 : Z) :
  connected w →
  keysBelow rid (tableOf tbl (store w)) = true →
  (∀ now i, ruser (mkRow now i) ≠ o2) →
  bind getDb (λ db, if negb db then throw DatabaseNotAvailable
                    else insertInto tbl mkRow) w = (Ok id, w1) →
  _db w1 = true
  ∧ filter (λ r, rid r = id ∧ ruser r = o2) (rows (tableOf tbl (store w1)))
    = [].
Proof.
  intros Hon Hkeys Huser Hrun.
  destruct (created_row w w1 id Hon Hrun) as (-> & Hdb & ->).
  split; [done|]. rewrite (get_set Hl); simpl.
  rewrite filter_app, keysBelow_fresh by done. simpl.
  apply filter_none. repeat constructor. intros [_ Ho]. by eapply Huser.
Qed.

(** The new row is the one found under its id alone. *)
Lemma created_row_by_id (w w1 : World) (id : Z) :
  connected w →
  keysBelow rid (tableOf tbl (store w)) = true →
  bind getDb (λ db, if negb db then throw DatabaseNotAvailable
                    else insertInto tbl mkRow) w = (Ok id, w1) →
  filter (λ r, rid r = id) (rows (tableOf tbl (store w1)))
  = [mkRow (clock w) id].
Proof.
  intros Hon Hkeys Hrun.
  destruct (created_row w w1 id Hon Hrun) as (-> & Hdb & ->).
  rewrite (get_set Hl); simpl. rewrite filter_app.
  rewrite (list_filter_iff _
             (λ r, rid r = autoIncrement (tableOf tbl (store w)) ∧ True))
    by (intros r; split; [done | by intros [? _]]).
  rewrite keysBelow_fresh by done. simpl.
  by rewrite filter_cons_True, filter_nil by apply Hrid.
Qed.
End Created.

Section Foreign.
Context {R : Type} (tbl : TableRef R).
Context (P : R → Prop) `{!∀ r, Decision (P r)}.
Hypothesis Hl : Lawful tbl.
Variable w : World.
Hypothesis Hnone : filter P (rows (tableOf tbl (store w))) = [].

Lemma foreign_get :
  outcome (selectFrom tbl P (λ result, head (limit 1 result))) w = Ok None.
Proof.
  unfold outcome, selectFrom, query, tbl_select; simpl. by rewrite Hnone.
Qed.

Lemma foreign_update (set : Timestamp → R → R) :
  store (after (updateWhere tbl P set) w) = store w.
Proof.
  unfold after, updateWhere, exec; simpl.
  by rewrite tbl_update_none, (set_get Hl).
Qed.

Lemma foreign_delete :
  store (after (deleteFrom tbl P) w) = store w.
Proof.
  unfold after, deleteFrom, exec; simpl.
  by rewrite tbl_delete_none, (set_get Hl).
Qed.
End Foreign.

Lemma wellKeyed_tables (s : Store) :
  wellKeyed s = true →
  keysBelow ApiKey.id (apiKeys s) = true
  ∧ keysBelow Character.id (characters s) = true
  ∧ keysBelow Scenario.id (scenarios s) = true
  ∧ keysBelow ChatSession.id (chatSessions s) = true
  ∧ keysBelow Story.id (stories s) = true
  ∧ keysBelow GeneratedImage.id (generatedImages s) = true.
Proof.
  unfold wellKeyed. rewrite !andb_true_iff. tauto.
Qed.

Ltac foreign f := unfold f, outcome, after; rewrite with_db_cached by done.

(** C1, as the code has it: for the tables with a [userId] column, a row
    created under one user is not given to, changed by or removed by a
    call under another user: [get] gives nothing, [update] and [delete]
    leave the row's table as it was.  These calls select on the row id
    and the caller's user id.  [getScenarioById] takes no user id and
    gives the new scenario to any caller. *)
Theorem ownership_isolation (w : World) (o1 o2 : Z) :
  connected w →
  wellKeyed (store w) = true →
  o1 ≠ o2 →
  (∀ data id w1,
     InsertApiKey.userId data = o1 →
     createApiKey data w = (Ok id, w1) →
     outcome (getApiKeyById id o2) w1 = Ok None
     ∧ store (after (deleteApiKey id o2) w1) = store w1)
  ∧ (∀ data id w1,
       InsertCharacter.userId data = o1 →
       createCharacter data w = (Ok id, w1) →
       outcome (getCharacterById id o2) w1 = Ok None
       ∧ (∀ d, store (after (updateCharacter id o2 d) w1) = store w1)
       ∧ store (after (deleteCharacter id o2) w1) = store w1)
  ∧ (∀ data id w1,
       InsertScenario.userId data = o1 →
       createScenario data w = (Ok id, w1) →
       (∀ d, store (after (updateScenario id o2 d) w1) = store w1)
       ∧ scenarios (store (after (deleteScenario id o2) w1))
         = scenarios (store w1)
       ∧ outcome (getScenarioById id) w1
         = Ok (Some (Rows.scenario data (clock w) id)))
  ∧ (∀ data id w1,
       InsertChatSession.userId data = o1 →
       createChatSession data w = (Ok id, w1) →
       outcome (getChatSessionById id o2) w1 = Ok None
       ∧ (∀ d, store (after (updateChatSession id o2 d) w1) = store w1)
       ∧ chatSessions (store (after (deleteChatSession id o2) w1))
         = chatSessions (store w1))
  ∧ (∀ data id w1,
       InsertStory.userId data = o1 →
       createStory data w = (Ok id, w1) →
       outcome (getStoryById id o2) w1 = Ok None
       ∧ (∀ d, store (after (updateStory id o2 d) w1) = store w1)
       ∧ stories (store (after (deleteStory id o2) w1)) = stories (store w1))
  ∧ (∀ data id w1,
       InsertGeneratedImage.userId data = o1 →
       createGeneratedImage data w = (Ok id, w1) →
       store (after (deleteGeneratedImage id o2) w1) = store w1).
Proof.
  intros Hon Hkeys Hne.
  destruct (wellKeyed_tables _ Hkeys) as (Ka & Kc & Ks & Kh & Kt & Kg).
  split_and!; intros data id w1 Ho Hrun.
  - destruct (created_row_foreign schema.apiKeys ApiKey.id ApiKey.userId
                (Rows.apiKey data) lawful_apiKeys w w1 id o2)
      as [Hdb Hnone]; [done | done | simpl; congruence | done |].
    split.
    + foreign getApiKeyById. by apply foreign_get.
    + foreign deleteApiKey. by apply (foreign_delete _ _ lawful_apiKeys).
  - destruct (created_row_foreign schema.characters Character.id
                Character.userId (Rows.character data) lawful_characters
                w w1 id o2)
      as [Hdb Hnone]; [done | done | simpl; congruence | done |].
    split_and!.
    + foreign getCharacterById. by apply foreign_get.
    + intros d. foreign updateCharacter.
      destruct (Set_.characterEmpty d); [done|].
      by apply (foreign_update _ _ lawful_characters).
    + foreign deleteCharacter. by apply (foreign_delete _ _ lawful_characters).
  - destruct (created_row_foreign schema.scenarios Scenario.id
                Scenario.userId (Rows.scenario data) lawful_scenarios
                w w1 id o2)
      as [Hdb Hnone]; [done | done | simpl; congruence | done |].
    split_and!.
    + intros d. foreign updateScenario.
      destruct (Set_.scenarioEmpty d); [done|].
      by apply (foreign_update _ _ lawful_scenarios).
    + foreign deleteScenario. unfold after, bind, deleteFrom, exec; simpl.
      by apply tbl_delete_none.
    + foreign getScenarioById.
      unfold outcome, selectFrom, query, tbl_select; simpl.
      pose proof (created_row_by_id schema.scenarios Scenario.id
                    (Rows.scenario data) lawful_scenarios (λ _ _, eq_refl)
                    w w1 id Hon Ks Hrun) as Hby.
      simpl in Hby. by rewrite Hby.
  - destruct (created_row_foreign schema.chatSessions ChatSession.id
                ChatSession.userId (Rows.chatSession data) lawful_chatSessions
                w w1 id o2)
      as [Hdb Hnone]; [done | done | simpl; congruence | done |].
    split_and!.
    + foreign getChatSessionById. by apply foreign_get.
    + intros d. foreign updateChatSession.
      destruct (Set_.chatSessionEmpty d); [done|].
      by apply (foreign_update _ _ lawful_chatSessions).
    + foreign deleteChatSession. unfold after, bind, deleteFrom, exec; simpl.
      by apply tbl_delete_none.
  - destruct (created_row_foreign schema.stories Story.id Story.userId
                (Rows.story data) lawful_stories w w1 id o2)
      as [Hdb Hnone]; [done | done | simpl; congruence | done |].
    split_and!.
    + foreign getStoryById. by apply foreign_get.
    + intros d. foreign updateStory.
      destruct (Set_.storyEmpty d); [done|].
      by apply (foreign_update _ _ lawful_stories).
    + foreign deleteStory. unfold after, bind, deleteFrom, exec; simpl.
      by apply tbl_delete_none.
  - destruct (created_row_foreign schema.generatedImages GeneratedImage.id
                GeneratedImage.userId (Rows.generatedImage data)
                lawful_generatedImages w w1 id o2)
      as [Hdb Hnone]; [done | done | simpl; congruence | done |].
    foreign deleteGeneratedImage.
    by apply (foreign_delete _ _ lawful_generatedImages).
Qed.

Lemma ownership_isolation_witness :
  connected demoWorld
  ∧ wellKeyed (store demoWorld) = true
  ∧ createCharacter newCharacter demoWorld
    = (Ok 2, after (createCharacter newCharacter) demoWorld)
  ∧ outcome (getCharacterById 2 2)
      (after (createCharacter newCharacter) demoWorld) = Ok None
  ∧ store (after (deleteCharacter 2 2)
             (after (createCharacter newCharacter) demoWorld))
    = store (after (createCharacter newCharacter) demoWorld).
Proof.
  split; [by vm_compute|]. split; [by vm_compute|].
  split; [by vm_compute|].
  destruct (ownership_isolation demoWorld 1 2) as (_ & Hcharacter & _);
    [by vm_compute | by vm_compute | lia |].
  destruct (Hcharacter newCharacter 2
              (after (createCharacter newCharacter) demoWorld))
    as (Hget & _ & Hdelete); [done | by vm_compute |].
  split; [exact Hget | exact Hdelete].
Defined.

(** User 2 calls on rows of user 1.  Deleting the scenario keeps the
    scenario row and removes its characters and interactions; removing a
    message or a scenario character by id succeeds; and
    [updateApiKeyLastUsed] takes no user id at all. *)
Lemma foreign_calls_that_succeed :
  rowsOf schema.scenarios (after (appRouter.scenarios.delete 2 1) demoWorld)
  = rowsOf schema.scenarios demoWorld
  ∧ ScenarioCharacter.id <$> rowsOf schema.scenarioCharacters demoWorld
    = [1; 2]
  ∧ rowsOf schema.scenarioCharacters
      (after (appRouter.scenarios.delete 2 1) demoWorld) = []
  ∧ rowsOf schema.scenarioInteractions
      (after (appRouter.scenarios.delete 2 1) demoWorld) = []
  ∧ store (after (appRouter.scenarios.delete 2 1) demoWorld)
    ≠ store demoWorld
  ∧ ChatMessage.id <$> rowsOf schema.chatMessages demoWorld = [1; 2]
  ∧ ChatMessage.id <$>
      rowsOf schema.chatMessages
        (after (appRouter.chat.deleteMessage 2 1) demoWorld) = [2]
  ∧ ScenarioCharacter.id <$>
      rowsOf schema.scenarioCharacters
        (after (appRouter.scenarios.removeCharacter 2 1) demoWorld) = [2]
  ∧ ApiKey.lastUsed <$> rowsOf schema.apiKeys demoLater = [None]
  ∧ ApiKey.lastUsed <$>
      rowsOf schema.apiKeys (after (updateApiKeyLastUsed 1) demoLater)
    = [Some 20].
Proof. by vm_compute. Qed.

(** [upsertUser] is neither a create nor an update of the repository
    pattern: without a store it returns, having written nothing. *)
Lemma upsertUser_unavailable (w : World) (user : InsertUser.t) :
  unavailable w → InsertUser.openId user ≠ "" →
  upsertUser user w = (Ok (), w).
Proof.
  intros Hoff Hid. unfold upsertUser.
  rewrite bool_decide_eq_false_2 by done. by rewrite with_db_off.
Qed.

Lemma upsertUser_requires_openId (w : World) (user : InsertUser.t) :
  InsertUser.openId user = "" →
  upsertUser user w = (Throw OpenIdRequired, w).
Proof. intros Hid. unfold upsertUser. by rewrite bool_decide_eq_true_2. Qed.

(** ** The ids of a store stay below its counters *)

Lemma wellKeyed_empty : wellKeyed emptyStore = true.
Proof. reflexivity. Qed.

Ltac keyed :=
  split; [intros [] | intros [] ?]; unfold wellKeyed; simpl;
  rewrite ?andb_true_iff; tauto.

Lemma keyed_users : Keyed schema.users User.id.
Proof. keyed. Qed.
Lemma keyed_apiKeys : Keyed schema.apiKeys ApiKey.id.
Proof. keyed. Qed.
Lemma keyed_characters : Keyed schema.characters Character.id.
Proof. keyed. Qed.
Lemma keyed_scenarios : Keyed schema.scenarios Scenario.id.
Proof. keyed. Qed.
Lemma keyed_scenarioCharacters :
  Keyed schema.scenarioCharacters ScenarioCharacter.id.
Proof. keyed. Qed.
Lemma keyed_scenarioInteractions :
  Keyed schema.scenarioInteractions ScenarioInteraction.id.
Proof. keyed. Qed.
Lemma keyed_chatSessions : Keyed schema.chatSessions ChatSession.id.
Proof. keyed. Qed.
Lemma keyed_chatMessages : Keyed schema.chatMessages ChatMessage.id.
Proof. keyed. Qed.
Lemma keyed_stories : Keyed schema.stories Story.id.
Proof. keyed. Qed.
Lemma keyed_storyCharacters : Keyed schema.storyCharacters StoryCharacter.id.
Proof. keyed. Qed.
Lemma keyed_generatedImages : Keyed schema.generatedImages GeneratedImage.id.
Proof. keyed. Qed.

Section KeysBelow.
Context {R : Type} (rid : R → Z).

Lemma keysBelow_Forall (t : Table R) :
  keysBelow rid t = true ↔ Forall (λ r, rid r < autoIncrement t) (rows t).
Proof.
  unfold keysBelow. rewrite forallb_forall, Forall_forall.
  split; intros Hall r Hr.
  - apply list_elem_of_In, Hall in Hr. lia.
  - apply list_elem_of_In, Hall in Hr. lia.
Qed.

Lemma keysBelow_insert (mkRow : Z → R) (t : Table R) :
  rid (mkRow (autoIncrement t)) = autoIncrement t →
  keysBelow rid t = true → keysBelow rid (tbl_insert mkRow t).2 = true.
Proof.
  rewrite !keysBelow_Forall. unfold tbl_insert; simpl. intros Hid Hall.
  apply Forall_app. split.
  - eapply Forall_impl; [exact Hall|]. simpl. intros. lia.
  - repeat constructor. lia.
Qed.

Lemma keysBelow_update (P : R → Prop) `{!∀ r, Decision (P r)} (f : R → R)
    (t : Table R) :
  (∀ r, rid (f r) = rid r) →
  keysBelow rid t = true → keysBelow rid (tbl_update P f t) = true.
Proof.
  rewrite !keysBelow_Forall. unfold tbl_update; simpl. intros Hid Hall.
  apply Forall_fmap. eapply Forall_impl; [exact Hall|]. simpl.
  intros r Hr. destruct (decide (P r)); [by rewrite Hid | done].
Qed.

Lemma keysBelow_delete (P : R → Prop) `{!∀ r, Decision (P r)}
    (t : Table R) :
  keysBelow rid t = true → keysBelow rid (tbl_delete P t) = true.
Proof.
  rewrite !keysBelow_Forall. unfold tbl_delete; simpl.
  rewrite !Forall_forall. intros Hall r Hr.
  apply list_elem_of_filter in Hr as [_ Hr]. by apply Hall.
Qed.

Lemma onUpdateNow_id `{EqDecision R} (stamp : Timestamp → R → R)
    (set : R → R) (now : Timestamp) (r : R) :
  (∀ t x, rid (stamp t x) = rid x) → (∀ x, rid (set x) = rid x) →
  rid (onUpdateNow stamp set now r) = rid r.
Proof.
  intros Hstamp Hset. unfold onUpdateNow.
  destruct (decide (set r = r)); [done|]. by rewrite Hstamp, Hset.
Qed.
End KeysBelow.

Section KeepsKeys.
Context {R : Type} (tbl : TableRef R) (rid : R → Z).
Hypothesis Hk : Keyed tbl rid.

Lemma keeps_insertInto (mkRow : Timestamp → Z → R) :
  (∀ now i, rid (mkRow now i) = i) → keepsKeys (insertInto tbl mkRow).
Proof.
  intros Hid w Hw. unfold after, insertInto, exec; simpl.
  apply (keyed_set Hk); [done|].
  apply (keysBelow_insert rid (mkRow (clock w))); [apply Hid|].
  by apply (keyed_get Hk).
Qed.

Lemma keeps_updateWhere (P : R → Prop) `{!∀ r, Decision (P r)}
    (set : Timestamp → R → R) :
  (∀ now r, rid (set now r) = rid r) → keepsKeys (updateWhere tbl P set).
Proof.
  intros Hid w Hw. unfold after, updateWhere, exec; simpl.
  apply (keyed_set Hk); [done|].
  apply keysBelow_update; [apply Hid | by apply (keyed_get Hk)].
Qed.

Lemma keeps_deleteFrom (P : R → Prop) `{!∀ r, Decision (P r)} :
  keepsKeys (deleteFrom tbl P).
Proof.
  intros w Hw. unfold after, deleteFrom, exec; simpl.
  apply (keyed_set Hk); [done|].
  apply keysBelow_delete. by apply (keyed_get Hk).
Qed.

Lemma keeps_selectFrom {A} (P : R → Prop) `{!∀ r, Decision (P r)}
    (shape : list R → A) :
  keepsKeys (selectFrom tbl P shape).
Proof. by intros w Hw. Qed.
End KeepsKeys.

Lemma keeps_ret {A} (a : A) : keepsKeys (ret a).
Proof. by intros w Hw. Qed.

Lemma keeps_throw {A} (e : Error) : keepsKeys (throw (A := A) e).
Proof. by intros w Hw. Qed.

Lemma keeps_bind {A B} (m : M A) (k : A → M B) :
  keepsKeys m → (∀ a, keepsKeys (k a)) → keepsKeys (bind m k).
Proof.
  intros Hm Hk w Hw. specialize (Hm w Hw). unfold after, bind in *.
  destruct (m w) as [[a|e] w']; [by apply Hk | done].
Qed.

Lemma keeps_with_db {A} (off on : M A) :
  keepsKeys off → keepsKeys on →
  keepsKeys (bind getDb (λ db, if negb db then off else on)).
Proof.
  intros Hoff Hon w Hw. unfold after. rewrite with_db.
  destruct (available w); [by apply Hon | by apply Hoff].
Qed.

Lemma keeps_forOf {A} (xs : list A) (body : A → M unit) :
  (∀ x, keepsKeys (body x)) → keepsKeys (forOf xs body).
Proof.
  intros Hbody. induction xs as [|x xs IH]; simpl; [apply keeps_ret|].
  apply keeps_bind; [apply Hbody | by intros _].
Qed.

Ltac keeps f :=
  intros; unfold f; apply keeps_with_db;
  [ first [apply keeps_ret | apply keeps_throw] | ];
  repeat match goal with
         | |- keepsKeys (if ?b then _ else _) => destruct b
         | |- keepsKeys (throw _) => apply keeps_throw
         | |- keepsKeys (bind _ _) => apply keeps_bind; [|intros]
         | |- keepsKeys newDate => by intros ? ?
         | |- keepsKeys (λ w, (Ok _, w)) => by intros ? ?
         end.

Lemma keeps_upsertUser user : keepsKeys (upsertUser user).
Proof.
  unfold upsertUser. case_bool_decide; [apply keeps_throw|].
  apply keeps_with_db; [apply keeps_ret|].
  apply keeps_bind; [by intros ? ?|]. intros u w Hw.
  unfold after, exec; simpl.
  apply (keyed_set keyed_users); [done|].
  pose proof (keyed_get keyed_users _ Hw) as Hkeys. simpl in Hkeys.
  unfold insertOnDuplicateKeyUpdate.
  destruct (tbl_select _ (users (store w))).
  - by apply (keysBelow_insert User.id (Rows.user (values u) (clock w))).
  - apply keysBelow_update; [|done]. intros r.
    by apply (onUpdateNow_id User.id).
Qed.

(** Every writing function of the repository, and the copy procedure,
    keeps the ids of the store below its counters; the empty store has
    them so. *)
Theorem repository_keeps_keys :
  (∀ data, keepsKeys (createApiKey data))
  ∧ (∀ data, keepsKeys (createCharacter data))
  ∧ (∀ data, keepsKeys (createScenario data))
  ∧ (∀ data, keepsKeys (addScenarioCharacter data))
  ∧ (∀ data, keepsKeys (addScenarioInteraction data))
  ∧ (∀ data, keepsKeys (createChatSession data))
  ∧ (∀ data, keepsKeys (addChatMessage data))
  ∧ (∀ data, keepsKeys (createStory data))
  ∧ (∀ data, keepsKeys (addStoryCharacter data))
  ∧ (∀ data, keepsKeys (createGeneratedImage data))
  ∧ (∀ id, keepsKeys (updateApiKeyLastUsed id))
  ∧ (∀ id userId data, keepsKeys (updateCharacter id userId data))
  ∧ (∀ id userId data, keepsKeys (updateScenario id userId data))
  ∧ (∀ id data, keepsKeys (updateScenarioInteraction id data))
  ∧ (∀ id userId data, keepsKeys (updateChatSession id userId data))
  ∧ (∀ id userId data, keepsKeys (updateStory id userId data))
  ∧ (∀ id data, keepsKeys (updateStoryCharacter id data))
  ∧ (∀ id userId, keepsKeys (deleteApiKey id userId))
  ∧ (∀ id userId, keepsKeys (deleteCharacter id userId))
  ∧ (∀ id userId, keepsKeys (deleteScenario id userId))
  ∧ (∀ id, keepsKeys (deleteScenarioCharacter id))
  ∧ (∀ id, keepsKeys (deleteScenarioInteraction id))
  ∧ (∀ id userId, keepsKeys (deleteChatSession id userId))
  ∧ (∀ id, keepsKeys (deleteChatMessage id))
  ∧ (∀ id userId, keepsKeys (deleteStory id userId))
  ∧ (∀ id, keepsKeys (deleteStoryCharacter id))
  ∧ (∀ id userId, keepsKeys (deleteGeneratedImage id userId))
  ∧ (∀ user, keepsKeys (upsertUser user))
  ∧ (∀ caller id, keepsKeys (appRouter.scenarios.copy caller id)).
Proof.
  assert (∀ data, keepsKeys (createScenario data)) as Hcs
    by (keeps createScenario;
        by apply (keeps_insertInto _ _ keyed_scenarios)).
  assert (∀ data, keepsKeys (addScenarioCharacter data)) as Hsc
    by (keeps addScenarioCharacter;
        by apply (keeps_insertInto _ _ keyed_scenarioCharacters)).
  assert (∀ data, keepsKeys (addScenarioInteraction data)) as Hsi
    by (keeps addScenarioInteraction;
        by apply (keeps_insertInto _ _ keyed_scenarioInteractions)).
  split_and!; try done.
  - keeps createApiKey. by apply (keeps_insertInto _ _ keyed_apiKeys).
  - keeps createCharacter. by apply (keeps_insertInto _ _ keyed_characters).
  - keeps createChatSession.
    by apply (keeps_insertInto _ _ keyed_chatSessions).
  - keeps addChatMessage. by apply (keeps_insertInto _ _ keyed_chatMessages).
  - keeps createStory. by apply (keeps_insertInto _ _ keyed_stories).
  - keeps addStoryCharacter.
    by apply (keeps_insertInto _ _ keyed_storyCharacters).
  - keeps createGeneratedImage.
    by apply (keeps_insertInto _ _ keyed_generatedImages).
  - keeps updateApiKeyLastUsed.
    by apply (keeps_updateWhere _ _ keyed_apiKeys).
  - keeps updateCharacter.
    apply (keeps_updateWhere _ _ keyed_characters).
    intros now r. by apply (onUpdateNow_id Character.id).
  - keeps updateScenario.
    apply (keeps_updateWhere _ _ keyed_scenarios).
    intros now r. by apply (onUpdateNow_id Scenario.id).
  - keeps updateScenarioInteraction.
    by apply (keeps_updateWhere _ _ keyed_scenarioInteractions).
  - keeps updateChatSession.
    apply (keeps_updateWhere _ _ keyed_chatSessions).
    intros now r. by apply (onUpdateNow_id ChatSession.id).
  - keeps updateStory.
    apply (keeps_updateWhere _ _ keyed_stories).
    intros now r. by apply (onUpdateNow_id Story.id).
  - keeps updateStoryCharacter.
    by apply (keeps_updateWhere _ _ keyed_storyCharacters).
  - keeps deleteApiKey. apply (keeps_deleteFrom _ _ keyed_apiKeys).
  - keeps deleteCharacter. apply (keeps_deleteFrom _ _ keyed_characters).
  - keeps deleteScenario.
    + apply (keeps_deleteFrom _ _ keyed_scenarioInteractions).
    + apply (keeps_deleteFrom _ _ keyed_scenarioCharacters).
    + apply (keeps_deleteFrom _ _ keyed_scenarios).
  - keeps deleteScenarioCharacter.
    apply (keeps_deleteFrom _ _ keyed_scenarioCharacters).
  - keeps deleteScenarioInteraction.
    apply (keeps_deleteFrom _ _ keyed_scenarioInteractions).
  - keeps deleteChatSession.
    + apply (keeps_deleteFrom _ _ keyed_chatMessages).
    + apply (keeps_deleteFrom _ _ keyed_chatSessions).
  - keeps deleteChatMessage. apply (keeps_deleteFrom _ _ keyed_chatMessages).
  - keeps deleteStory.
    + apply (keeps_deleteFrom _ _ keyed_storyCharacters).
    + apply (keeps_deleteFrom _ _ keyed_stories).
  - keeps deleteStoryCharacter.
    apply (keeps_deleteFrom _ _ keyed_storyCharacters).
  - keeps deleteGeneratedImage.
    apply (keeps_deleteFrom _ _ keyed_generatedImages).
  - apply keeps_upsertUser.
  - intros caller id. unfold appRouter.scenarios.copy.
    apply keeps_bind.
    { unfold getScenarioById. apply keeps_with_db; [apply keeps_ret|].
      apply (keeps_selectFrom schema.scenarios). }
    intros [src|]; [|apply keeps_throw].
    apply keeps_bind; [apply Hcs|]. intros newId.
    apply keeps_bind.
    { unfold getScenarioCharacters. apply keeps_with_db; [apply keeps_ret|].
      apply (keeps_selectFrom schema.scenarioCharacters). }
    intros chars. apply keeps_bind.
    { apply keeps_forOf. intros c.
      apply keeps_bind; [apply Hsc | intros; apply keeps_ret]. }
    intros _. apply keeps_bind.
    { unfold getScenarioInteractions. apply keeps_with_db; [apply keeps_ret|].
      apply (keeps_selectFrom schema.scenarioInteractions). }
    intros inters. apply keeps_bind.
    { apply keeps_forOf. intros x.
      apply keeps_bind; [apply Hsi | intros; apply keeps_ret]. }
    intros _. apply keeps_ret.
Qed.

(** * Further properties *)

(** ** The connection provider: caching *)

(** X1: [getDb] memoizes a handle and nothing else.  Once it has given a
    handle, every later call gives it again without looking at the
    environment and leaves the process as it is.  When it gives null it
    caches nothing: the process is as before, and a later call connects as
    soon as a connection string is set and [drizzle] accepts it. *)
Theorem getDb_memoizes (w : World) :
  (connected w →
   ∀ url connects,
     let w' := set_env url connects (after getDb w) in
     getDb w' = (Ok true, w'))
  ∧ (unavailable w →
     after getDb w = w
     ∧ ∀ url, truthy url = true → connected (set_env url true w)).
Proof.
  split.
  - intros Hon url connects. cbv zeta.
    assert (_db (after getDb w) = true) as Hdb.
    { unfold after. rewrite getDb_spec. simpl.
      by apply connected_available. }
    rewrite getDb_spec. unfold available. simpl. rewrite Hdb. simpl.
    f_equal. unfold set_env, set_db. simpl. by rewrite Hdb.
  - intros Hoff. split.
    + unfold after. rewrite getDb_spec.
      rewrite (proj1 (unavailable_available w) Hoff). simpl.
      by rewrite <- (unavailable_no_handle w Hoff), set_db_same.
    + intros url Hurl. apply connected_available. unfold available. simpl.
      rewrite Hurl. by rewrite orb_true_r.
Qed.

Lemma getDb_memoizes_witness :
  connected (startWorld "owner" 0)
  ∧ getDb (set_env None false (after getDb (startWorld "owner" 0)))
    = (Ok true, set_env None false (after getDb (startWorld "owner" 0)))
  ∧ unavailable offlineWorld
  ∧ connected (set_env (Some "mysql://store") true offlineWorld).
Proof.
  split; [by vm_compute|]. split.
  - destruct (getDb_memoizes (startWorld "owner" 0)) as [Hcached _].
    apply Hcached. by vm_compute.
  - split; [by vm_compute|].
    destruct (getDb_memoizes offlineWorld) as [_ Hretry].
    destruct Hretry as [_ Hretry]; [by vm_compute|].
    by apply Hretry.
Defined.

(** ** Round trips: create, update and delete followed by get *)

Lemma head_limit_fmap {A B} (f : A → B) (l : list A) :
  head (limit 1 (f <$> l)) = f <$> head (limit 1 l).
Proof. by destruct l. Qed.

(** Selecting after an UPDATE on the same condition, when the assignment
    keeps matched rows matched: the selected rows are the updated ones. *)
Lemma tbl_select_update {R} (P : R → Prop) `{!∀ r, Decision (P r)}
    (f : R → R) (t : Table R) :
  (∀ r, P r → P (f r)) →
  tbl_select P (tbl_update P f t) = f <$> tbl_select P t.
Proof.
  intros Hkeep. unfold tbl_select, tbl_update; simpl.
  induction (rows t) as [|x l IH]; [done|].
  rewrite fmap_cons, !filter_cons. destruct (decide (P x)) as [Hx|Hx].
  - rewrite decide_True by auto. by rewrite fmap_cons, IH.
  - by rewrite decide_False.
Qed.

Section CreatedOwner.
Context {R : Type} (tbl : TableRef R) (rid ruser : R → Z).
Context (mkRow : Timestamp → Z → R).
Hypothesis Hl : Lawful tbl.
Hypothesis Hrid : ∀ now i, rid (mkRow now i) = i.

(** A create function on a reachable store gives the table's next id, and
    the new row is the one selected under that id and its user id. *)
Lemma created_then_selected (w : World) (u : Z) :
  connected w →
  keysBelow rid (tableOf tbl (store w)) = true →
  (∀ now i, ruser (mkRow now i) = u) →
  let create := bind getDb (λ db, if negb db then throw DatabaseNotAvailable
                                  else insertInto tbl mkRow) in
  let id := autoIncrement (tableOf tbl (store w)) in
  outcome create w = Ok id
  ∧ _db (after create w) = true
  ∧ filter (λ r, rid r = id ∧ ruser r = u)
      (rows (tableOf tbl (store (after create w))))
    = [mkRow (clock w) id].
Proof.
  intros Hon Hkeys Huser. cbv zeta. unfold outcome, after.
  rewrite with_db_on by done.
  unfold insertInto, exec, tbl_insert; simpl. split_and!; try done.
  rewrite (get_set Hl); simpl. rewrite filter_app, keysBelow_fresh by done.
  by rewrite filter_cons_True, filter_nil by (split; [apply Hrid|apply Huser]).
Qed.
End CreatedOwner.

Ltac created cf f tbl rid ruser row lawful keys :=
  destruct (created_then_selected tbl rid ruser row lawful (λ _ _, eq_refl)
              _ _ ltac:(eassumption) keys (λ _ _, eq_refl))
    as (Hid & Hdb & Hsel);
  split; [exact Hid|];
  unfold f, cf, outcome, after in *; rewrite with_db_cached by exact Hdb;
  unfold selectFrom, query, tbl_select; simpl in *; by rewrite Hsel.

(** X2: on a reachable store a create gives the next id of its table, and
    a get of that id under the row's user id gives back the row: the
    supplied values, NULL for the nullable columns left out, the column
    defaults for the others, and the time of the create. *)
Theorem create_then_get (w : World) :
  connected w →
  wellKeyed (store w) = true →
  (∀ data,
     let id := autoIncrement (apiKeys (store w)) in
     outcome (createApiKey data) w = Ok id
     ∧ outcome (getApiKeyById id (InsertApiKey.userId data))
         (after (createApiKey data) w)
       = Ok (Some (Rows.apiKey data (clock w) id)))
  ∧ (∀ data,
       let id := autoIncrement (characters (store w)) in
       outcome (createCharacter data) w = Ok id
       ∧ outcome (getCharacterById id (InsertCharacter.userId data))
           (after (createCharacter data) w)
         = Ok (Some (Rows.character data (clock w) id)))
  ∧ (∀ data,
       let id := autoIncrement (chatSessions (store w)) in
       outcome (createChatSession data) w = Ok id
       ∧ outcome (getChatSessionById id (InsertChatSession.userId data))
           (after (createChatSession data) w)
         = Ok (Some (Rows.chatSession data (clock w) id)))
  ∧ (∀ data,
       let id := autoIncrement (stories (store w)) in
       outcome (createStory data) w = Ok id
       ∧ outcome (getStoryById id (InsertStory.userId data))
           (after (createStory data) w)
         = Ok (Some (Rows.story data (clock w) id))).
Proof.
  intros Hon Hkeys.
  destruct (wellKeyed_tables _ Hkeys) as (Ka & Kc & Ks & Kh & Kt & Kg).
  split_and!.
  - intros data. created createApiKey getApiKeyById schema.apiKeys ApiKey.id ApiKey.userId
      (Rows.apiKey data) lawful_apiKeys Ka.
  - intros data.
    created createCharacter getCharacterById schema.characters Character.id
      Character.userId
      (Rows.character data) lawful_characters Kc.
  - intros data. created createChatSession getChatSessionById schema.chatSessions ChatSession.id
      ChatSession.userId (Rows.chatSession data) lawful_chatSessions Kh.
  - intros data. created createStory getStoryById schema.stories Story.id Story.userId
      (Rows.story data) lawful_stories Kt.
Qed.

Lemma tbl_delete_twice {R} (P : R → Prop) `{!∀ r, Decision (P r)}
    (t : Table R) :
  tbl_delete P (tbl_delete P t) = tbl_delete P t.
Proof. apply tbl_delete_none, tbl_select_delete. Qed.

(** The first call of a run, on the world known to be connected. *)
Ltac first_call :=
  match goal with
  | H : connected ?w |- _ => repeat rewrite (with_db_on _ _ w H)
  end.

Ltac deleted_get del get :=
  intros; unfold del, get, outcome, after; first_call;
  unfold deleteFrom, exec, bind; simpl;
  match goal with
  | |- context [tbl_select ?P (tbl_delete ?P ?t)] =>
      by rewrite (tbl_select_delete P t)
  end.

(** X3: after a delete under an id and a user id, a get under the same
    id and user id gives nothing. *)
Theorem delete_then_get (w : World) (id userId : Z) :
  connected w →
  outcome (getApiKeyById id userId) (after (deleteApiKey id userId) w)
  = Ok None
  ∧ outcome (getCharacterById id userId) (after (deleteCharacter id userId) w)
    = Ok None
  ∧ outcome (getChatSessionById id userId)
      (after (deleteChatSession id userId) w) = Ok None
  ∧ outcome (getStoryById id userId) (after (deleteStory id userId) w)
    = Ok None.
Proof.
  intros Hon. split_and!.
  - deleted_get deleteApiKey getApiKeyById.
  - deleted_get deleteCharacter getCharacterById.
  - deleted_get deleteChatSession getChatSessionById.
  - deleted_get deleteStory getStoryById.
Qed.

Lemma delete_then_get_witness :
  connected demoWorld
  ∧ outcome (getCharacterById 1 1) demoWorld
    = Ok (Some (Character.mk 1 1 "Ann" "a" None None None (Some false) 10 10))
  ∧ outcome (getCharacterById 1 1) (after (deleteCharacter 1 1) demoWorld)
    = Ok None.
Proof.
  split; [by vm_compute|]. split; [by vm_compute|].
  destruct (delete_then_get demoWorld 1 1) as (_ & H & _); [by vm_compute|].
  exact H.
Defined.

Ltac delete_again del :=
  cbv zeta; unfold del, after; first_call;
  unfold deleteFrom, exec, bind; simpl;
  by rewrite ?tbl_delete_twice.

(** X4: deletes are idempotent: a second delete with the same arguments
    leaves the store as the first one left it.  This holds for the
    cascading deletes as well as for the deletes by id alone. *)
Theorem delete_idempotent (w : World) (id userId : Z) :
  connected w →
  (let d := deleteApiKey id userId in
   store (after d (after d w)) = store (after d w))
  ∧ (let d := deleteCharacter id userId in
     store (after d (after d w)) = store (after d w))
  ∧ (let d := deleteScenario id userId in
     store (after d (after d w)) = store (after d w))
  ∧ (let d := deleteChatSession id userId in
     store (after d (after d w)) = store (after d w))
  ∧ (let d := deleteStory id userId in
     store (after d (after d w)) = store (after d w))
  ∧ (let d := deleteGeneratedImage id userId in
     store (after d (after d w)) = store (after d w))
  ∧ (let d := deleteScenarioCharacter id in
     store (after d (after d w)) = store (after d w))
  ∧ (let d := deleteScenarioInteraction id in
     store (after d (after d w)) = store (after d w))
  ∧ (let d := deleteChatMessage id in
     store (after d (after d w)) = store (after d w))
  ∧ (let d := deleteStoryCharacter id in
     store (after d (after d w)) = store (after d w)).
Proof.
  intros Hon. split_and!.
  - delete_again deleteApiKey.
  - delete_again deleteCharacter.
  - delete_again deleteScenario.
  - delete_again deleteChatSession.
  - delete_again deleteStory.
  - delete_again deleteGeneratedImage.
  - delete_again deleteScenarioCharacter.
  - delete_again deleteScenarioInteraction.
  - delete_again deleteChatMessage.
  - delete_again deleteStoryCharacter.
Qed.

Lemma delete_idempotent_witness :
  connected demoWorld
  ∧ store (after (deleteScenario 1 1) demoWorld) ≠ store demoWorld
  ∧ store (after (deleteScenario 1 1) (after (deleteScenario 1 1) demoWorld))
    = store (after (deleteScenario 1 1) demoWorld).
Proof.
  split; [by vm_compute|]. split; [by vm_compute|].
  destruct (delete_idempotent demoWorld 1 1) as (_ & _ & H & _);
    [by vm_compute|].
  exact H.
Defined.

Lemma head_limit_Some {A} (l : list A) (r : A) :
  head (limit 1 l) = Some r → ∃ l', l = r :: l'.
Proof. destruct l as [|x l]; [done|]. intros [= ->]. by exists l. Qed.

Lemma Ok_inj {A} (a b : A) : Ok a = Ok b → a = b.
Proof. by intros [= ->]. Qed.

Ltac keeps_owner d H :=
  unfold onUpdateNow; destruct (decide _); [done|];
  destruct d; simpl in *; by subst.

Lemma character_keeps_owner d now r :
  PartialCharacter.userId d = None →
  let r' := onUpdateNow Set_.characterStamp (Set_.character d) now r in
  Character.id r' = Character.id r ∧ Character.userId r' = Character.userId r.
Proof. intros H. split; keeps_owner d H. Qed.

Lemma chatSession_keeps_owner d now r :
  PartialChatSession.userId d = None →
  let r' := onUpdateNow Set_.chatSessionStamp (Set_.chatSession d) now r in
  ChatSession.id r' = ChatSession.id r
  ∧ ChatSession.userId r' = ChatSession.userId r.
Proof. intros H. split; keeps_owner d H. Qed.

Lemma story_keeps_owner d now r :
  PartialStory.userId d = None →
  let r' := onUpdateNow Set_.storyStamp (Set_.story d) now r in
  Story.id r' = Story.id r ∧ Story.userId r' = Story.userId r.
Proof. intros H. split; keeps_owner d H. Qed.

Lemma filter_fmap_keep {A} (Q : A → Prop) `{!∀ r, Decision (Q r)}
    (g : A → A) (l : list A) :
  (∀ r, Q (g r) ↔ Q r) → filter Q (g <$> l) = g <$> filter Q l.
Proof.
  intros Hkeep. induction l as [|x l IH]; [done|].
  rewrite fmap_cons, !filter_cons. destruct (decide (Q x)) as [Hx|Hx].
  - rewrite decide_True by by apply Hkeep. by rewrite fmap_cons, IH.
  - rewrite decide_False by by rewrite Hkeep. done.
Qed.

Lemma scenario_keeps_id d now r :
  Scenario.id (onUpdateNow Set_.scenarioStamp (Set_.scenario d) now r)
  = Scenario.id r.
Proof. unfold onUpdateNow. by destruct (decide _). Qed.

Ltac updated_get upd get empty keeps_owner_lemma updated_lemma :=
  intros d r Howner Hdata Hget;
  unfold upd, get, outcome, after in *;
  rewrite Hdata; first_call;
  match type of Hget with
  | context [bind getDb _ ?w] =>
      match goal with
      | H : connected w |- _ => rewrite (with_db_on _ _ w H) in Hget
      end
  end;
  unfold updateWhere, selectFrom, query, exec in *;
  cbn -[limit tbl_select tbl_update onUpdateNow] in *;
  rewrite tbl_select_update
    by (intros x [Hx1 Hx2];
        rewrite (proj1 (keeps_owner_lemma d _ _ Howner)),
                (proj2 (keeps_owner_lemma d _ _ Howner)); done);
  rewrite head_limit_fmap;
  rewrite (Ok_inj _ _ Hget); eexists; split; [reflexivity|];
  apply updated_lemma.

(** X5: an update of a found row is read back.  When a get under an id
    and a user id gives a row, then after a partial update under the same
    id and user id whose data leaves [userId] out, the same get gives the
    row with the supplied columns written and the others kept.  A
    scenario is read by id alone, so there the data may hold anything. *)
Theorem update_then_get (w : World) (id userId : Z) :
  connected w →
  (∀ d r,
     PartialCharacter.userId d = None →
     Set_.characterEmpty d = false →
     outcome (getCharacterById id userId) w = Ok (Some r) →
     ∃ r',
       outcome (getCharacterById id userId)
         (after (updateCharacter id userId d) w) = Ok (Some r')
       ∧ Updated.character d (clock w) r r')
  ∧ (∀ d r,
       PartialChatSession.userId d = None →
       Set_.chatSessionEmpty d = false →
       outcome (getChatSessionById id userId) w = Ok (Some r) →
       ∃ r',
         outcome (getChatSessionById id userId)
           (after (updateChatSession id userId d) w) = Ok (Some r')
         ∧ Updated.chatSession d (clock w) r r')
  ∧ (∀ d r,
       PartialStory.userId d = None →
       Set_.storyEmpty d = false →
       outcome (getStoryById id userId) w = Ok (Some r) →
       ∃ r',
         outcome (getStoryById id userId)
           (after (updateStory id userId d) w) = Ok (Some r')
         ∧ Updated.story d (clock w) r r')
  ∧ (∀ d r,
       Scenario.userId r = userId →
       Set_.scenarioEmpty d = false →
       outcome (getScenarioById id) w = Ok (Some r) →
       ∃ r',
         outcome (getScenarioById id)
           (after (updateScenario id userId d) w) = Ok (Some r')
         ∧ Updated.scenario d (clock w) r r').
Proof.
  intros Hon. split_and!.
  - updated_get updateCharacter getCharacterById Set_.characterEmpty
      character_keeps_owner updated_character.
  - updated_get updateChatSession getChatSessionById Set_.chatSessionEmpty
      chatSession_keeps_owner updated_chatSession.
  - updated_get updateStory getStoryById Set_.storyEmpty
      story_keeps_owner updated_story.
  - intros d r Howner Hdata Hget.
    unfold updateScenario, getScenarioById, outcome, after in *.
    rewrite Hdata. first_call. rewrite (with_db_on _ _ w Hon) in Hget.
    unfold updateWhere, selectFrom, query, exec in *.
    cbn -[limit tbl_select tbl_update onUpdateNow] in *.
    apply Ok_inj in Hget.
    unfold tbl_select, tbl_update in *. cbn [rows] in *.
    rewrite filter_fmap_keep.
    2: { intros x. destruct (decide _); [|done].
         by rewrite scenario_keeps_id. }
    rewrite head_limit_fmap, Hget. cbn [fmap option_fmap option_map].
    destruct (head_limit_Some _ _ Hget) as [l' Hl'].
    assert (Scenario.id r = id) as Hid.
    { assert (r ∈ filter (λ x, Scenario.id x = id) (rows (scenarios (store w))))
        as Hin by (rewrite Hl'; left).
      by apply list_elem_of_filter in Hin as [? _]. }
    rewrite decide_True by done.
    eexists; split; [reflexivity|]. apply updated_scenario.
Qed.

Lemma update_then_get_witness :
  connected demoLater
  ∧ outcome (getScenarioById 1) demoLater = Ok (Some demoScenario)
  ∧ ∃ r',
      outcome (getScenarioById 1) (after (updateScenario 1 1 retitle) demoLater)
      = Ok (Some r')
      ∧ Updated.scenario retitle 20 demoScenario r'.
Proof.
  split; [by vm_compute|]. split; [by vm_compute|].
  destruct (update_then_get demoLater 1 1) as (_ & _ & _ & H);
    [by vm_compute|].
  apply (H retitle demoScenario); by vm_compute.
Defined.

(** Selecting on a condition [Q] after an UPDATE that moves every row
    matched by [P] to [Q], when no unmatched row satisfies [Q]. *)
Lemma tbl_select_moved {R} (P Q : R → Prop) `{!∀ r, Decision (P r)}
    `{!∀ r, Decision (Q r)} (f : R → R) (t : Table R) :
  (∀ r, P r → Q (f r)) →
  filter (λ r, Q r ∧ ¬ P r) (rows t) = [] →
  tbl_select Q (tbl_update P f t) = f <$> tbl_select P t.
Proof.
  intros Hmove Hnone. unfold tbl_select, tbl_update; simpl.
  apply filter_none in Hnone.
  induction Hnone as [|x l Hx _ IH]; [done|].
  rewrite fmap_cons, !filter_cons. destruct (decide (P x)) as [HP|HP].
  - rewrite decide_True by auto. by rewrite fmap_cons, IH.
  - rewrite decide_False by tauto. done.
Qed.

Lemma tbl_select_left {R} (P Q : R → Prop) `{!∀ r, Decision (P r)}
    `{!∀ r, Decision (Q r)} (f : R → R) (t : Table R) :
  (∀ r, P r → ¬ Q (f r)) → (∀ r, Q r → P r) →
  tbl_select Q (tbl_update P f t) = [].
Proof.
  intros Hmove Hsub. unfold tbl_select, tbl_update; simpl.
  apply filter_none, Forall_fmap, Forall_forall. intros r _. simpl.
  destruct (decide (P r)); [by apply Hmove | by intros ?%Hsub].
Qed.

Ltac takes_owner d H :=
  unfold onUpdateNow; destruct (decide _) as [Heq|];
  [ rewrite <- Heq | ]; destruct d; simpl in *; by subst.

Lemma character_takes_owner d now r u :
  PartialCharacter.userId d = Some u →
  let r' := onUpdateNow Set_.characterStamp (Set_.character d) now r in
  Character.id r' = Character.id r ∧ Character.userId r' = u.
Proof. intros H. split; takes_owner d H. Qed.

Lemma chatSession_takes_owner d now r u :
  PartialChatSession.userId d = Some u →
  let r' := onUpdateNow Set_.chatSessionStamp (Set_.chatSession d) now r in
  ChatSession.id r' = ChatSession.id r ∧ ChatSession.userId r' = u.
Proof. intros H. split; takes_owner d H. Qed.

Lemma story_takes_owner d now r u :
  PartialStory.userId d = Some u →
  let r' := onUpdateNow Set_.storyStamp (Set_.story d) now r in
  Story.id r' = Story.id r ∧ Story.userId r' = u.
Proof. intros H. split; takes_owner d H. Qed.

Ltac transferred upd get takes_owner_lemma updated_lemma :=
  intros d r u Hu Hne Hfree Hget;
  assert (defined (Some u) = true) as Hdef by done;
  unfold upd, get, outcome, after in *;
  first_call;
  match goal with
  | H : connected ?w |- _ =>
      rewrite (with_db_on _ _ w H) in Hget;
      rewrite (with_db_on _ _ w H) in Hfree
  end;
  match goal with
  | |- context [if ?e then _ else _] =>
      replace e with false
        by (destruct d; simpl in *; subst; reflexivity)
  end;
  unfold updateWhere, selectFrom, query, exec in *;
  cbn -[limit tbl_select tbl_update onUpdateNow] in *;
  apply Ok_inj in Hget; apply Ok_inj in Hfree; split;
  [ rewrite tbl_select_left;
    [ done
    | intros x [Hx1 Hx2] [_ Hx3];
      rewrite (proj2 (takes_owner_lemma d _ _ _ Hu)) in Hx3; congruence
    | done ]
  | rewrite tbl_select_moved;
    [ rewrite head_limit_fmap, Hget; eexists; split; [reflexivity|];
      apply updated_lemma
    | intros x [Hx1 Hx2];
      by rewrite (proj1 (takes_owner_lemma d _ _ _ Hu)),
                 (proj2 (takes_owner_lemma d _ _ _ Hu))
    | apply filter_none, Forall_forall; intros x Hx [[Hx1 Hx2] _];
      destruct (tbl_select _ _) as [|y l] eqn:Hsel in Hfree; [|done];
      apply filter_none in Hsel; rewrite Forall_forall in Hsel;
      by apply (Hsel x Hx) ] ].

(** X6: the repository's partial update takes [userId] like any other
    column, and writing it hands the row over.  When a get under an id
    and user id [userId] gives a row, and nothing is found under that id
    for another user [u], then after an update under [userId] whose data
    has [userId = u] the old owner's get gives nothing and the get of [u]
    gives the updated row. *)
Theorem update_transfers_owner (w : World) (id userId : Z) :
  connected w →
  (∀ d r u,
     PartialCharacter.userId d = Some u → u ≠ userId →
     outcome (getCharacterById id u) w = Ok None →
     outcome (getCharacterById id userId) w = Ok (Some r) →
     let w' := after (updateCharacter id userId d) w in
     outcome (getCharacterById id userId) w' = Ok None
     ∧ ∃ r', outcome (getCharacterById id u) w' = Ok (Some r')
             ∧ Updated.character d (clock w) r r')
  ∧ (∀ d r u,
       PartialChatSession.userId d = Some u → u ≠ userId →
       outcome (getChatSessionById id u) w = Ok None →
       outcome (getChatSessionById id userId) w = Ok (Some r) →
       let w' := after (updateChatSession id userId d) w in
       outcome (getChatSessionById id userId) w' = Ok None
       ∧ ∃ r', outcome (getChatSessionById id u) w' = Ok (Some r')
               ∧ Updated.chatSession d (clock w) r r')
  ∧ (∀ d r u,
       PartialStory.userId d = Some u → u ≠ userId →
       outcome (getStoryById id u) w = Ok None →
       outcome (getStoryById id userId) w = Ok (Some r) →
       let w' := after (updateStory id userId d) w in
       outcome (getStoryById id userId) w' = Ok None
       ∧ ∃ r', outcome (getStoryById id u) w' = Ok (Some r')
               ∧ Updated.story d (clock w) r r').
Proof.
  intros Hon. split_and!.
  - transferred updateCharacter getCharacterById character_takes_owner
      updated_character.
  - transferred updateChatSession getChatSessionById chatSession_takes_owner
      updated_chatSession.
  - transferred updateStory getStoryById story_takes_owner updated_story.
Qed.

Lemma update_transfers_owner_witness :
  connected demoLater
  ∧ outcome (getCharacterById 1 1) demoLater = Ok (Some demoCharacter)
  ∧ outcome (getCharacterById 1 1)
      (after (updateCharacter 1 1 handOver) demoLater) = Ok None
  ∧ ∃ r',
      outcome (getCharacterById 1 2)
        (after (updateCharacter 1 1 handOver) demoLater) = Ok (Some r')
      ∧ Updated.character handOver 20 demoCharacter r'.
Proof.
  split; [by vm_compute|]. split; [by vm_compute|].
  destruct (update_transfers_owner demoLater 1 1) as (H & _);
    [by vm_compute|].
  apply (H handOver demoCharacter 2); [done | lia | by vm_compute..].
Defined.

(** ** Lists after a write *)

Section OrderByMore.
Context {R K : Type} (le : K → K → bool) (key : R → K).
Hypothesis le_total : ∀ a b, le a b = true ∨ le b a = true.
Hypothesis le_trans :
  ∀ a b c, le a b = true → le b c = true → le a c = true.

Local Abbreviation before := (λ a b : R, le (key a) (key b) = true).

Lemma place_first x l :
  Forall (before x) l → place le key x l = x :: l.
Proof. destruct 1 as [|y l Hy _]; simpl; [done|]. by rewrite Hy. Qed.

(** A sorted list is left as it is. *)
Lemma orderBy_sorted_id l : StronglySorted before l → orderBy le key l = l.
Proof.
  unfold orderBy. induction 1 as [|x l _ IH Hx]; simpl; [done|].
  rewrite IH. by apply place_first.
Qed.



End OrderByMore.








Lemma StronglySorted_weaken {A} (R S : A → A → Prop) (l : list A) :
  (∀ a b, R a b → S a b) → StronglySorted R l → StronglySorted S l.
Proof.
  intros HRS. induction 1 as [|x l _ IH Hx]; constructor; [done|].
  eapply Forall_impl; [exact Hx|]. apply HRS.
Qed.

(** X9: the image list is bounded by a whole limit and keeps the newest.
    With a limit that is a whole number and not negative (50 when the
    input or its limit is left out) [images.list] gives that many of the
    caller's images, or all when there are fewer: newest first, and an
    image of the caller that it leaves out is not newer than any it
    gives.  With a negative limit it gives all images of the caller,
    newest first.  With a limit that is not negative and not whole it
    rejects. *)
Theorem images_list_bounds (w : World) (caller : Z)
    (input : Optional (Optional Number)) :
  connected w →
  let n := orElse (orElse input None) (Whole 50) in
  let mine := filter (λ r, GeneratedImage.userId r = caller)
                (rowsOf schema.generatedImages w) in
  let newestFirst :=
    StronglySorted
      (λ a b, GeneratedImage.createdAt b ≤ GeneratedImage.createdAt a) in
  (∀ k, n = Whole k → 0 ≤ k →
     ∃ l,
       outcome (appRouter.images.list caller input) w = Ok l
       ∧ length l = (Z.to_nat k `min` length mine)%nat
       ∧ Forall (λ r, r ∈ mine) l
       ∧ newestFirst l
       ∧ ∀ r, r ∈ mine → r ∉ l →
              Forall (λ x, GeneratedImage.createdAt r
                           ≤ GeneratedImage.createdAt x) l)
  ∧ (geq0 n = false →
     ∃ l,
       outcome (appRouter.images.list caller input) w = Ok l
       ∧ l ≡ₚ mine ∧ newestFirst l)
  ∧ (n = NotWhole false →
     outcome (appRouter.images.list caller input) w = Throw StoreRejects).
Proof.
  intros Hon. cbv zeta.
  set (n := orElse (orElse input None) (Whole 50)).
  set (src := filter (λ r, GeneratedImage.userId r = caller)
                (rowsOf schema.generatedImages w)).
  set (L := orderBy desc GeneratedImage.createdAt src).
  assert (StronglySorted
            (λ a b, GeneratedImage.createdAt b ≤ GeneratedImage.createdAt a)
            L) as Hsorted.
  { eapply (StronglySorted_weaken
              (λ a b, desc (GeneratedImage.createdAt a)
                        (GeneratedImage.createdAt b) = true)).
    - intros a b. unfold desc. lia.
    - apply orderBy_sorted; [apply desc_total | apply desc_trans]. }
  assert (L ≡ₚ src) as Hperm by (apply orderBy_perm).
  unfold appRouter.images.list, getGeneratedImagesByUserId, outcome.
  rewrite with_db_on by done. cbn [orElse]. fold n.
  split_and!.
  - intros k -> Hk. exists (take (Z.to_nat k) L).
    cbn [geq0]. rewrite (proj2 (Z.leb_le 0 k) Hk). split; [reflexivity|].
    split_and!.
    + by rewrite length_take, Hperm.
    + apply Forall_take. rewrite Hperm. by apply Forall_forall.
    + rewrite <- (take_drop (Z.to_nat k) L) in Hsorted.
      by apply StronglySorted_app_1_l in Hsorted.
    + intros r Hr Hout. apply Forall_forall. intros x Hx.
      assert (r ∈ drop (Z.to_nat k) L) as Hdrop.
      { assert (r ∈ L) as HL by (by rewrite Hperm).
        rewrite <- (take_drop (Z.to_nat k) L) in HL.
        apply elem_of_app in HL as [?|?]; [done | done]. }
      rewrite <- (take_drop (Z.to_nat k) L) in Hsorted.
      apply (StronglySorted_app_1_elem_of _ _ _ x r Hsorted Hx Hdrop).
  - intros Hn. rewrite Hn. by exists L.
  - intros ->. reflexivity.
Qed.

Lemma images_list_bounds_witness :
  connected galleryWorld
  ∧ outcome (appRouter.images.list 1 (Some (Some (Whole 2)))) galleryWorld
    = Ok [GeneratedImage.mk 3 1 "three" None (Some 7) (Some 30)
            (Some "square") None None None 3;
          GeneratedImage.mk 2 1 "two" None (Some 7) (Some 30)
            (Some "square") None None None 2]
  ∧ ∃ l, outcome (appRouter.images.list 1 (Some (Some (Whole 2))))
           galleryWorld = Ok l
         ∧ length l = 2%nat.
Proof.
  split; [by vm_compute|]. split; [by vm_compute|].
  destruct (images_list_bounds galleryWorld 1 (Some (Some (Whole 2))))
    as (Hwhole & _); [by vm_compute|].
  destruct (Hwhole 2) as (l & Hl & Hlen & _); [done | done |].
  exists l. split; [exact Hl | exact Hlen].
Defined.

(** ** What a call leaves around it *)

Lemma surroundings_ret {A} (a : A) : keepsSurroundings (ret a).
Proof. by intros w. Qed.

Lemma surroundings_throw {A} (e : Error) : keepsSurroundings (throw (A := A) e).
Proof. by intros w. Qed.

Lemma surroundings_bind {A B} (m : M A) (k : A → M B) :
  keepsSurroundings m → (∀ a, keepsSurroundings (k a)) →
  keepsSurroundings (bind m k).
Proof.
  intros Hm Hk w. destruct (Hm w) as [Hs Hdb]. unfold after, bind in *.
  destruct (m w) as [[a|e] w']; [|done].
  destruct (Hk a w') as [Hs' Hdb']. unfold after in *. simpl in *.
  split; [congruence | auto].
Qed.

Lemma surroundings_with_db {A} (off on : M A) :
  keepsSurroundings off → keepsSurroundings on →
  keepsSurroundings (bind getDb (λ db, if negb db then off else on)).
Proof.
  intros Hoff Hon w. unfold after. rewrite with_db.
  destruct (available w) eqn:Hav.
  - destruct (Hon (set_db true w)) as [Hs Hdb]. split; [done|].
    intros _. by apply Hdb.
  - destruct (Hoff (set_db false w)) as [Hs Hdb]. split; [done|].
    intros Hw. unfold available in Hav. by rewrite Hw in Hav.
Qed.

Lemma surroundings_query {A} (q : Stmt) (f : Store → A) :
  keepsSurroundings (query q f).
Proof. by intros w. Qed.

Lemma surroundings_exec {A} (q : Stmt) (f : Timestamp → Store → A * Store) :
  keepsSurroundings (exec q f).
Proof. intros w. unfold after, exec. by destruct (f _ _). Qed.

Lemma surroundings_forOf {A} (xs : list A) (body : A → M unit) :
  (∀ x, keepsSurroundings (body x)) → keepsSurroundings (forOf xs body).
Proof.
  intros Hbody. induction xs as [|x xs IH]; simpl; [apply surroundings_ret|].
  apply surroundings_bind; [apply Hbody | by intros _].
Qed.

Lemma surroundings_copy caller id :
  keepsSurroundings (appRouter.scenarios.copy caller id).
Proof.
  unfold appRouter.scenarios.copy.
  apply surroundings_bind.
  { apply surroundings_with_db; [apply surroundings_ret|].
    apply surroundings_query. }
  intros [src|]; [|apply surroundings_throw].
  apply surroundings_bind.
  { apply surroundings_with_db; [apply surroundings_throw|].
    apply surroundings_exec. }
  intros newId. apply surroundings_bind.
  { apply surroundings_with_db; [apply surroundings_ret|].
    apply surroundings_query. }
  intros chars. apply surroundings_bind.
  { apply surroundings_forOf. intros c. apply surroundings_bind.
    - apply surroundings_with_db; [apply surroundings_throw|].
      apply surroundings_exec.
    - intros. apply surroundings_ret. }
  intros _. apply surroundings_bind.
  { apply surroundings_with_db; [apply surroundings_ret|].
    apply surroundings_query. }
  intros inters. apply surroundings_bind.
  { apply surroundings_forOf. intros x. apply surroundings_bind.
    - apply surroundings_with_db; [apply surroundings_throw|].
      apply surroundings_exec.
    - intros. apply surroundings_ret. }
  intros _. apply surroundings_ret.
Qed.

Lemma copy_stays_connected (w : World) (caller id : Z) :
  connected w → connected (after (appRouter.scenarios.copy caller id) w).
Proof.
  intros Hon. destruct (surroundings_copy caller id w) as [Hs Hdb].
  unfold surroundings in Hs. injection Hs as Hurl Hconn _ _ _.
  apply connected_available. unfold available. rewrite Hurl, Hconn.
  apply connected_available in Hon. unfold available in Hon.
  destruct (_db w) eqn:Hw; [by rewrite Hdb|].
  simpl in Hon. by rewrite Hon, orb_true_r.
Qed.

Lemma filter_and_split {A} (P Q : A → Prop) `{!∀ r, Decision (P r)}
    `{!∀ r, Decision (Q r)} (l : list A) :
  filter (λ r, P r ∧ Q r) l = filter Q (filter P l).
Proof. rewrite list_filter_filter. apply list_filter_iff. tauto. Qed.

(** The public list as a function of what it reads. *)
Lemma getPublicScenarios_reads (w1 w2 : World) (q : Optional string) :
  connected w1 → connected w2 →
  sqlLike w1 = sqlLike w2 →
  filter (λ r, Scenario.isPublic r = Some true) (rowsOf schema.scenarios w1)
  = filter (λ r, Scenario.isPublic r = Some true) (rowsOf schema.scenarios w2) →
  outcome (getPublicScenarios q) w1 = outcome (getPublicScenarios q) w2.
Proof.
  intros H1 H2 Hlike Hrows. unfold getPublicScenarios, outcome, rowsOf in *.
  rewrite !with_db_on by done. destruct (truthy q).
  - unfold bind, selectFrom, query, tbl_select; simpl in *.
    rewrite Hlike. f_equal. f_equal.
    rewrite !(filter_and_split (λ r, Scenario.isPublic r = Some true)
                (λ r, sqlLike w2 ("%" +:+ orElse q "" +:+ "%")
                        (Scenario.title r) = true)).
    by rewrite Hrows.
  - unfold selectFrom, query, tbl_select; simpl in *. by rewrite Hrows.
Qed.

(** X10: a copy is private.  Whatever the source, [scenarios.copy]
    leaves the list of public scenarios, searched or not, as it was. *)
Theorem copy_keeps_public_list (w : World) (caller id : Z)
    (q : Optional string) :
  connected w →
  outcome (getPublicScenarios q)
    (after (appRouter.scenarios.copy caller id) w)
  = outcome (getPublicScenarios q) w.
Proof.
  intros Hon.
  pose proof (copy_stays_connected w caller id Hon) as Hon'.
  destruct (surroundings_copy caller id w) as [Hs _].
  unfold surroundings in Hs. injection Hs as _ _ _ Hlike _.
  apply getPublicScenarios_reads; [done | done | done |].
  destruct (getScenarioById id w) as [[[src|]|e] w0] eqn:Hget.
  - destruct (copy_run w caller id src Hon) as (w' & Hrun & Hstore).
    { unfold outcome. by rewrite Hget. }
    unfold after, rowsOf. rewrite Hrun. simpl. rewrite Hstore. simpl.
    rewrite filter_app, filter_cons_False, filter_nil, app_nil_r; [done|].
    simpl. by intros [=].
  - unfold after, rowsOf, appRouter.scenarios.copy, bind.
    rewrite Hget. simpl.
    unfold getScenarioById in Hget. rewrite with_db_on in Hget by done.
    unfold selectFrom, query in Hget. by injection Hget as _ <-.
  - unfold getScenarioById in Hget. rewrite with_db_on in Hget by done.
    unfold selectFrom, query in Hget. done.
Qed.

Lemma copy_keeps_public_list_witness :
  connected demoWorld
  ∧ outcome (getPublicScenarios None)
      (after (appRouter.scenarios.copy 2 1) demoWorld)
    = outcome (getPublicScenarios None) demoWorld.
Proof.
  split; [by vm_compute|].
  apply (copy_keeps_public_list demoWorld 2 1 None). by vm_compute.
Defined.

Lemma create_then_get_witness :
  connected demoWorld
  ∧ wellKeyed (store demoWorld) = true
  ∧ outcome (createCharacter newCharacter) demoWorld
    = Ok (autoIncrement (characters (store demoWorld)))
  ∧ outcome (getCharacterById (autoIncrement (characters (store demoWorld)))
               (InsertCharacter.userId newCharacter))
      (after (createCharacter newCharacter) demoWorld)
    = Ok (Some (Rows.character newCharacter (clock demoWorld)
                  (autoIncrement (characters (store demoWorld))))).
Proof.
  split; [by vm_compute|]. split; [by vm_compute|].
  destruct (create_then_get demoWorld) as (_ & Hc & _);
    [by vm_compute | by vm_compute |].
  exact (Hc newCharacter).
Defined.

(** ** The router's reads *)

Lemma head_limit_in {A} (l : list A) (r : A) :
  head (limit 1 l) = Some r → r ∈ l.
Proof. destruct l as [|x l]; [done|]. intros [= ->]. apply elem_of_cons; auto. Qed.

Lemma head_limit_filter {A} (P : A → Prop) `{!∀ r, Decision (P r)}
    (l : list A) (x : A) :
  x ∈ l → P x → ∃ r, head (limit 1 (filter P l)) = Some r ∧ r ∈ l ∧ P r.
Proof.
  intros Hx HP.
  assert (x ∈ filter P l) as Hin by (by apply list_elem_of_filter).
  destruct (filter P l) as [|r l'] eqn:Hf; [by apply elem_of_nil in Hin|].
  exists r. split; [done|].
  assert (r ∈ filter P l) as Hr by (rewrite Hf; apply elem_of_cons; auto).
  apply list_elem_of_filter in Hr. tauto.
Qed.

Lemma read_run {R A} (tbl : TableRef R) (P : R → Prop)
    `{!∀ r, Decision (P r)} (shape : list R → A) (off : M A) (w : World) :
  connected w →
  bind getDb (λ db, if negb db then off else selectFrom tbl P shape) w
  = (Ok (shape (tbl_select P (tableOf tbl (store w)))),
     executed (SELECT (tableName tbl)) (store w) (set_db true w)).
Proof. intros Hon. by rewrite with_db_on. Qed.

Lemma connected_statement (q : Stmt) (s : Store) (w : World) :
  connected (executed q s (set_db true w)).
Proof. by apply connected_available. Qed.

(** X11: [chat.getSession] and [stories.get] answer the owner only, and
    [scenarios.get] answers everyone.  When the caller has no session
    (story) of the given id the procedure gives null after one SELECT on
    the parent table: the messages (characters) are not read.  When the
    caller has one, the procedure gives a row of that id and of the caller
    together with the children listed under the id.  [scenarios.get]
    gives a scenario of the given id with its characters and interactions
    whenever one is stored, whoever owns it and public or not. *)
Theorem router_get_guard (w : World) (caller id : Z) :
  connected w →
  ((∀ s, s ∈ rowsOf schema.chatSessions w → ChatSession.id s = id →
         ChatSession.userId s ≠ caller) →
   appRouter.chat.getSession caller id w
   = (Ok None, executed (SELECT T_chatSessions) (store w) (set_db true w)))
  ∧ (∀ s, s ∈ rowsOf schema.chatSessions w → ChatSession.id s = id →
          ChatSession.userId s = caller →
          ∃ s' msgs,
            outcome (appRouter.chat.getSession caller id) w
            = Ok (Some (s', msgs))
            ∧ s' ∈ rowsOf schema.chatSessions w
            ∧ ChatSession.id s' = id ∧ ChatSession.userId s' = caller
            ∧ outcome (getChatMessages id) w = Ok msgs)
  ∧ ((∀ s, s ∈ rowsOf schema.stories w → Story.id s = id →
           Story.userId s ≠ caller) →
     appRouter.stories.get caller id w
     = (Ok None, executed (SELECT T_stories) (store w) (set_db true w)))
  ∧ (∀ s, s ∈ rowsOf schema.stories w → Story.id s = id →
          Story.userId s = caller →
          ∃ s' chars,
            outcome (appRouter.stories.get caller id) w
            = Ok (Some (s', chars))
            ∧ s' ∈ rowsOf schema.stories w
            ∧ Story.id s' = id ∧ Story.userId s' = caller
            ∧ outcome (getStoryCharacters id) w = Ok chars)
  ∧ (∀ s, s ∈ rowsOf schema.scenarios w → Scenario.id s = id →
          ∃ s' chars inters,
            outcome (appRouter.scenarios.get caller id) w
            = Ok (Some (s', chars, inters))
            ∧ s' ∈ rowsOf schema.scenarios w ∧ Scenario.id s' = id
            ∧ outcome (getScenarioCharacters id) w = Ok chars
            ∧ outcome (getScenarioInteractions id) w = Ok inters).
Proof.
  intros Hon. split_and!.
  - intros Hnone.
    unfold appRouter.chat.getSession, getChatSessionById, bind at 1.
    rewrite with_db_on by done.
    unfold selectFrom, query, tbl_select; simpl.
    replace (filter _ _) with (@nil ChatSession.t); [done|].
    symmetry. apply filter_none, Forall_forall. intros s Hs [Hid Hu].
    by apply (Hnone s).
  - intros s Hs Hid Hu.
    destruct (head_limit_filter
                (λ r, ChatSession.id r = id ∧ ChatSession.userId r = caller)
                _ s Hs (conj Hid Hu)) as (s' & Hhead & Hin & Hid' & Hu').
    unfold appRouter.chat.getSession, outcome, bind at 1.
    unfold getChatSessionById, getChatMessages. rewrite read_run by done.
    unfold tbl_select, rowsOf in *. simpl in *. rewrite Hhead.
    unfold bind at 1. rewrite !read_run by (done || apply connected_statement).
    by eexists _, _.
  - intros Hnone.
    unfold appRouter.stories.get, getStoryById, bind at 1.
    rewrite with_db_on by done.
    unfold selectFrom, query, tbl_select; simpl.
    replace (filter _ _) with (@nil Story.t); [done|].
    symmetry. apply filter_none, Forall_forall. intros s Hs [Hid Hu].
    by apply (Hnone s).
  - intros s Hs Hid Hu.
    destruct (head_limit_filter
                (λ r, Story.id r = id ∧ Story.userId r = caller)
                _ s Hs (conj Hid Hu)) as (s' & Hhead & Hin & Hid' & Hu').
    unfold appRouter.stories.get, outcome, bind at 1.
    unfold getStoryById, getStoryCharacters. rewrite read_run by done.
    unfold tbl_select, rowsOf in *. simpl in *. rewrite Hhead.
    unfold bind at 1. rewrite !read_run by (done || apply connected_statement).
    by eexists _, _.
  - intros s Hs Hid.
    destruct (head_limit_filter (λ r, Scenario.id r = id) _ s Hs Hid)
      as (s' & Hhead & Hin & Hid').
    unfold appRouter.scenarios.get, outcome, bind at 1.
    unfold getScenarioById, getScenarioCharacters, getScenarioInteractions.
    rewrite read_run by done.
    unfold tbl_select, rowsOf in *. simpl in *. rewrite Hhead.
    unfold bind at 1. rewrite !read_run by (done || apply connected_statement).
    unfold bind at 1. rewrite !read_run by (done || apply connected_statement).
    by eexists _, _, _.
Qed.

Lemma router_get_guard_witness :
  connected demoWorld
  ∧ appRouter.chat.getSession 2 1 demoWorld
    = (Ok None,
       executed (SELECT T_chatSessions) (store demoWorld)
         (set_db true demoWorld)).
Proof.
  split; [by vm_compute|].
  destruct (router_get_guard demoWorld 2 1) as (Hnone & _); [by vm_compute|].
  apply Hnone. intros s Hs _ Hu. vm_compute in Hs.
  apply list_elem_of_singleton in Hs. by subst s.
Defined.

(** ** Login: upsert, then read *)

Lemma upsert_values_fields (owner : string) (now : Timestamp)
    (user : InsertUser.t) :
  let v := values (buildUpsert owner now user) in
  InsertUser.openId v = InsertUser.openId user
  ∧ orNull (InsertUser.name v) = orNull (InsertUser.name user)
  ∧ orNull (InsertUser.email v) = orNull (InsertUser.email user)
  ∧ orNull (InsertUser.loginMethod v) = orNull (InsertUser.loginMethod user)
  ∧ orElse (InsertUser.role v) Role.user
    = orElse (InsertUser.role user)
        (if bool_decide (InsertUser.openId user = owner) then Role.admin
         else Role.user)
  ∧ orElse (InsertUser.lastSignedIn v) now
    = orElse (InsertUser.lastSignedIn user) now.
Proof.
  destruct user as [o [n|] [e|] [l|] [r|] [t|]];
    unfold buildUpsert;
    cbn [foldl textFields assignNullable readField InsertUser.openId
         InsertUser.name InsertUser.email InsertUser.loginMethod
         InsertUser.role InsertUser.lastSignedIn];
    rewrite ?nullish_null;
    destruct (bool_decide (o = owner)); vm_compute; repeat split.
Qed.

(** What the update set of a login makes of the row that holds the key. *)
Lemma upsert_applied (owner : string) (now : Timestamp)
    (user : InsertUser.t) (old : User.t) :
  let r := applyUpdateSet (updateSet (buildUpsert owner now user)) old in
  User.id r = User.id old
  ∧ User.openId r = User.openId old
  ∧ User.createdAt r = User.createdAt old
  ∧ User.updatedAt r = User.updatedAt old
  ∧ column (InsertUser.name user) (User.name old) (User.name r)
  ∧ column (InsertUser.email user) (User.email old) (User.email r)
  ∧ column (InsertUser.loginMethod user) (User.loginMethod old)
      (User.loginMethod r)
  ∧ column (InsertUser.role user)
      (if bool_decide (InsertUser.openId user = owner) then Role.admin
       else User.role old)
      (User.role r)
  ∧ column (InsertUser.lastSignedIn user)
      (if onlyOpenId user
          && negb (bool_decide (InsertUser.openId user = owner))
       then now else User.lastSignedIn old)
      (User.lastSignedIn r).
Proof.
  destruct (upsert_set_fields owner now user) as (Hn & He & Hl & Hr & Ht).
  cbv zeta in *. unfold applyUpdateSet. simpl.
  rewrite Hn, He, Hl, Hr, Ht. clear Hn He Hl Hr Ht.
  split_and!; try done.
  - by destruct (InsertUser.name user) as [[?|]|].
  - by destruct (InsertUser.email user) as [[?|]|].
  - by destruct (InsertUser.loginMethod user) as [[?|]|].
  - destruct (InsertUser.role user); simpl; [done|].
    by destruct (bool_decide _).
  - destruct (InsertUser.lastSignedIn user); simpl; [done|].
    by destruct (_ && _).
Qed.

Lemma userStamp_undo (now : Timestamp) (r old : User.t) :
  User.updatedAt r = User.updatedAt old →
  userStamp (User.updatedAt old) (userStamp now r) = r.
Proof. destruct r; simpl. by intros <-. Qed.

(** X12: a login is read back.  After [upsertUser] with a non-empty
    [openId] on a reachable store, [getUserByOpenId] gives a row of that
    [openId].  For an identity not known before it is the new row: the
    supplied values, NULL for what was left out, role admin for the owner
    identity and user otherwise unless a role was supplied, and the time
    of the login.  For a known identity it is the row found before with
    the supplied columns written; [role] left out becomes admin for the
    owner identity and is kept otherwise; [lastSignedIn] left out is
    kept, except that a login which supplies nothing at all and is not
    the owner's sets it to the time of the login.  When none of these
    columns changes its value the row is the row found before, [updatedAt]
    included; when one does, [updatedAt] is the time of the login. *)
Theorem upsert_then_get (w : World) (user : InsertUser.t) :
  connected w →
  InsertUser.openId user ≠ "" →
  let o := InsertUser.openId user in
  let owner := bool_decide (o = ownerOpenId w) in
  ∃ r,
    outcome (getUserByOpenId o) (after (upsertUser user) w) = Ok (Some r)
    ∧ User.openId r = o
    ∧ match outcome (getUserByOpenId o) w with
      | Ok (Some old) =>
          User.id r = User.id old
          ∧ User.createdAt r = User.createdAt old
          ∧ column (InsertUser.name user) (User.name old) (User.name r)
          ∧ column (InsertUser.email user) (User.email old) (User.email r)
          ∧ column (InsertUser.loginMethod user) (User.loginMethod old)
              (User.loginMethod r)
          ∧ column (InsertUser.role user)
              (if owner then Role.admin else User.role old) (User.role r)
          ∧ column (InsertUser.lastSignedIn user)
              (if onlyOpenId user && negb owner then clock w
               else User.lastSignedIn old)
              (User.lastSignedIn r)
          ∧ (r = old
             ∨ userStamp (User.updatedAt old) r ≠ old
               ∧ User.updatedAt r = clock w)
      | _ =>
          r = User.mk (autoIncrement (users (store w))) o
                (orNull (InsertUser.name user))
                (orNull (InsertUser.email user))
                (orNull (InsertUser.loginMethod user))
                (orElse (InsertUser.role user)
                   (if owner then Role.admin else Role.user))
                (clock w) (clock w)
                (orElse (InsertUser.lastSignedIn user) (clock w))
      end.
Proof.
  intros Hon Ho. cbv zeta.
  destruct (upsertUser_run w user Hon Ho) as (Hrows & Hdb & _ & _).
  set (U := buildUpsert (ownerOpenId w) (clock w) user) in *.
  destruct (upsert_values_fields (ownerOpenId w) (clock w) user)
    as (Vo & Vn & Ve & Vl & Vr & Vt).
  fold U in Vo, Vn, Ve, Vl, Vr, Vt. cbv zeta in *.
  unfold getUserByOpenId, outcome.
  rewrite (read_run schema.users _ _ _ w Hon).
  rewrite with_db_cached by exact Hdb.
  unfold selectFrom, query, tbl_select, rowsOf in *. simpl in *.
  rewrite Hrows. unfold insertOnDuplicateKeyUpdate, tbl_select.
  rewrite Vo.
  destruct (filter (λ r, User.openId r = InsertUser.openId user)
              (rows (users (store w)))) as [|old rest] eqn:Hf.
  - simpl. rewrite filter_app, Hf. simpl.
    rewrite filter_cons_True by (simpl; exact Vo). simpl.
    eexists. split; [done|]. split; [exact Vo|].
    unfold Rows.user. by rewrite Vo, Vn, Ve, Vl, Vr, Vt.
  - pose proof (tbl_select_update
                  (λ r, User.openId r = InsertUser.openId user)
                  (onUpdateNow userStamp (applyUpdateSet (updateSet U))
                     (clock w))
                  (users (store w))) as Hsel.
    unfold tbl_select in Hsel. rewrite Hsel, Hf; clear Hsel.
    2:{ intros r Hr. unfold onUpdateNow. destruct (decide _); [done|].
        by destruct r. }
    simpl.
    assert (User.openId old = InsertUser.openId user) as Hold.
    { assert (old ∈ filter (λ r, User.openId r = InsertUser.openId user)
                      (rows (users (store w)))) as Hin
        by (rewrite Hf; apply elem_of_cons; auto).
      apply list_elem_of_filter in Hin. tauto. }
    destruct (upsert_applied (ownerOpenId w) (clock w) user old)
      as (Ai & Ao & Ac & Au & An & Ae & Al & Ar & At).
    fold U in Ai, Ao, Ac, Au, An, Ae, Al, Ar, At. cbv zeta in *.
    eexists. split; [done|].
    unfold onUpdateNow. destruct (decide _) as [Hsame|Hdiff].
    + rewrite Hsame in *. split; [done|]. split_and!; try done. by left.
    + simpl. split; [congruence|]. split_and!; try done. right.
      split; [|done]. intros Heq. apply Hdiff.
      rewrite <- (userStamp_undo (clock w) _ old Au). exact Heq.
Qed.

Lemma upsert_then_get_witness :
  connected alWorld
  ∧ InsertUser.openId alLogin ≠ ""
  ∧ ∃ r,
      outcome (getUserByOpenId (InsertUser.openId alLogin))
        (after (upsertUser alLogin) alWorld) = Ok (Some r)
      ∧ User.openId r = InsertUser.openId alLogin.
Proof.
  split; [by vm_compute|]. split; [done|].
  destruct (upsert_then_get alWorld alLogin) as (r & Hget & Ho & _);
    [by vm_compute | done |].
  exists r. split; [exact Hget | exact Ho].
Defined.

(** The login of [alLogin] at time 9, after the first login at time 5:
    the name is written, the login method stays NULL, and the time of the
    last sign-in stays. *)
Example upsert_then_get_example :
  outcome (getUserByOpenId "x") (after (upsertUser alLogin) alWorld)
  = Ok (Some (User.mk 1 "x" (Some "Alan") None None Role.user 5 9 5)).
Proof. by vm_compute. Qed.

Lemma tbl_update_others {R} (P : R → Prop) `{!∀ r, Decision (P r)}
    (f : R → R) (t : Table R) :
  (∀ r, P r → P (f r)) →
  filter (λ r, ¬ P r) (rows (tbl_update P f t)) = filter (λ r, ¬ P r) (rows t).
Proof.
  intros Hkeep. unfold tbl_update; simpl.
  induction (rows t) as [|x l IH]; [done|].
  rewrite fmap_cons, !filter_cons, IH. destruct (decide (P x)) as [Hx|Hx].
  - rewrite !decide_False; [done | tauto | ]. intros Hn. by apply Hn, Hkeep.
  - by rewrite !decide_True.
Qed.

Lemma tbl_update_column {R K} (P : R → Prop) `{!∀ r, Decision (P r)}
    (f : R → R) (key : R → K) (t : Table R) :
  (∀ r, key (f r) = key r) →
  key <$> rows (tbl_update P f t) = key <$> rows t.
Proof.
  intros Hkey. unfold tbl_update; simpl. rewrite <- list_fmap_compose.
  apply list_fmap_ext. intros i r _. simpl. by destruct (decide (P r)).
Qed.

Lemma upsert_keeps_openId (set : gmap string SqlValue) (now : Timestamp)
    (r : User.t) :
  User.openId (onUpdateNow userStamp (applyUpdateSet set) now r)
  = User.openId r.
Proof. unfold onUpdateNow. by destruct (decide _). Qed.

(** X13: a login touches one identity.  [upsertUser] writes the users
    table only; rows of other identities are as before; and the column of
    [openId]s is the one before, with the login's [openId] appended when
    it was not there.  So [openId]s that were unique stay unique. *)
Theorem upsert_keeps_unique_openId (w : World) (user : InsertUser.t) :
  connected w →
  InsertUser.openId user ≠ "" →
  let o := InsertUser.openId user in
  let w' := after (upsertUser user) w in
  (∃ t, store w' = set_users t (store w))
  ∧ filter (λ r, User.openId r ≠ o) (rowsOf schema.users w')
    = filter (λ r, User.openId r ≠ o) (rowsOf schema.users w)
  ∧ User.openId <$> rowsOf schema.users w'
    = (User.openId <$> rowsOf schema.users w)
      ++ (if decide (o ∈ User.openId <$> rowsOf schema.users w) then []
          else [o])
  ∧ (NoDup (User.openId <$> rowsOf schema.users w) →
     NoDup (User.openId <$> rowsOf schema.users w')).
Proof.
  intros Hon Ho. cbv zeta.
  destruct (upsertUser_run w user Hon Ho) as (Hrows & _).
  set (U := buildUpsert (ownerOpenId w) (clock w) user) in *.
  destruct (upsert_values_fields (ownerOpenId w) (clock w) user)
    as (Vo & _). fold U in Vo. cbv zeta in Vo.
  assert (User.openId <$> rowsOf schema.users (after (upsertUser user) w)
          = (User.openId <$> rowsOf schema.users w)
            ++ (if decide (InsertUser.openId user
                           ∈ User.openId <$> rowsOf schema.users w)
                then [] else [InsertUser.openId user])) as Hcol.
  { rewrite Hrows. unfold insertOnDuplicateKeyUpdate, tbl_select, rowsOf.
    simpl. rewrite Vo.
    destruct (filter (λ r, User.openId r = InsertUser.openId user)
                (rows (users (store w)))) as [|old rest] eqn:Hf.
    - simpl. rewrite fmap_app. simpl. rewrite Vo.
      rewrite decide_False; [done|].
      intros (r & Hr & Hin)%list_elem_of_fmap.
      apply filter_none in Hf.
      by apply (proj1 (Forall_forall _ _) Hf r).
    - rewrite (tbl_update_column _ _ User.openId)
        by (intros; apply upsert_keeps_openId).
      rewrite decide_True; [by rewrite app_nil_r|].
      apply list_elem_of_fmap. exists old. 
      assert (old ∈ filter (λ r, User.openId r = InsertUser.openId user)
                        (rows (users (store w)))) as Hin
        by (rewrite Hf; apply elem_of_cons; auto).
      apply list_elem_of_filter in Hin. destruct Hin as [Hold Hin].
      by split. }
  split_and!.
  - unfold upsertUser, after. rewrite bool_decide_eq_false_2 by done.
    rewrite with_db_on by done. simpl. by eexists.
  - rewrite Hrows. unfold insertOnDuplicateKeyUpdate, tbl_select, rowsOf.
    simpl. rewrite Vo.
    destruct (filter (λ r, User.openId r = InsertUser.openId user)
                (rows (users (store w)))) as [|old rest] eqn:Hf.
    + simpl. rewrite filter_app, filter_cons_False, filter_nil, app_nil_r;
        [done|]. simpl. intros Hn. by apply Hn.
    + apply (tbl_update_others
               (λ r, User.openId r = InsertUser.openId user)).
      intros r Hr. by rewrite upsert_keeps_openId.
  - exact Hcol.
  - intros Hnd. rewrite Hcol. destruct (decide _) as [Hin|Hout].
    + by rewrite app_nil_r.
    + apply NoDup_app. split; [done|]. split; [|apply NoDup_singleton].
      intros x Hx ->%list_elem_of_singleton. by apply Hout.
Qed.

Lemma upsert_keeps_unique_openId_witness :
  connected alWorld
  ∧ InsertUser.openId alLogin ≠ ""
  ∧ User.openId <$> rowsOf schema.users (after (upsertUser alLogin) alWorld)
    = ["x"].
Proof.
  split; [by vm_compute|]. split; [done|].
  destruct (upsert_keeps_unique_openId alWorld alLogin)
    as (_ & _ & Hcol & _); [by vm_compute | done |].
  rewrite Hcol. by vm_compute.
Defined.

(** ** Copy, then read *)

Lemma Forall_imap {A B} (Q : A → Prop) (P : B → Prop) (f : nat → A → B)
    (l : list A) :
  (∀ i x, Q x → P (f i x)) → Forall Q l → Forall P (imap f l).
Proof.
  intros Hf Hl. revert f Hf.
  induction Hl as [|x l Hx _ IH]; intros f Hf; simpl; [done|].
  constructor; [by apply Hf|]. apply IH. intros i y. apply Hf.
Qed.

(** Rows made one by one from a sorted list, each with the key of the row
    it is made from, are sorted. *)
Lemma StronglySorted_imap {A K} (le : K → K → bool) (key : A → K)
    (f : nat → A → A) (l : list A) :
  (∀ i x, key (f i x) = key x) →
  StronglySorted (λ a b, le (key a) (key b) = true) l →
  StronglySorted (λ a b, le (key a) (key b) = true) (imap f l).
Proof.
  intros Hf Hl. revert f Hf.
  induction Hl as [|x l _ IH Hx]; intros f Hf; simpl; [constructor|].
  constructor; [apply IH; intros; apply Hf|].
  apply (Forall_imap (λ b, le (key x) (key b) = true)); [|done].
  intros i y Hy. unfold compose. by rewrite !Hf.
Qed.

Lemma filter_app_none {A} (P : A → Prop) `{!∀ r, Decision (P r)}
    (l k : list A) :
  Forall (λ r, ¬ P r) k → filter P (l ++ k) = filter P l.
Proof.
  intros Hk. rewrite filter_app.
  by rewrite (proj2 (filter_none P k) Hk), app_nil_r.
Qed.

Lemma filter_app_only {A} (P : A → Prop) `{!∀ r, Decision (P r)}
    (l k : list A) :
  Forall (λ r, ¬ P r) l → Forall P k → filter P (l ++ k) = k.
Proof.
  intros Hl Hk. rewrite filter_app.
  by rewrite (proj2 (filter_none P l) Hl), (filter_all P k Hk).
Qed.

(** X14: a copy is read back like its source.  When [scenarios.get]
    gives a scenario whose title with " (Copy)" appended fits the title
    column, with characters of pairwise different [orderIndex] and
    interactions of pairwise different [orderIndex], and no character or
    interaction is stored under the id the copy will get, then after
    [scenarios.copy] a get of the new id gives the copy with the clones of
    those characters and interactions in the same order, and a get of the
    source gives what it gave before. *)
Theorem copy_then_get (w : World) (caller id : Z) (src : Scenario.t)
    (chars : list ScenarioCharacter.t)
    (inters : list ScenarioInteraction.t) :
  connected w →
  wellKeyed (store w) = true →
  outcome (appRouter.scenarios.get caller id) w
  = Ok (Some (src, chars, inters)) →
  (String.length (Scenario.title src +:+ " (Copy)")
   ≤ Scenario.titleLength)%nat →
  NoDup (ScenarioCharacter.orderIndex <$> chars) →
  NoDup (ScenarioInteraction.orderIndex <$> inters) →
  let newId := autoIncrement (scenarios (store w)) in
  Forall (λ c, ScenarioCharacter.scenarioId c ≠ newId)
    (rowsOf schema.scenarioCharacters w) →
  Forall (λ x, ScenarioInteraction.scenarioId x ≠ newId)
    (rowsOf schema.scenarioInteractions w) →
  let w' := after (appRouter.scenarios.copy caller id) w in
  outcome (appRouter.scenarios.copy caller id) w = Ok newId
  ∧ outcome (appRouter.scenarios.get caller id) w'
    = Ok (Some (src, chars, inters))
  ∧ outcome (appRouter.scenarios.get caller newId) w'
    = Ok (Some
            (Scenario.mk newId caller (Scenario.title src +:+ " (Copy)")
               (Scenario.promptDescription src)
               (Scenario.displayDescription src) (Scenario.imageUrl src)
               (Some false) (clock w) (clock w),
             imap (λ i c,
                     ScenarioCharacter.mk
                       (autoIncrement (scenarioCharacters (store w))
                        + Z.of_nat i)
                       newId None (ScenarioCharacter.name c)
                       (ScenarioCharacter.label c)
                       (ScenarioCharacter.promptDescription c)
                       (ScenarioCharacter.isUserCharacter c)
                       (ScenarioCharacter.orderIndex c))
                  chars,
             imap (λ i x,
                     ScenarioInteraction.mk
                       (autoIncrement (scenarioInteractions (store w))
                        + Z.of_nat i)
                       newId (ScenarioInteraction.interactionType x)
                       (ScenarioInteraction.characterLabel x)
                       (ScenarioInteraction.content x)
                       (ScenarioInteraction.isSticky x)
                       (ScenarioInteraction.orderIndex x))
                  inters)).
Proof.
  intros Hon Hkeys Hget _ _ _ newId Hnc Hni. cbv zeta.
  (* what the get in [w] says *)
  unfold appRouter.scenarios.get, outcome, bind at 1 in Hget.
  unfold getScenarioById, getScenarioCharacters, getScenarioInteractions
    in Hget.
  rewrite read_run in Hget by done.
  destruct (head (limit 1 (tbl_select (λ r, Scenario.id r = id)
                             (tableOf schema.scenarios (store w)))))
    as [src'|] eqn:Hhead; [|done].
  unfold bind at 1 in Hget.
  rewrite read_run in Hget by apply connected_statement.
  unfold bind at 1 in Hget.
  rewrite read_run in Hget by apply connected_statement.
  simpl in Hget. injection Hget as -> Hchars Hinters.
  assert (outcome (getScenarioById id) w = Ok (Some src)) as Hsrc.
  { unfold getScenarioById, outcome. rewrite read_run by done.
    cbn [fst]. by rewrite Hhead. }
  (* the source is an older row *)
  pose proof (head_limit_in _ _ Hhead) as Hin.
  apply list_elem_of_filter in Hin. destruct Hin as [Hid Hin].
  destruct (wellKeyed_tables _ Hkeys) as (_ & _ & Ks & _).
  pose proof (proj1 (keysBelow_Forall Scenario.id _) Ks) as Hbelow.
  assert (id < newId) as Hlt.
  { rewrite Forall_forall in Hbelow. specialize (Hbelow src Hin).
    subst newId. lia. }
  (* the run of the copy *)
  destruct (copy_run w caller id src Hon Hsrc) as (w' & Hrun & Hstore).
  pose proof (copy_stays_connected w caller id Hon) as Hon'.
  unfold after, outcome in *. rewrite Hrun in *. simpl in Hon' |- *.
  split; [done|].
  unfold appRouter.scenarios.get.
  unfold getScenarioById, getScenarioCharacters, getScenarioInteractions.
  unfold rowsOf, tbl_select in *. simpl in Hnc, Hni, Hchars, Hinters, Hhead.
  split.
  - unfold bind at 1. rewrite read_run by done.
    rewrite Hstore. unfold tbl_select. simpl.
    rewrite filter_app_none by (repeat constructor; simpl; lia).
    rewrite Hhead.
    unfold bind at 1. rewrite read_run by apply connected_statement.
    unfold bind at 1. rewrite read_run by apply connected_statement.
    unfold tbl_select. simpl. rewrite ?Hstore. simpl.
    rewrite !filter_app_none; [by rewrite Hchars, Hinters| |].
    + apply (Forall_imap (λ _, True)); [|by apply Forall_true].
      intros i x _. simpl. lia.
    + apply (Forall_imap (λ _, True)); [|by apply Forall_true].
      intros i x _. simpl. lia.
  - unfold bind at 1. rewrite read_run by done.
    rewrite Hstore. unfold tbl_select. simpl.
    rewrite filter_app_only; [| |by repeat constructor].
    2:{ apply Forall_forall. intros r Hr Heq.
        rewrite Forall_forall in Hbelow. specialize (Hbelow r Hr).
        subst newId. lia. }
    unfold limit. cbn [take head].
    unfold bind at 1. rewrite read_run by apply connected_statement.
    unfold bind at 1. rewrite read_run by apply connected_statement.
    unfold tbl_select. simpl. rewrite ?Hstore. simpl.
    rewrite !filter_app_only; try done.
    2:{ apply (Forall_imap (λ _, True)); [done | by apply Forall_true]. }
    2:{ apply (Forall_imap (λ _, True)); [done | by apply Forall_true]. }
    rewrite Hchars, Hinters.
    rewrite !orderBy_sorted_id; [done| |].
    + apply StronglySorted_imap; [done|]. rewrite <- Hinters.
      apply orderBy_sorted; [apply ascNull_total | apply ascNull_trans].
    + apply StronglySorted_imap; [done|]. rewrite <- Hchars.
      apply orderBy_sorted; [apply ascNull_total | apply ascNull_trans].
Qed.

Lemma copy_then_get_witness :
  connected demoWorld
  ∧ wellKeyed (store demoWorld) = true
  ∧ outcome (appRouter.scenarios.get 2 1) demoWorld
    = Ok (Some (demoScenario, demoCharacters, demoInteractions))
  ∧ outcome (appRouter.scenarios.copy 2 1) demoWorld = Ok 2
  ∧ outcome (appRouter.scenarios.get 2 2)
      (after (appRouter.scenarios.copy 2 1) demoWorld)
    = Ok (Some
            (Scenario.mk 2 2 "Tavern (Copy)" (Some "an inn") None None
               (Some false) 10 10,
             [ScenarioCharacter.mk 3 2 None "Ann" "a" None (Some false)
                (Some 0);
              ScenarioCharacter.mk 4 2 None "Bob" "b" None (Some false)
                (Some 2)],
             [ScenarioInteraction.mk 2 2 InteractionType.text None "hi"
                (Some false) (Some 0)])).
Proof.
  split; [by vm_compute|]. split; [by vm_compute|].
  split; [by vm_compute|].
  destruct (copy_then_get demoWorld 2 1 demoScenario demoCharacters
              demoInteractions)
    as (Hcopy & _ & Hnew);
    [by vm_compute | by vm_compute | by vm_compute | vm_compute; lia | | | |
    |].
  - apply (bool_decide_unpack _). by vm_compute.
  - apply (bool_decide_unpack _). by vm_compute.
  - vm_compute. repeat constructor; done.
  - vm_compute. repeat constructor; done.
  - split; [exact Hcopy | exact Hnew].
Defined.

(** ** The transcript of a session *)

Section OrderBySnoc.
Context {R K : Type} (le : K → K → bool) (key : R → K).


End OrderBySnoc.



(** ** The use of an API key *)

(** X16: [updateApiKeyLastUsed] stamps the key of the given id, whoever
    owns it, and nothing else.  In every user's list the keys of that id
    show the time of the call as [lastUsed] and the other entries are as
    before, in the same order; a key found by [getApiKeyById] under that
    id is found again with [lastUsed] set and its name, ciphertext, owner
    and creation time kept; keys of other ids are read as before. *)
Theorem lastUsed_then_read (w : World) (id : Z) :
  connected w →
  let w' := after (updateApiKeyLastUsed id) w in
  (∀ u, ∃ l,
     outcome (getApiKeysByUserId u) w = Ok l
     ∧ outcome (getApiKeysByUserId u) w'
       = Ok ((λ k, if decide (ApiKeyInfo.id k = id)
                   then ApiKeyInfo.mk (ApiKeyInfo.id k) (ApiKeyInfo.keyName k)
                          (Some (clock w)) (ApiKeyInfo.createdAt k)
                   else k) <$> l))
  ∧ (∀ u r,
       outcome (getApiKeyById id u) w = Ok (Some r) →
       outcome (getApiKeyById id u) w'
       = Ok (Some (ApiKey.mk id u (ApiKey.keyName r) (ApiKey.encryptedKey r)
                     (Some (clock w)) (ApiKey.createdAt r))))
  ∧ (∀ i u, i ≠ id →
       outcome (getApiKeyById i u) w' = outcome (getApiKeyById i u) w).
Proof.
  intros Hon. cbv zeta.
  assert (updateApiKeyLastUsed id w
          = (Ok (),
             executed (UPDATE T_apiKeys)
               (set_apiKeys
                  (tbl_update (λ r, ApiKey.id r = id)
                     (Set_.apiKeyLastUsed (clock w)) (apiKeys (store w)))
                  (store w))
               (set_db true w))) as Hrun.
  { unfold updateApiKeyLastUsed. by rewrite with_db_on. }
  unfold after, outcome. rewrite Hrun. cbn [snd].
  unfold getApiKeysByUserId, getApiKeyById.
  split_and!.
  - intros u. eexists. rewrite read_run by done. split; [done|].
    rewrite read_run by apply connected_statement.
    unfold tbl_select, tbl_update. simpl. f_equal.
    rewrite filter_fmap_keep
      by (intros r; destruct (decide _); [by destruct r|done]).
    rewrite <- !list_fmap_compose. apply list_fmap_ext. intros _ r _.
    simpl. by destruct (decide (ApiKey.id r = id)).
  - intros u r. rewrite read_run by done.
    rewrite read_run by apply connected_statement.
    unfold tbl_select, tbl_update. cbn -[limit]. intros Hget%Ok_inj.
    rewrite filter_fmap_keep
      by (intros x; destruct (decide _); [by destruct x|done]).
    rewrite head_limit_fmap, Hget. simpl.
    pose proof (head_limit_in _ _ Hget) as Hin.
    apply list_elem_of_filter in Hin. destruct Hin as [[Hid Hu] _].
    rewrite decide_True by done. unfold Set_.apiKeyLastUsed.
    by rewrite Hid, Hu.
  - intros i u Hi.
    rewrite !read_run by (done || apply connected_statement).
    unfold tbl_select, tbl_update. cbn -[limit]. do 3 f_equal.
    rewrite filter_fmap_keep
      by (intros x; destruct (decide _); [by destruct x|done]).
    rewrite <- (list_fmap_id (filter _ _)) at 2.
    apply list_fmap_ext. intros n r Hr. simpl.
    apply list_elem_of_lookup_2, list_elem_of_filter in Hr.
    destruct Hr as [[Hid _] _]. rewrite decide_False; [done|]. congruence.
Qed.

Lemma lastUsed_then_read_witness :
  connected demoLater
  ∧ outcome (getApiKeysByUserId 1) (after (updateApiKeyLastUsed 1) demoLater)
    = Ok [ApiKeyInfo.mk 1 "main" (Some 20) 10].
Proof.
  split; [by vm_compute|].
  destruct (lastUsed_then_read demoLater 1) as (Hlist & _); [by vm_compute|].
  destruct (Hlist 1) as (l & Hl & Hl'). rewrite Hl'.
  vm_compute in Hl. apply Ok_inj in Hl. subst l. by vm_compute.
Defined.

(** ** The router on an unavailable store *)

(** X17: on an unavailable store [scenarios.copy] fails with "Scenario
    not found" (not with "Database not available"), the guarded reads
    give null, the image list is empty, and the deletes return; each
    leaves the process as it was. *)
Theorem router_unavailable (w : World) (caller id : Z) :
  unavailable w →
  appRouter.scenarios.copy caller id w = (Throw ScenarioNotFound, w)
  ∧ appRouter.scenarios.get caller id w = (Ok None, w)
  ∧ appRouter.chat.getSession caller id w = (Ok None, w)
  ∧ appRouter.stories.get caller id w = (Ok None, w)
  ∧ (∀ input, appRouter.images.list caller input w = (Ok [], w))
  ∧ appRouter.scenarios.delete caller id w = (Ok (), w)
  ∧ appRouter.scenarios.removeCharacter caller id w = (Ok (), w)
  ∧ appRouter.chat.deleteMessage caller id w = (Ok (), w).
Proof.
  intros Hoff.
  assert (getScenarioById id w = (Ok None, w)) as Hs
    by (unfold getScenarioById; by rewrite with_db_off).
  assert (getChatSessionById id caller w = (Ok None, w)) as Hc
    by (unfold getChatSessionById; by rewrite with_db_off).
  assert (getStoryById id caller w = (Ok None, w)) as Ht
    by (unfold getStoryById; by rewrite with_db_off).
  split_and!.
  - unfold appRouter.scenarios.copy, bind at 1. by rewrite Hs.
  - unfold appRouter.scenarios.get, bind at 1. by rewrite Hs.
  - unfold appRouter.chat.getSession, bind at 1. by rewrite Hc.
  - unfold appRouter.stories.get, bind at 1. by rewrite Ht.
  - intros input.
    unfold appRouter.images.list, getGeneratedImagesByUserId.
    by rewrite with_db_off.
  - unfold appRouter.scenarios.delete, deleteScenario.
    by rewrite with_db_off.
  - unfold appRouter.scenarios.removeCharacter, deleteScenarioCharacter.
    by rewrite with_db_off.
  - unfold appRouter.chat.deleteMessage, deleteChatMessage.
    by rewrite with_db_off.
Qed.

Lemma router_unavailable_witness :
  unavailable offlineWorld
  ∧ appRouter.scenarios.copy 1 1 offlineWorld
    = (Throw ScenarioNotFound, offlineWorld).
Proof.
  split; [by vm_compute|].
  destruct (router_unavailable offlineWorld 1 1) as (Hcopy & _);
    [by vm_compute|].
  exact Hcopy.
Defined.

(** ** The public list and its search *)



(** The collation of the concrete worlds on some patterns and titles. *)
Example likeBinary_matches :
  likeBinary "%B%" "B" = true
  ∧ likeBinary "%B%" "a Bc" = true
  ∧ likeBinary "%B%" "A2" = false
  ∧ likeBinary "%b%" "B" = false
  ∧ likeBinary "%" "" = true
  ∧ likeBinary "a_c" "abc" = true
  ∧ likeBinary "a_c" "ac" = false
  ∧ likeBinary "%av%" "Tavern" = true.
Proof. by vm_compute. Qed.

(** ** Children in the order of their index *)

Section OrderByInsert.
Context {R K : Type} `{EqDecision K} (le : K → K → bool) (key : R → K).
Hypothesis le_total : ∀ a b, le a b = true ∨ le b a = true.
Hypothesis le_trans :
  ∀ a b c, le a b = true → le b c = true → le a c = true.





End OrderByInsert.




(** The character of [newScenarioCharacter], of index 1, is listed between
    Ann, of index 0, and Bob, of index 2. *)
Example child_added_between :
  fmap (M := list) ScenarioCharacter.name
    <$> outcome_rows (getScenarioCharacters 1)
          (after (addScenarioCharacter newScenarioCharacter) demoWorld)
  = Some ["Ann"; "Cy"; "Bob"].
Proof. by vm_compute. Qed.
